(** * PetForge batch workshop: scheduling helpers, page reducer and handlers

    A shallow embedding of
      - [video-studio/src/types/index.ts]        (batch task data model),
      - [video-studio/src/lib/batchUtils.ts]     (pure scheduling helpers),
      - [video-studio/src/pages/BatchPage.*]     (page reducer, stage handlers,
                                                   API service layer),
      - [video-studio/src/components/batch/*]    (batch-edit modal, task table,
                                                   detail panel),
    followed by the properties of the orchestration specification that
    these functions decide, and by further properties of the same code. *)

From Stdlib Require Import String List Bool Arith Lia PrimFloat.
From stdpp Require Import base option list gmap strings sorting pretty.

Open Scope string_scope.

(** ** The JavaScript values the helpers handle *)

Module JS.

(** Exceptions that the modelled code can raise or receive. *)
Inductive exn :=
| TypeError (message : string)     (* property read on undefined or null *)
| SyntaxError (message : string)   (* JSON.parse on a malformed text *)
| Error (message : string).        (* [new Error(message)] of the API layer *)

(** [error instanceof Error ? error.message : fallback]: every exception of
    this model is an instance of [Error]. *)
Definition message_of (e : exn) : string :=
  match e with TypeError m | SyntaxError m | Error m => m end.

(** The texts of the engine's own exceptions are not fixed by the
    language; no modelled function looks at them. *)
Definition null_read : exn := TypeError "Cannot read properties of undefined or null".
Definition bad_json : exn := SyntaxError "Unexpected token in JSON".

(** Outcome of evaluating an expression: a value or a raised exception. *)
Inductive result (A : Type) :=
| Normal (a : A)
| Throw (e : exn).
Arguments Normal {A} a.
Arguments Throw {A} e.

#[export] Instance result_ret : MRet result := @Normal.
#[export] Instance result_bind : MBind result := fun A B k r =>
  match r with Normal a => k a | Throw e => Throw e end.
#[export] Instance result_fmap : FMap result := fun A B f r =>
  match r with Normal a => Normal (f a) | Throw e => Throw e end.

(** [try { body } catch { handler }] *)
Definition try_catch {A} (body : result A) (handler : exn -> A) : A :=
  match body with Normal a => a | Throw e => handler e end.

(** Dynamically typed values: what [JSON.parse] returns, plus [undefined]
    (the result of reading an absent property).  An object is the list of
    its own properties. *)
#[warnings="-register-all"] Inductive value :=
| VUndefined
| VNull
| VBool (b : bool)
| VNum (x : float)
| VStr (s : string)
| VArr (items : list value)
| VObj (props : list (string * value)).

Definition nullish (v : value) : bool :=
  match v with VUndefined | VNull => true | _ => false end.

(** ToBoolean *)
Definition truthy (v : value) : bool :=
  match v with
  | VUndefined | VNull => false
  | VBool b => b
  | VNum x => negb (PrimFloat.is_zero x || PrimFloat.is_nan x)
  | VStr s => negb (String.eqb s "")
  | VArr _ | VObj _ => true
  end.

(** [a || b] on values. *)
Definition or_else (a b : value) : value := if truthy a then a else b.

(** [a || b] where evaluating [b] may raise. *)
Definition or_elseM (a : value) (b : result value) : result value :=
  if truthy a then Normal a else b.

Fixpoint assoc (k : string) (props : list (string * value)) : option value :=
  match props with
  | [] => None
  | (k', v) :: rest => if String.eqb k k' then Some v else assoc k rest
  end.

(** Reading the data property [k] of a value that is neither undefined
    nor null.  The names read by this code ([storyboards], [segments],
    [status], [lastFrameUrl], ...) are defined on no prototype, so only
    an object's own properties can answer. *)
Definition prop (v : value) (k : string) : value :=
  match v with
  | VObj props => default VUndefined (assoc k props)
  | _ => VUndefined
  end.

(** [v.k] *)
Definition get (v : value) (k : string) : result value :=
  if nullish v then Throw null_read else Normal (prop v k).

(** [v?.k] *)
Definition get_opt (v : value) (k : string) : value :=
  if nullish v then VUndefined else prop v k.

(** [Array.isArray(v)] *)
Definition isArray (v : value) : bool :=
  match v with VArr _ => true | _ => false end.

Definition items_of (v : value) : list value :=
  match v with VArr items => items | _ => [] end.

(** [v === s] for a string literal [s] *)
Definition strict_eq_str (v : value) (s : string) : bool :=
  match v with VStr s' => String.eqb s' s | _ => false end.

(** An optional string field ([field?: string]) read as a value. *)
Definition of_opt_string (o : option string) : value :=
  match o with Some s => VStr s | None => VUndefined end.

(** The text of a [storyboardJson] field, up to what the code can observe
    of it: whether it is the empty string, and what [JSON.parse] makes of
    it.  [Json v] stands for any text that parses to [v]. *)
Inductive text :=
| EmptyText
| Malformed
| Json (v : value).

Definition JSON_parse (t : text) : result value :=
  match t with
  | Json v => Normal v
  | EmptyText | Malformed => Throw bad_json
  end.

(** Truthiness of an optional text: false for undefined, null and the
    empty string. *)
Definition text_truthy (o : option text) : bool :=
  match o with
  | None | Some EmptyText => false
  | Some Malformed | Some (Json _) => true
  end.

Definition string_truthy (o : option string) : bool :=
  match o with
  | None => false
  | Some s => negb (String.eqb s "")
  end.

End JS.

Import JS.

(** ** types/index.ts *)

Inductive SegmentStatus := pending | generating | completed | failed.

Definition SegmentStatus_string (s : SegmentStatus) : string :=
  match s with
  | pending => "pending"
  | generating => "generating"
  | completed => "completed"
  | failed => "failed"
  end.

Module Segment.
Record BatchSegment := {
  videoUrl : option string;
  lastFrameUrl : option string;
  status : SegmentStatus;
}.
End Segment.
Abbreviation BatchSegment := Segment.BatchSegment.

(** [status] is a [BatchTaskStatus]; it is kept as the string it is at run
    time because the helpers classify it by prefix. *)
Module Task.
Record BatchTask := {
  id : string;
  actorId : option string;
  projectId : option string;
  openingImageUrl : option string;
  sceneDescription : option string;
  templateId : option string;
  segmentCount : nat;
  storyboardJson : option text;
  segments : list BatchSegment;
  finalVideoUrl : option string;
  status : string;
  errorMessage : option string;
  progress : string;
  updatedAt : option string;
  publishDate : option string;
}.
End Task.
Abbreviation BatchTask := Task.BatchTask.

Module Feishu.
Record FeishuConfig := {
  appId : string;
  appSecret : string;
  appToken : option string;
  tenantAccessToken : option string;
  tableId : string;
  connected : bool;
  tableName : option string;
  recordCount : option nat;
  driveFolderToken : option string;
}.
End Feishu.
Abbreviation FeishuConfig := Feishu.FeishuConfig.

Module Settings.
Record BatchSettings := {
  storyboardConcurrency : nat;
  videoConcurrency : nat;
  writebackBatchSize : nat;
}.
End Settings.
Abbreviation BatchSettings := Settings.BatchSettings.

(** ** lib/batchUtils.ts

    Console logging is left out: its reads are guarded by [?.] and cannot
    raise. *)

Definition parseStoryboardSegments (storyboardJson : option text) : list value :=
  if negb (text_truthy storyboardJson) then []
  else
    try_catch
      (parsed ← from_option JSON_parse (Throw bad_json) storyboardJson;
       storyboards ← get parsed "storyboards";
       if truthy storyboards && isArray storyboards then mret (items_of storyboards)
       else
         segs ← get parsed "segments";
         if truthy segs && isArray segs then mret (items_of segs)
         else if isArray parsed then mret (items_of parsed)
         else mret [])
      (fun _ => []).

(** The shape of the elements of the local [segments] array of
    [getNextSegmentIndex]: either a [BatchSegment] of the task, or the
    object literal built from a storyboard entry. *)
Module Raw.
Record segment := {
  status : value;
  videoUrl : value;
  lastFrameUrl : value;
}.
End Raw.

Definition of_BatchSegment (s : BatchSegment) : Raw.segment :=
  {| Raw.status := VStr (SegmentStatus_string (Segment.status s));
     Raw.videoUrl := of_opt_string (Segment.videoUrl s);
     Raw.lastFrameUrl := of_opt_string (Segment.lastFrameUrl s) |}.

(** [seg => ({ status: seg.status || 'pending', videoUrl: seg.videoUrl ||
    seg.video_url, lastFrameUrl: seg.lastFrameUrl || seg.last_frame_url })] *)
Definition of_storyboard_entry (seg : value) : result Raw.segment :=
  st ← get seg "status";
  video ← get seg "videoUrl";
  video ← or_elseM video (get seg "video_url");
  frame ← get seg "lastFrameUrl";
  frame ← or_elseM frame (get seg "last_frame_url");
  mret {| Raw.status := or_else st (VStr "pending");
          Raw.videoUrl := video;
          Raw.lastFrameUrl := frame |}.

(** The status classification at the head of [getNextSegmentIndex]. *)
Definition in_flight (status : string) : bool :=
  String.prefix "generating_segment_" status
  || String.eqb status "merging"
  || String.eqb status "storyboard_generating".

(** [const segments = useTaskSegments ? task.segments : parse(...).map(...)] *)
Definition segments_of (task : BatchTask) : result (list Raw.segment) :=
  if (0 <? length (Task.segments task))%nat
  then mret (of_BatchSegment <$> Task.segments task)
  else mapM of_storyboard_entry (parseStoryboardSegments (Task.storyboardJson task)).

Definition segment_status (seg : Raw.segment) : value :=
  or_else (Raw.status seg) (VStr "pending").

(** The [for] loop of [getNextSegmentIndex]: [rest] is what remains of
    [segments] from index [i] on. *)
Fixpoint first_incomplete (task : BatchTask) (segments : list Raw.segment)
    (i : nat) (rest : list Raw.segment) : option nat :=
  match rest with
  | [] => None
  | seg :: rest' =>
      if negb (strict_eq_str (segment_status seg) "completed") then
        if (i =? 0)%nat then
          if string_truthy (Task.openingImageUrl task) then Some 0 else None
        else
          let prevStatus :=
            or_else (from_option Raw.status VUndefined (segments !! (i - 1)))
                    (VStr "pending") in
          if strict_eq_str prevStatus "completed" then Some i else None
      else first_incomplete task segments (S i) rest'
  end.

Definition getNextSegmentIndex (task : BatchTask) : result (option nat) :=
  if negb (text_truthy (Task.storyboardJson task)) then mret None
  else if in_flight (Task.status task) then mret None
  else if String.eqb (Task.status task) "completed" then mret None
  else
    segments ← segments_of task;
    if (length segments =? 0)%nat then mret None
    else mret (first_incomplete task segments 0 segments).

(** The [segment] field of a [PendingSegmentInfo]. *)
Module Prompt.
Record fields := {
  id : value;
  segmentIndex : nat;
  segmentType : value;
  crucial : value;
  action : value;
  sound : value;
  negative_constraint : value;
  prompt : value;
  status : value;
  crucial_zh : value;
  action_zh : value;
  sound_zh : value;
  negative_constraint_zh : value;
}.
End Prompt.

Module Pending.
Record PendingSegmentInfo := {
  taskId : string;
  taskIndex : nat;
  projectId : string;
  segmentIndex : nat;
  segment : option Prompt.fields;
  inputFrameUrl : value;
  inputFrameLabel : string;
}.
End Pending.
Abbreviation PendingSegmentInfo := Pending.PendingSegmentInfo.

(** [selectedRecordIds.length > 0 ? tasks.filter(t =>
    selectedRecordIds.includes(t.id)) : tasks] *)
Definition tasksToProcess (tasks : list BatchTask) (selectedRecordIds : list string)
    : list BatchTask :=
  if (0 <? length selectedRecordIds)%nat
  then List.filter (fun t => bool_decide (Task.id t ∈ selectedRecordIds)) tasks
  else tasks.

(** The object literal copied from a storyboard entry; [segmentData] is
    truthy where this is evaluated, so no read can raise. *)
Definition prompt_of (segmentData : value) (nextSeg : nat) : Prompt.fields :=
  let field k fallback := or_else (prop segmentData k) (VStr fallback) in
  {| Prompt.id := field "id" ("segment-" +:+ pretty nextSeg);
     Prompt.segmentIndex := nextSeg;
     Prompt.segmentType :=
       or_else (prop segmentData "segment_type") (field "segmentType" "eating");
     Prompt.crucial := field "crucial" "";
     Prompt.action := field "action" "";
     Prompt.sound := field "sound" "";
     Prompt.negative_constraint := field "negative_constraint" "";
     Prompt.prompt := field "prompt" "";
     Prompt.status := field "status" "pending";
     Prompt.crucial_zh := field "crucial_zh" "";
     Prompt.action_zh := field "action_zh" "";
     Prompt.sound_zh := field "sound_zh" "";
     Prompt.negative_constraint_zh := field "negative_constraint_zh" "" |}.

(** The input frame of segment [nextSeg] of [task]. *)
Definition input_frame (task : BatchTask) (storyboards : list value) (nextSeg : nat)
    : value * string :=
  if (nextSeg =? 0)%nat then
    (of_opt_string (Task.openingImageUrl task), "Opening Image")
  else
    let prevSegFromTask := Task.segments task !! (nextSeg - 1) in
    let prevSegFromStoryboard := default VUndefined (storyboards !! (nextSeg - 1)) in
    (or_else
       (or_else
          (from_option (fun s => of_opt_string (Segment.lastFrameUrl s)) VUndefined
                       prevSegFromTask)
          (get_opt prevSegFromStoryboard "lastFrameUrl"))
       (get_opt prevSegFromStoryboard "last_frame_url"),
     "段" +:+ pretty (nextSeg - 1) +:+ " Last Frame").

(** The body of the [forEach] of [calculatePendingSegments]: what task
    [task], at position [idx], contributes. *)
Definition pending_of (idx : nat) (task : BatchTask) : result (option PendingSegmentInfo) :=
  nextSeg ← getNextSegmentIndex task;
  match nextSeg with
  | None => mret None
  | Some nextSeg =>
      let storyboards := parseStoryboardSegments (Task.storyboardJson task) in
      if (length storyboards <=? nextSeg)%nat then mret None
      else
        let segmentData := default VUndefined (storyboards !! nextSeg) in
        let '(inputFrameUrl, inputFrameLabel) := input_frame task storyboards nextSeg in
        mret (Some
          {| Pending.taskId := Task.id task;
             Pending.taskIndex := idx;
             Pending.projectId := default "" (Task.projectId task);
             Pending.segmentIndex := nextSeg;
             Pending.segment :=
               if truthy segmentData then Some (prompt_of segmentData nextSeg) else None;
             Pending.inputFrameUrl := inputFrameUrl;
             Pending.inputFrameLabel := inputFrameLabel |})
  end.

Definition calculatePendingSegments (tasks : list BatchTask)
    (selectedRecordIds : list string) : result (list PendingSegmentInfo) :=
  contributions ← mapM (fun '(idx, task) => pending_of idx task)
                       (imap pair (tasksToProcess tasks selectedRecordIds));
  mret (omap (fun c => c) contributions).

(** [segmentGroups[nextSeg].push(task.id)], creating the group when it is
    absent. *)
Definition group_push (segmentGroups : gmap nat (list string)) (k : nat) (x : string)
    : gmap nat (list string) :=
  <[k := (default [] (segmentGroups !! k) ++ [x])%list]> segmentGroups.

Definition groupTasksBySegmentIndex (tasks : list BatchTask)
    (selectedRecordIds : list string) : result (gmap nat (list string)) :=
  foldl (fun acc task =>
           segmentGroups ← acc;
           nextSeg ← getNextSegmentIndex task;
           match nextSeg with
           | Some nextSeg => mret (group_push segmentGroups nextSeg (Task.id task))
           | None => mret segmentGroups
           end)
        (mret ∅) (tasksToProcess tasks selectedRecordIds).

Definition filterTasksForStoryboard (tasks : list BatchTask) : list BatchTask :=
  List.filter
    (fun t => string_truthy (Task.openingImageUrl t)
              && (String.eqb (Task.status t) "pending"
                  || String.eqb (Task.status t) "storyboard_ready"))
    tasks.

Definition filterTasksForMerge (tasks : list BatchTask) : list BatchTask :=
  List.filter (fun t => String.eqb (Task.status t) "all_segments_ready") tasks.

(** ** pages/BatchPage.types.ts *)

(** [Partial<FeishuConfig>]: [None] for a key that the payload does not
    carry.  A key of an optional field can be carried with the value
    undefined. *)
Module PartialFeishu.
Record t := {
  appId : option string;
  appSecret : option string;
  appToken : option (option string);
  tenantAccessToken : option (option string);
  tableId : option string;
  connected : option bool;
  tableName : option (option string);
  recordCount : option (option nat);
  driveFolderToken : option (option string);
}.
End PartialFeishu.

(** [Partial<BatchSettings>] *)
Module PartialSettings.
Record t := {
  storyboardConcurrency : option nat;
  videoConcurrency : option nat;
  writebackBatchSize : option nat;
}.
End PartialSettings.

Module Page.

Inductive PageStatus :=
| idle
| connecting
| loadingTasks
| generatingStoryboard
| generatingSegment
| merging
| syncing
| uploadingToDrive
| error.

Record PageState := {
  status : PageStatus;
  errorMessage : option string;
  feishuConfig : FeishuConfig;
  tasks : list BatchTask;
  selectedTaskId : option string;
  selectedRecordIds : list string;
  statusFilter : string;
  showDetail : bool;
  sidebarCollapsed : bool;
  showBatchEditModal : bool;
  queueOpen : bool;
  currentSegmentIndex : nat;
  settings : BatchSettings;
}.

Inductive PageAction :=
| CONNECT_START
| CONNECT_SUCCESS (tableName : string) (recordCount : nat) (driveFolderToken : option string)
| CONNECT_FAILURE (payload : string)
| DISCONNECT
| LOAD_TASKS_START
| LOAD_TASKS_SUCCESS (payload : list BatchTask)
| LOAD_TASKS_FAILURE (payload : string)
| GENERATE_STORYBOARD_START
| GENERATE_STORYBOARD_SUCCESS (successCount failedCount : nat)
| GENERATE_STORYBOARD_FAILURE (payload : string)
| GENERATE_SEGMENT_START (payload : nat)
| GENERATE_SEGMENT_SUCCESS (successCount failedCount : nat)
| GENERATE_SEGMENT_FAILURE (payload : string)
| MERGE_START
| MERGE_SUCCESS (successCount failedCount : nat)
| MERGE_FAILURE (payload : string)
| SYNC_START
| SYNC_SUCCESS
| SYNC_FAILURE (payload : string)
| UPLOAD_TO_DRIVE_START
| UPLOAD_TO_DRIVE_SUCCESS (success total failed : nat)
| UPLOAD_TO_DRIVE_FAILURE (payload : string)
| SELECT_TASK (payload : option string)
| SET_SELECTED_RECORDS (payload : list string)
| SET_STATUS_FILTER (payload : string)
| SET_SHOW_DETAIL (payload : bool)
| SET_SIDEBAR_COLLAPSED (payload : bool)
| SET_SHOW_BATCH_EDIT_MODAL (payload : bool)
| SET_QUEUE_OPEN (payload : bool)
| UPDATE_FEISHU_CONFIG (payload : PartialFeishu.t)
| UPDATE_SETTINGS (payload : PartialSettings.t)
| CLEAR_ERROR.

End Page.
Import Page.
Abbreviation PageState := Page.PageState.
Abbreviation PageAction := Page.PageAction.

Definition DEFAULT_SETTINGS : BatchSettings :=
  {| Settings.storyboardConcurrency := 10;
     Settings.videoConcurrency := 5;
     Settings.writebackBatchSize := 500 |}.

Definition DEFAULT_FEISHU_CONFIG : FeishuConfig :=
  {| Feishu.appId := "";
     Feishu.appSecret := "";
     Feishu.appToken := Some "";
     Feishu.tenantAccessToken := None;
     Feishu.tableId := "";
     Feishu.connected := false;
     Feishu.tableName := None;
     Feishu.recordCount := None;
     Feishu.driveFolderToken := Some "LO1jf6cT7lOEuXdHYXScSV8Vnth" |}.

Definition INITIAL_STATE : PageState :=
  {| Page.status := idle;
     Page.errorMessage := None;
     Page.feishuConfig := DEFAULT_FEISHU_CONFIG;
     Page.tasks := [];
     Page.selectedTaskId := None;
     Page.selectedRecordIds := [];
     Page.statusFilter := "all";
     Page.showDetail := true;
     Page.sidebarCollapsed := false;
     Page.showBatchEditModal := false;
     Page.queueOpen := false;
     Page.currentSegmentIndex := 0;
     Page.settings := DEFAULT_SETTINGS |}.

(** ** pages/BatchPage.reducer.ts: the reducer *)

(** [{ ...state, status, errorMessage }] and the other spreads that
    replace some fields of the state. *)
Definition with_status (s : PageStatus) (state : PageState) : PageState :=
  {| Page.status := s;
     Page.errorMessage := Page.errorMessage state;
     Page.feishuConfig := Page.feishuConfig state;
     Page.tasks := Page.tasks state;
     Page.selectedTaskId := Page.selectedTaskId state;
     Page.selectedRecordIds := Page.selectedRecordIds state;
     Page.statusFilter := Page.statusFilter state;
     Page.showDetail := Page.showDetail state;
     Page.sidebarCollapsed := Page.sidebarCollapsed state;
     Page.showBatchEditModal := Page.showBatchEditModal state;
     Page.queueOpen := Page.queueOpen state;
     Page.currentSegmentIndex := Page.currentSegmentIndex state;
     Page.settings := Page.settings state |}.

Definition with_errorMessage (m : option string) (state : PageState) : PageState :=
  {| Page.status := Page.status state;
     Page.errorMessage := m;
     Page.feishuConfig := Page.feishuConfig state;
     Page.tasks := Page.tasks state;
     Page.selectedTaskId := Page.selectedTaskId state;
     Page.selectedRecordIds := Page.selectedRecordIds state;
     Page.statusFilter := Page.statusFilter state;
     Page.showDetail := Page.showDetail state;
     Page.sidebarCollapsed := Page.sidebarCollapsed state;
     Page.showBatchEditModal := Page.showBatchEditModal state;
     Page.queueOpen := Page.queueOpen state;
     Page.currentSegmentIndex := Page.currentSegmentIndex state;
     Page.settings := Page.settings state |}.

Definition with_feishuConfig (c : FeishuConfig) (state : PageState) : PageState :=
  {| Page.status := Page.status state;
     Page.errorMessage := Page.errorMessage state;
     Page.feishuConfig := c;
     Page.tasks := Page.tasks state;
     Page.selectedTaskId := Page.selectedTaskId state;
     Page.selectedRecordIds := Page.selectedRecordIds state;
     Page.statusFilter := Page.statusFilter state;
     Page.showDetail := Page.showDetail state;
     Page.sidebarCollapsed := Page.sidebarCollapsed state;
     Page.showBatchEditModal := Page.showBatchEditModal state;
     Page.queueOpen := Page.queueOpen state;
     Page.currentSegmentIndex := Page.currentSegmentIndex state;
     Page.settings := Page.settings state |}.

Definition with_tasks (l : list BatchTask) (state : PageState) : PageState :=
  {| Page.status := Page.status state;
     Page.errorMessage := Page.errorMessage state;
     Page.feishuConfig := Page.feishuConfig state;
     Page.tasks := l;
     Page.selectedTaskId := Page.selectedTaskId state;
     Page.selectedRecordIds := Page.selectedRecordIds state;
     Page.statusFilter := Page.statusFilter state;
     Page.showDetail := Page.showDetail state;
     Page.sidebarCollapsed := Page.sidebarCollapsed state;
     Page.showBatchEditModal := Page.showBatchEditModal state;
     Page.queueOpen := Page.queueOpen state;
     Page.currentSegmentIndex := Page.currentSegmentIndex state;
     Page.settings := Page.settings state |}.

Definition with_currentSegmentIndex (i : nat) (state : PageState) : PageState :=
  {| Page.status := Page.status state;
     Page.errorMessage := Page.errorMessage state;
     Page.feishuConfig := Page.feishuConfig state;
     Page.tasks := Page.tasks state;
     Page.selectedTaskId := Page.selectedTaskId state;
     Page.selectedRecordIds := Page.selectedRecordIds state;
     Page.statusFilter := Page.statusFilter state;
     Page.showDetail := Page.showDetail state;
     Page.sidebarCollapsed := Page.sidebarCollapsed state;
     Page.showBatchEditModal := Page.showBatchEditModal state;
     Page.queueOpen := Page.queueOpen state;
     Page.currentSegmentIndex := i;
     Page.settings := Page.settings state |}.

(** The UI fields, each replaced by its own action. *)
Definition with_ui (selectedTaskId : option string) (selectedRecordIds : list string)
    (statusFilter : string) (showDetail sidebarCollapsed showBatchEditModal queueOpen : bool)
    (settings : BatchSettings) (state : PageState) : PageState :=
  {| Page.status := Page.status state;
     Page.errorMessage := Page.errorMessage state;
     Page.feishuConfig := Page.feishuConfig state;
     Page.tasks := Page.tasks state;
     Page.selectedTaskId := selectedTaskId;
     Page.selectedRecordIds := selectedRecordIds;
     Page.statusFilter := statusFilter;
     Page.showDetail := showDetail;
     Page.sidebarCollapsed := sidebarCollapsed;
     Page.showBatchEditModal := showBatchEditModal;
     Page.queueOpen := queueOpen;
     Page.currentSegmentIndex := Page.currentSegmentIndex state;
     Page.settings := settings |}.

(** [{ ...config, ...payload }] *)
Definition merge_feishu (c : FeishuConfig) (p : PartialFeishu.t) : FeishuConfig :=
  {| Feishu.appId := default (Feishu.appId c) (PartialFeishu.appId p);
     Feishu.appSecret := default (Feishu.appSecret c) (PartialFeishu.appSecret p);
     Feishu.appToken := default (Feishu.appToken c) (PartialFeishu.appToken p);
     Feishu.tenantAccessToken :=
       default (Feishu.tenantAccessToken c) (PartialFeishu.tenantAccessToken p);
     Feishu.tableId := default (Feishu.tableId c) (PartialFeishu.tableId p);
     Feishu.connected := default (Feishu.connected c) (PartialFeishu.connected p);
     Feishu.tableName := default (Feishu.tableName c) (PartialFeishu.tableName p);
     Feishu.recordCount := default (Feishu.recordCount c) (PartialFeishu.recordCount p);
     Feishu.driveFolderToken :=
       default (Feishu.driveFolderToken c) (PartialFeishu.driveFolderToken p) |}.

(** [{ ...settings, ...payload }] *)
Definition merge_settings (s : BatchSettings) (p : PartialSettings.t) : BatchSettings :=
  {| Settings.storyboardConcurrency :=
       default (Settings.storyboardConcurrency s) (PartialSettings.storyboardConcurrency p);
     Settings.videoConcurrency :=
       default (Settings.videoConcurrency s) (PartialSettings.videoConcurrency p);
     Settings.writebackBatchSize :=
       default (Settings.writebackBatchSize s) (PartialSettings.writebackBatchSize p) |}.

(** The [feishuConfig] object literal of [CONNECT_SUCCESS]. *)
Definition connected_config (c : FeishuConfig) (tableName : string) (recordCount : nat)
    (driveFolderToken : option string) : FeishuConfig :=
  {| Feishu.appId := Feishu.appId c;
     Feishu.appSecret := Feishu.appSecret c;
     Feishu.appToken := Feishu.appToken c;
     Feishu.tenantAccessToken := Feishu.tenantAccessToken c;
     Feishu.tableId := Feishu.tableId c;
     Feishu.connected := true;
     Feishu.tableName := Some tableName;
     Feishu.recordCount := Some recordCount;
     Feishu.driveFolderToken :=
       if string_truthy driveFolderToken then driveFolderToken
       else Feishu.driveFolderToken c |}.

Definition disconnected_config (c : FeishuConfig) : FeishuConfig :=
  {| Feishu.appId := Feishu.appId c;
     Feishu.appSecret := Feishu.appSecret c;
     Feishu.appToken := Feishu.appToken c;
     Feishu.tenantAccessToken := Feishu.tenantAccessToken c;
     Feishu.tableId := Feishu.tableId c;
     Feishu.connected := false;
     Feishu.tableName := Feishu.tableName c;
     Feishu.recordCount := Feishu.recordCount c;
     Feishu.driveFolderToken := Feishu.driveFolderToken c |}.

Definition pageReducer (state : PageState) (action : PageAction) : PageState :=
  match action with
  | CONNECT_START => with_errorMessage None (with_status connecting state)
  | CONNECT_SUCCESS tableName recordCount driveFolderToken =>
      with_feishuConfig
        (connected_config (Page.feishuConfig state) tableName recordCount driveFolderToken)
        (with_status idle state)
  | CONNECT_FAILURE payload => with_errorMessage (Some payload) (with_status error state)
  | DISCONNECT =>
      with_feishuConfig (disconnected_config (Page.feishuConfig state)) state
  | LOAD_TASKS_START => with_errorMessage None (with_status loadingTasks state)
  | LOAD_TASKS_SUCCESS payload => with_tasks payload (with_status idle state)
  | LOAD_TASKS_FAILURE payload => with_errorMessage (Some payload) (with_status error state)
  | GENERATE_STORYBOARD_START =>
      with_errorMessage None (with_status generatingStoryboard state)
  | GENERATE_STORYBOARD_SUCCESS _ _ => with_status idle state
  | GENERATE_STORYBOARD_FAILURE payload =>
      with_errorMessage (Some payload) (with_status error state)
  | GENERATE_SEGMENT_START payload =>
      with_errorMessage None
        (with_currentSegmentIndex payload (with_status generatingSegment state))
  | GENERATE_SEGMENT_SUCCESS _ _ => with_status idle state
  | GENERATE_SEGMENT_FAILURE payload =>
      with_errorMessage (Some payload) (with_status error state)
  | MERGE_START => with_errorMessage None (with_status merging state)
  | MERGE_SUCCESS _ _ => with_status idle state
  | MERGE_FAILURE payload => with_errorMessage (Some payload) (with_status error state)
  | SYNC_START => with_errorMessage None (with_status syncing state)
  | SYNC_SUCCESS => with_status idle state
  | SYNC_FAILURE payload => with_errorMessage (Some payload) (with_status error state)
  | UPLOAD_TO_DRIVE_START => with_errorMessage None (with_status uploadingToDrive state)
  | UPLOAD_TO_DRIVE_SUCCESS _ _ _ => with_status idle state
  | UPLOAD_TO_DRIVE_FAILURE payload =>
      with_errorMessage (Some payload) (with_status error state)
  | SELECT_TASK payload =>
      with_ui payload (Page.selectedRecordIds state) (Page.statusFilter state)
        (Page.showDetail state) (Page.sidebarCollapsed state)
        (Page.showBatchEditModal state) (Page.queueOpen state) (Page.settings state) state
  | SET_SELECTED_RECORDS payload =>
      with_ui (Page.selectedTaskId state) payload (Page.statusFilter state)
        (Page.showDetail state) (Page.sidebarCollapsed state)
        (Page.showBatchEditModal state) (Page.queueOpen state) (Page.settings state) state
  | SET_STATUS_FILTER payload =>
      with_ui (Page.selectedTaskId state) (Page.selectedRecordIds state) payload
        (Page.showDetail state) (Page.sidebarCollapsed state)
        (Page.showBatchEditModal state) (Page.queueOpen state) (Page.settings state) state
  | SET_SHOW_DETAIL payload =>
      with_ui (Page.selectedTaskId state) (Page.selectedRecordIds state)
        (Page.statusFilter state) payload (Page.sidebarCollapsed state)
        (Page.showBatchEditModal state) (Page.queueOpen state) (Page.settings state) state
  | SET_SIDEBAR_COLLAPSED payload =>
      with_ui (Page.selectedTaskId state) (Page.selectedRecordIds state)
        (Page.statusFilter state) (Page.showDetail state) payload
        (Page.showBatchEditModal state) (Page.queueOpen state) (Page.settings state) state
  | SET_SHOW_BATCH_EDIT_MODAL payload =>
      with_ui (Page.selectedTaskId state) (Page.selectedRecordIds state)
        (Page.statusFilter state) (Page.showDetail state) (Page.sidebarCollapsed state)
        payload (Page.queueOpen state) (Page.settings state) state
  | SET_QUEUE_OPEN payload =>
      with_ui (Page.selectedTaskId state) (Page.selectedRecordIds state)
        (Page.statusFilter state) (Page.showDetail state) (Page.sidebarCollapsed state)
        (Page.showBatchEditModal state) payload (Page.settings state) state
  | UPDATE_FEISHU_CONFIG payload =>
      with_feishuConfig (merge_feishu (Page.feishuConfig state) payload) state
  | UPDATE_SETTINGS payload =>
      with_ui (Page.selectedTaskId state) (Page.selectedRecordIds state)
        (Page.statusFilter state) (Page.showDetail state) (Page.sidebarCollapsed state)
        (Page.showBatchEditModal state) (Page.queueOpen state)
        (merge_settings (Page.settings state) payload) state
  | CLEAR_ERROR => with_errorMessage None (with_status idle state)
  end.

(** ** services/batchApiService.ts: the API service layer *)

Module Api.

(** What a service function sees of [fetch]: a response with [res.ok], its
    JSON body read at the declared result type; a response that is not ok
    carries the [detail] of its error body, if any. *)
Inductive response (A : Type) :=
| Ok (data : A)
| NotOk (detail : option string).
Arguments Ok {A} data.
Arguments NotOk {A} detail.

(** [if (!res.ok) throw new Error(error.detail || fallback); return res.json()] *)
Definition unwrap {A} (fallback : string) (res : result (response A)) : result A :=
  res ← res;
  match res with
  | Ok data => mret data
  | NotOk detail =>
      Throw (Error (if string_truthy detail then default "" detail else fallback))
  end.

(** [GenerateStoryboardsResult], [GenerateSegmentsResult], [MergeVideosResult] *)
Record counts := {
  success_count : nat;
  failed_count : nat;
}.

Record BatchSavePromptsItem := {
  record_id : string;
  project_id : string;
  segment_index : nat;
  crucial : string;
  action : string;
  sound : string;
  negative_constraint : string;
  crucial_zh : string;
  action_zh : string;
  sound_zh : string;
  negative_constraint_zh : string;
  is_modified : bool;
}.

Record CascadeRedoParams := {
  tableId : string;
  recordId : string;
  fromSegmentIndex : nat;
  regenerateStoryboard : bool;
}.

Record CascadeRedoResult := {
  cleared_segments : list nat;
  backup_paths : list string;
}.

(** The requests that the modelled handlers send. *)
Inductive request :=
| GenerateStoryboards (tableId : string) (recordIds : list string) (concurrency : nat)
| GenerateSegments (tableId : string) (recordIds : list string)
    (segmentIndex concurrency : nat)
| MergeVideos (tableId : string) (recordIds : list string)
| BatchSavePrompts (tableId : string) (items : list BatchSavePromptsItem)
| CascadeRedo (params : CascadeRedoParams).

(** The backend, as the answers of [fetch] to each kind of request. *)
Record backend := {
  generate_storyboards : string -> list string -> nat -> result (response counts);
  generate_segments : string -> list string -> nat -> nat -> result (response counts);
  merge_videos : string -> list string -> result (response counts);
  batch_save_prompts : string -> list BatchSavePromptsItem -> result (response counts);
  cascade_redo : CascadeRedoParams -> result (response CascadeRedoResult);
}.

Definition generateStoryboards (b : backend) (tableId : string) (recordIds : list string)
    (concurrency : nat) : result counts :=
  unwrap "生成分镜失败" (generate_storyboards b tableId recordIds concurrency).

Definition generateSegments (b : backend) (tableId : string) (recordIds : list string)
    (segmentIndex concurrency : nat) : result counts :=
  unwrap "生成视频段失败" (generate_segments b tableId recordIds segmentIndex concurrency).

Definition mergeVideos (b : backend) (tableId : string) (recordIds : list string)
    : result counts :=
  unwrap "合并视频失败" (merge_videos b tableId recordIds).

(** Of the answer of [batchSavePrompts] only the counts are modelled; its
    per-record [results] are only logged by the caller. *)
Definition batchSavePrompts (b : backend) (tableId : string)
    (items : list BatchSavePromptsItem) : result counts :=
  unwrap "保存编辑失败" (batch_save_prompts b tableId items).

Definition cascadeRedo (b : backend) (params : CascadeRedoParams)
    : result CascadeRedoResult :=
  unwrap "级联重做失败" (cascade_redo b params).

End Api.

(** ** pages/BatchPage.tsx: the stage handlers *)

Inductive ToastKind := toast_success | toast_error | toast_info | toast_warning.

(** What a handler does, in order: toasts, dispatched actions, requests
    sent to the backend, and the refresh of the task list. *)
Inductive effect :=
| Toast (message : string) (kind : ToastKind)
| Dispatch (action : PageAction)
| Call (request : Api.request)
| LoadTasks.

Definition handleGenerateStoryboards (b : Api.backend) (state : PageState) : list effect :=
  let selectedRecordIds := Page.selectedRecordIds state in
  let tasksToProcess := tasksToProcess (Page.tasks state) selectedRecordIds in
  if (length tasksToProcess =? 0)%nat then
    [Toast (if (length selectedRecordIds =? 0)%nat
            then "请先选择要生成分镜的记录" else "选中的记录为空") toast_info]
  else
    let pendingTasks := filterTasksForStoryboard tasksToProcess in
    if (length pendingTasks =? 0)%nat then
      [Toast "没有可生成分镜的任务（需要首帧图片且状态为待处理或分镜已生成）" toast_info]
    else
      let tableId := Feishu.tableId (Page.feishuConfig state) in
      let recordIds := Task.id <$> pendingTasks in
      let concurrency := Settings.storyboardConcurrency (Page.settings state) in
      Dispatch GENERATE_STORYBOARD_START
      :: Call (Api.GenerateStoryboards tableId recordIds concurrency)
      :: match Api.generateStoryboards b tableId recordIds concurrency with
         | Normal data =>
             [Dispatch (GENERATE_STORYBOARD_SUCCESS (Api.success_count data)
                                                    (Api.failed_count data));
              Toast ("分镜生成完成：成功 " +:+ pretty (Api.success_count data)
                     +:+ "，失败 " +:+ pretty (Api.failed_count data)) toast_success;
              LoadTasks]
         | Throw e =>
             [Dispatch (GENERATE_STORYBOARD_FAILURE (message_of e));
              Toast (message_of e) toast_error]
         end.

Definition handleMergeVideos (b : Api.backend) (state : PageState) : list effect :=
  let selectedRecordIds := Page.selectedRecordIds state in
  let tasksToProcess := tasksToProcess (Page.tasks state) selectedRecordIds in
  if (length tasksToProcess =? 0)%nat then
    [Toast (if (length selectedRecordIds =? 0)%nat
            then "请先选择要合并的记录" else "选中的记录为空") toast_info]
  else
    let readyTasks := filterTasksForMerge tasksToProcess in
    if (length readyTasks =? 0)%nat then
      [Toast "没有可以合并的任务" toast_info]
    else
      let tableId := Feishu.tableId (Page.feishuConfig state) in
      let recordIds := Task.id <$> readyTasks in
      Dispatch MERGE_START
      :: Call (Api.MergeVideos tableId recordIds)
      :: match Api.mergeVideos b tableId recordIds with
         | Normal data =>
             [Dispatch (MERGE_SUCCESS (Api.success_count data) (Api.failed_count data));
              Toast ("合并完成：成功 " +:+ pretty (Api.success_count data)
                     +:+ "，失败 " +:+ pretty (Api.failed_count data)) toast_success;
              LoadTasks]
         | Throw e =>
             [Dispatch (MERGE_FAILURE (message_of e));
              Toast (message_of e) toast_error]
         end.

(** The argument of [handleBatchEditConfirm]. *)
Module Edit.
Record fields := {
  crucial : string;
  action : string;
  sound : string;
  negative_constraint : string;
  crucial_zh : option string;
  action_zh : option string;
  sound_zh : option string;
  negative_constraint_zh : option string;
}.

Record t := {
  taskId : string;
  projectId : string;
  segmentIndex : nat;
  edited : fields;
  isModified : bool;
}.
End Edit.

(** The value that [handleBatchEditConfirm] resolves to. *)
Module Confirm.
Record outcome := {
  success : bool;
  successCount : nat;
  failedCount : nat;
  error : option string;
}.
End Confirm.

Definition save_item (e : Edit.t) : Api.BatchSavePromptsItem :=
  {| Api.record_id := Edit.taskId e;
     Api.project_id := Edit.projectId e;
     Api.segment_index := Edit.segmentIndex e;
     Api.crucial := Edit.crucial (Edit.edited e);
     Api.action := Edit.action (Edit.edited e);
     Api.sound := Edit.sound (Edit.edited e);
     Api.negative_constraint := Edit.negative_constraint (Edit.edited e);
     Api.crucial_zh := default "" (Edit.crucial_zh (Edit.edited e));
     Api.action_zh := default "" (Edit.action_zh (Edit.edited e));
     Api.sound_zh := default "" (Edit.sound_zh (Edit.edited e));
     Api.negative_constraint_zh := default "" (Edit.negative_constraint_zh (Edit.edited e));
     Api.is_modified := true |}.

(** Step 2 of [handleBatchEditConfirm]: [edits.forEach(e => ...push(e.taskId))] *)
Definition edit_groups (edits : list Edit.t) : gmap nat (list string) :=
  foldl (fun segmentGroups e => group_push segmentGroups (Edit.segmentIndex e) (Edit.taskId e))
        ∅ edits.

(** [Object.keys(segmentGroups).map(Number).sort((a, b) => a - b)] *)
Definition sorted_keys (segmentGroups : gmap nat (list string)) : list nat :=
  merge_sort Nat.le (fst <$> map_to_list segmentGroups).

(** The [for (const segmentIndex of segmentIndices)] loop, from the totals
    accumulated so far: the effects of the remaining iterations and the
    final totals. *)
Fixpoint generate_groups (b : Api.backend) (state : PageState)
    (segmentGroups : gmap nat (list string)) (segmentIndices : list nat)
    (totalSuccess totalFailed : nat) : list effect * (nat * nat) :=
  match segmentIndices with
  | [] => ([], (totalSuccess, totalFailed))
  | segmentIndex :: rest =>
      let recordIds := default [] (segmentGroups !! segmentIndex) in
      let tableId := Feishu.tableId (Page.feishuConfig state) in
      let concurrency := Settings.videoConcurrency (Page.settings state) in
      let '(totalSuccess', totalFailed') :=
        match Api.generateSegments b tableId recordIds segmentIndex concurrency with
        | Normal data =>
            (totalSuccess + Api.success_count data, totalFailed + Api.failed_count data)
        | Throw _ => (totalSuccess, totalFailed + length recordIds)
        end in
      let '(effects, totals) :=
        generate_groups b state segmentGroups rest totalSuccess' totalFailed' in
      (Dispatch (GENERATE_SEGMENT_START segmentIndex)
       :: Call (Api.GenerateSegments tableId recordIds segmentIndex concurrency)
       :: effects,
       totals)
  end.

(** [segmentIndices.map(i => `段${i}×${segmentGroups[i].length}`).join(' + ')] *)
Fixpoint summary (segmentGroups : gmap nat (list string)) (segmentIndices : list nat)
    : string :=
  match segmentIndices with
  | [] => ""
  | i :: rest =>
      let item := "段" +:+ pretty i +:+ "×"
                  +:+ pretty (length (default [] (segmentGroups !! i))) in
      match rest with
      | [] => item
      | _ => item +:+ " + " +:+ summary segmentGroups rest
      end
  end.

(** The body of [handleBatchEditConfirm] is one [try] block; the save of
    the modified prompts is the only call in it whose exception reaches
    the outer [catch] (each generation call has a [catch] of its own). *)
Definition handleBatchEditConfirm (b : Api.backend) (state : PageState)
    (edits : list Edit.t) : list effect * Confirm.outcome :=
  let tableId := Feishu.tableId (Page.feishuConfig state) in
  let modifiedEdits := List.filter Edit.isModified edits in
  let items := save_item <$> modifiedEdits in
  let saveCall :=
    if (0 <? length modifiedEdits)%nat
    then [Call (Api.BatchSavePrompts tableId items)] else [] in
  let saved :=
    if (0 <? length modifiedEdits)%nat
    then Api.batchSavePrompts b tableId items
    else mret {| Api.success_count := 0; Api.failed_count := 0 |} in
  match saved with
  | Normal _ =>
      let segmentGroups := edit_groups edits in
      let segmentIndices := sorted_keys segmentGroups in
      let '(effects, (totalSuccess, totalFailed)) :=
        generate_groups b state segmentGroups segmentIndices 0 0 in
      let text := summary segmentGroups segmentIndices in
      ((saveCall ++ effects ++
        [Dispatch (GENERATE_SEGMENT_SUCCESS totalSuccess totalFailed);
         if (totalFailed =? 0)%nat then
           Toast ("推进完成 (" +:+ text +:+ ")：成功 " +:+ pretty totalSuccess) toast_success
         else if (totalSuccess =? 0)%nat then
           Toast ("推进完成 (" +:+ text +:+ ")：全部失败 (" +:+ pretty totalFailed +:+ "个)")
                 toast_error
         else
           Toast ("推进完成 (" +:+ text +:+ ")：成功 " +:+ pretty totalSuccess
                  +:+ "，失败 " +:+ pretty totalFailed) toast_warning;
         LoadTasks])%list,
       {| Confirm.success := (totalFailed =? 0)%nat;
          Confirm.successCount := totalSuccess;
          Confirm.failedCount := totalFailed;
          Confirm.error := None |})
  | Throw e =>
      ((saveCall ++ [Toast (message_of e) toast_error])%list,
       {| Confirm.success := false;
          Confirm.successCount := 0;
          Confirm.failedCount := length edits;
          Confirm.error := Some (message_of e) |})
  end.


(** The actions that a trace dispatches, in order, and the page state
    after them. *)
Definition dispatched (effects : list effect) : list PageAction :=
  omap (fun e => match e with Dispatch a => Some a | _ => None end) effects.

Definition run (state : PageState) (effects : list effect) : PageState :=
  foldl pageReducer state (dispatched effects).

(** The requests of a trace, in the order they were sent. *)
Definition calls (effects : list effect) : list Api.request :=
  omap (fun e => match e with Call r => Some r | _ => None end) effects.

(** ** The archive manager behind [/api/batch/cascade-redo] *)

Module Archive.

(** Modelled from the spec: the data model of section 3 (ProductionUnit,
    SegmentSpec, SegmentResult, Lock, ArchiveEntry); the backend that holds
    it is not part of the front-end sources. *)
Inductive UnitStatus :=
| pending
| scriptGenerating
| scriptReady
| generatingSegment (k : nat)
| allSegmentsReady
| assembling
| completed
| failed
| inputMissing.

Inductive ResultStatus := r_pending | r_generating | r_completed | r_failed.

Record SegmentSpec := {
  spec_index : nat;
  content : string;
  duration : nat;
}.

Record SegmentResult := {
  index : nat;
  status : ResultStatus;
  artifactRef : option string;
  firstFrameRef : option string;
  lastFrameRef : option string;
  updatedAt : nat;
}.

Record ProductionUnit := {
  id : string;
  externalRef : string;
  openingImageRef : option string;
  totalSegments : nat;
  unit_status : UnitStatus;
  errorMessage : option string;
  createdAt : nat;
  unit_updatedAt : nat;
  specs : list SegmentSpec;
  results : gmap nat SegmentResult;
}.

Record Lock := {
  unitId : string;
  operation : string;
  acquiredAt : nat;
  expiresAt : nat;
}.

Record ArchiveEntry := {
  entry_unitId : string;
  segmentIndex : nat;
  snapshot : SegmentResult;
  archivedAt : nat;
}.

(** Modelled from the spec: the authoritative state that one cascade redo
    can touch: the unit, the lock of the unit, and the append-only
    archive. *)
Record store := {
  unit : ProductionUnit;
  lock : option Lock;
  archive : list ArchiveEntry;
}.

Inductive failure :=
| ConflictError (holder : string)
| PersistenceError.

Inductive outcome :=
| Done (after : store) (archived : list ArchiveEntry) (cleared : list nat)
| Aborted (why : failure) (after : store).

Definition is_completed (r : SegmentResult) : bool :=
  match status r with r_completed => true | _ => false end.

Definition completed_at (results : gmap nat SegmentResult) (k : nat) : bool :=
  from_option is_completed false (results !! k).

(** Modelled from the spec: the derivation rule of section 4.1, "if
    c == totalSegments, status = allSegmentsReady, otherwise scriptReady". *)
Definition derive_status (totalSegments : nat) (results : gmap nat SegmentResult)
    : UnitStatus :=
  if (size (filter (fun kr => is_completed kr.2 = true) results) =? totalSegments)%nat
  then allSegmentsReady else scriptReady.

(** Modelled from the spec: "every segment index >= fromIndex currently
    completed", in ascending order. *)
Definition affected (u : ProductionUnit) (fromIndex : nat) : list nat :=
  List.filter (fun k => (fromIndex <=? k)%nat && completed_at (results u) k)
              (merge_sort Nat.le (fst <$> map_to_list (results u))).

(** Modelled from the spec: "an ArchiveEntry snapshot of its
    SegmentResult". *)
Definition entries_for (u : ProductionUnit) (now : nat) (indices : list nat)
    : list ArchiveEntry :=
  omap (fun k =>
          (fun r => {| entry_unitId := id u; segmentIndex := k;
                       snapshot := r; archivedAt := now |}) <$> results u !! k)
       indices.

(** Modelled from the spec: the archive writes, in order; [write_ok] tells
    which writes the store accepts (a refused write is the injected fault
    of the cascade atomicity property).  [None] as soon as a write fails. *)
Fixpoint write_all (write_ok : ArchiveEntry -> bool) (entries : list ArchiveEntry)
    : option (list ArchiveEntry) :=
  match entries with
  | [] => Some []
  | entry :: rest =>
      if write_ok entry then cons entry <$> write_all write_ok rest else None
  end.

(** Modelled from the spec: "clear those SegmentResults to pending
    (removing artifact references)". *)
Definition cleared_result (now : nat) (r : SegmentResult) : SegmentResult :=
  {| index := index r;
     status := r_pending;
     artifactRef := None;
     firstFrameRef := None;
     lastFrameRef := None;
     updatedAt := now |}.

Definition clear_results (now : nat) (indices : list nat)
    (results : gmap nat SegmentResult) : gmap nat SegmentResult :=
  foldl (fun m k => alter (cleared_result now) k m) results indices.

(** Modelled from the spec: "if alsoResetScript, clear the corresponding
    SegmentSpec content for the same range". *)
Definition reset_specs (fromIndex : nat) (specs : list SegmentSpec) : list SegmentSpec :=
  (fun s => if (fromIndex <=? spec_index s)%nat
            then {| spec_index := spec_index s; content := ""; duration := duration s |}
            else s) <$> specs.

(** Modelled from the spec: a lock is live until it expires; an expired
    lock is reclaimed by the next acquirer. *)
Definition live (now : nat) (l : Lock) : bool := (now <? expiresAt l)%nat.

Definition holder (now : nat) (s : store) : option string :=
  match lock s with
  | Some l => if live now l then Some (operation l) else None
  | None => None
  end.

(** Modelled from the spec: [cascadeRedo(unitId, fromIndex,
    alsoResetScript)] of section 4.5: acquire the lock (without waiting);
    archive every completed result from [fromIndex] on, aborting with all
    state unchanged if a write fails; clear those results; optionally
    reset the script of the range; recompute the status; release the lock;
    return the archived references and the cleared indices. *)
Definition cascadeRedo (write_ok : ArchiveEntry -> bool) (now : nat) (s : store)
    (fromIndex : nat) (alsoResetScript : bool) : outcome :=
  match holder now s with
  | Some operation => Aborted (ConflictError operation) s
  | None =>
      let u := unit s in
      let indices := affected u fromIndex in
      match write_all write_ok (entries_for u now indices) with
      | None => Aborted PersistenceError s
      | Some written =>
          let results' := clear_results now indices (results u) in
          Done
            {| unit :=
                 {| id := id u;
                    externalRef := externalRef u;
                    openingImageRef := openingImageRef u;
                    totalSegments := totalSegments u;
                    unit_status := derive_status (totalSegments u) results';
                    errorMessage := errorMessage u;
                    createdAt := createdAt u;
                    unit_updatedAt := now;
                    specs := if alsoResetScript
                             then reset_specs fromIndex (specs u) else specs u;
                    results := results' |};
               lock := None;
               archive := (archive s ++ written)%list |}
            written indices
      end
  end.

End Archive.

(** ** Vocabulary of the scheduling properties *)

(** Segment [i] of the list is completed, or is there and is not. *)
Definition completed_at (segs : list Raw.segment) (i : nat) : Prop :=
  exists seg, segs !! i = Some seg /\ Raw.status seg = VStr "completed".

Definition incomplete_at (segs : list Raw.segment) (i : nat) : Prop :=
  exists seg, segs !! i = Some seg /\ Raw.status seg <> VStr "completed".

Definition has_opening_image (task : BatchTask) : Prop :=
  exists url, Task.openingImageUrl task = Some url /\ url <> "".

(** The dependency of segment [i]: the opening image for the first
    segment, the completed predecessor for the others. *)
Definition dependency (task : BatchTask) (segs : list Raw.segment) (i : nat) : Prop :=
  match i with
  | 0 => has_opening_image task
  | S k => completed_at segs k
  end.

Definition first_such (P : nat -> Prop) (i : nat) : Prop :=
  P i /\ forall j, j < i -> ~ P j.

(** A task that the scheduler looks at: it has a storyboard and is
    neither in flight nor completed. *)
Definition schedulable (task : BatchTask) : bool :=
  text_truthy (Task.storyboardJson task)
  && negb (in_flight (Task.status task))
  && negb (String.eqb (Task.status task) "completed").

(** The three input shapes named in the header comment of
    [parseStoryboardSegments], written down directly. *)
Definition parse_shapes (storyboardJson : option text) : list value :=
  match storyboardJson with
  | Some (Json (VObj props)) =>
      match assoc "storyboards" props with
      | Some (VArr l) => l
      | _ =>
          match assoc "segments" props with
          | Some (VArr l) => l
          | _ => []
          end
      end
  | Some (Json (VArr l)) => l
  | _ => []
  end.

(** In flight, in the words of the specification: the script is being
    generated, the unit is being assembled, or some segment is being
    generated. *)
Definition transient (status : string) : Prop :=
  status = "storyboard_generating"
  \/ status = "merging"
  \/ exists k, status = "generating_segment_" +:+ k.

(** The last frame of segment [k] as the storyboard text records it. *)
Definition storyboard_last_frame (task : BatchTask) (k : nat) : value :=
  let entry := default VUndefined
                 (parseStoryboardSegments (Task.storyboardJson task) !! k) in
  or_else (get_opt entry "lastFrameUrl") (get_opt entry "last_frame_url").

(** The task of a test scenario: only the fields that the helpers read
    vary. *)
Definition make_task (id : string) (openingImageUrl : option string)
    (storyboardJson : option text) (segments : list BatchSegment) (status : string)
    : BatchTask :=
  {| Task.id := id;
     Task.actorId := None;
     Task.projectId := None;
     Task.openingImageUrl := openingImageUrl;
     Task.sceneDescription := None;
     Task.templateId := None;
     Task.segmentCount := length segments;
     Task.storyboardJson := storyboardJson;
     Task.segments := segments;
     Task.finalVideoUrl := None;
     Task.status := status;
     Task.errorMessage := None;
     Task.progress := "";
     Task.updatedAt := None;
     Task.publishDate := None |}.

Definition make_segment (status : SegmentStatus) (lastFrameUrl : option string)
    : BatchSegment :=
  {| Segment.videoUrl := None;
     Segment.lastFrameUrl := lastFrameUrl;
     Segment.status := status |}.

(** Scenario A: three segments, the first two completed, the third
    pending, the opening image present. *)
Definition scenario_A : BatchTask :=
  make_task "recA" (Some "/storage/recA/opening.jpg")
    (Some (Json (VArr [VObj [("crucial", VStr "intro")];
                       VObj [("crucial", VStr "eating")];
                       VObj [("crucial", VStr "outro")]])))
    [make_segment completed (Some "/storage/recA/frames/segment_0_last.jpg");
     make_segment completed (Some "/storage/recA/frames/segment_1_last.jpg");
     make_segment pending None]
    "storyboard_ready".

(** The page state that a handler sees when only [tasks] are listed and
    nothing is selected. *)
Definition with_selection (tasks : list BatchTask) (selectedRecordIds : list string)
    (state : PageState) : PageState :=
  with_tasks tasks
    (with_ui (Page.selectedTaskId state) selectedRecordIds (Page.statusFilter state)
       (Page.showDetail state) (Page.sidebarCollapsed state)
       (Page.showBatchEditModal state) (Page.queueOpen state) (Page.settings state)
       state).

(** The record ids that a trace submits to script generation, and to
    assembly. *)
Definition storyboard_submissions (effects : list effect) : list (list string) :=
  omap (fun r => match r with
                 | Api.GenerateStoryboards _ recordIds _ => Some recordIds
                 | _ => None
                 end) (calls effects).

Definition merge_submissions (effects : list effect) : list (list string) :=
  omap (fun r => match r with
                 | Api.MergeVideos _ recordIds => Some recordIds
                 | _ => None
                 end) (calls effects).

(** The classes of reducer actions: the failure of an operation with its
    message, the start of an operation, its success. *)
Definition failure_payload (action : PageAction) : option string :=
  match action with
  | CONNECT_FAILURE payload
  | LOAD_TASKS_FAILURE payload
  | GENERATE_STORYBOARD_FAILURE payload
  | GENERATE_SEGMENT_FAILURE payload
  | MERGE_FAILURE payload
  | SYNC_FAILURE payload
  | UPLOAD_TO_DRIVE_FAILURE payload => Some payload
  | _ => None
  end.

Definition is_start (action : PageAction) : bool :=
  match action with
  | CONNECT_START
  | LOAD_TASKS_START
  | GENERATE_STORYBOARD_START
  | GENERATE_SEGMENT_START _
  | MERGE_START
  | SYNC_START
  | UPLOAD_TO_DRIVE_START => true
  | _ => false
  end.

Definition is_success (action : PageAction) : bool :=
  match action with
  | CONNECT_SUCCESS _ _ _
  | LOAD_TASKS_SUCCESS _
  | GENERATE_STORYBOARD_SUCCESS _ _
  | GENERATE_SEGMENT_SUCCESS _ _
  | MERGE_SUCCESS _ _
  | SYNC_SUCCESS
  | UPLOAD_TO_DRIVE_SUCCESS _ _ _ => true
  | _ => false
  end.

(** An action that clears the recorded message. *)
Definition clears (action : PageAction) : bool :=
  is_start action || match action with CLEAR_ERROR => true | _ => false end.

(** ** Vocabulary of the batch fan-out *)

(** The units of a batch of edits that ask for segment [k], in the order
    of the edits. *)
Definition group_ids (edits : list Edit.t) (k : nat) : list string :=
  Edit.taskId <$> List.filter (fun e => (Edit.segmentIndex e =? k)%nat) edits.

(** The generation requests of a trace: segment index and record ids. *)
Definition generation_calls (effects : list effect) : list (nat * list string) :=
  omap (fun r => match r with
                 | Api.GenerateSegments _ recordIds segmentIndex _ =>
                     Some (segmentIndex, recordIds)
                 | _ => None
                 end) (calls effects).

(** What one group adds to the totals: the counts that the backend
    reports, or all of its units as failed when the call raises. *)
Definition group_counts (b : Api.backend) (state : PageState) (k : nat)
    (recordIds : list string) : nat * nat :=
  match Api.generateSegments b (Feishu.tableId (Page.feishuConfig state)) recordIds k
          (Settings.videoConcurrency (Page.settings state)) with
  | Normal data => (Api.success_count data, Api.failed_count data)
  | Throw _ => (0, length recordIds)
  end.

(** The fan-out of a confirmed batch, as the specification has it: one
    generation call per segment index of the batch, in ascending order,
    each with the units of its group, whatever the other calls did; the
    counts returned are the sums over the groups; success is reported
    exactly when nothing failed. *)
Definition fans_out (b : Api.backend) (state : PageState) (edits : list Edit.t)
    (result : list effect * Confirm.outcome) : Prop :=
  exists indices,
    StronglySorted Nat.lt indices
    /\ (forall k, k ∈ indices <-> exists e, e ∈ edits /\ Edit.segmentIndex e = k)
    /\ generation_calls result.1 = (fun k => (k, group_ids edits k)) <$> indices
    /\ Confirm.successCount result.2
       = sum_list ((fun k => (group_counts b state k (group_ids edits k)).1) <$> indices)
    /\ Confirm.failedCount result.2
       = sum_list ((fun k => (group_counts b state k (group_ids edits k)).2) <$> indices)
    /\ (Confirm.success result.2 = true <-> Confirm.failedCount result.2 = 0).

(** The saving of the modified prompts, which precedes the fan-out. *)
Definition save_result (b : Api.backend) (state : PageState) (edits : list Edit.t)
    : result Api.counts :=
  Api.batchSavePrompts b (Feishu.tableId (Page.feishuConfig state))
    (save_item <$> List.filter Edit.isModified edits).

Definition save_raises (b : Api.backend) (state : PageState) (edits : list Edit.t)
    (e : exn) : Prop :=
  List.filter Edit.isModified edits <> [] /\ save_result b state edits = Throw e.

(** A backend that refuses to save prompts and would generate anything. *)
Definition backend_without_save : Api.backend :=
  {| Api.generate_storyboards := fun _ ids _ =>
       Normal (Api.Ok {| Api.success_count := length ids; Api.failed_count := 0 |});
     Api.generate_segments := fun _ ids _ _ =>
       Normal (Api.Ok {| Api.success_count := length ids; Api.failed_count := 0 |});
     Api.merge_videos := fun _ ids =>
       Normal (Api.Ok {| Api.success_count := length ids; Api.failed_count := 0 |});
     Api.batch_save_prompts := fun _ _ => Normal (Api.NotOk (Some "disk full"));
     Api.cascade_redo := fun _ => Normal (Api.NotOk None) |}.

(** A backend whose generation of segment 1 fails at the transport level,
    and which reports one failed unit for every other segment. *)
Definition backend_failing_segment_1 : Api.backend :=
  {| Api.generate_storyboards := fun _ ids _ =>
       Normal (Api.Ok {| Api.success_count := length ids; Api.failed_count := 0 |});
     Api.generate_segments := fun _ ids k _ =>
       if (k =? 1)%nat then Normal (Api.NotOk (Some "provider timeout"))
       else Normal (Api.Ok {| Api.success_count := length ids - 1;
                              Api.failed_count := 1 |});
     Api.merge_videos := fun _ ids =>
       Normal (Api.Ok {| Api.success_count := length ids; Api.failed_count := 0 |});
     Api.batch_save_prompts := fun _ items =>
       Normal (Api.Ok {| Api.success_count := length items; Api.failed_count := 0 |});
     Api.cascade_redo := fun _ => Normal (Api.NotOk None) |}.

Definition make_edit (taskId : string) (segmentIndex : nat) (isModified : bool) : Edit.t :=
  {| Edit.taskId := taskId;
     Edit.projectId := "project-" +:+ taskId;
     Edit.segmentIndex := segmentIndex;
     Edit.edited :=
       {| Edit.crucial := "a cat looks at the bowl";
          Edit.action := "eats";
          Edit.sound := "crunch";
          Edit.negative_constraint := "";
          Edit.crucial_zh := None;
          Edit.action_zh := None;
          Edit.sound_zh := None;
          Edit.negative_constraint_zh := None |};
     Edit.isModified := isModified |}.

(** A batch of three units: two at segment 2, one (edited) at segment 1. *)
Definition batch_of_three : list Edit.t :=
  [make_edit "recA" 2 false; make_edit "recB" 1 true; make_edit "recC" 2 false].

(** ** Vocabulary of the cascade redo *)





(** Further tasks of the test scenarios: one whose segment 2 is being
    generated, one ready for assembly, one waiting for its script. *)
Definition task_generating : BatchTask :=
  make_task "recB" (Some "/storage/recB/opening.jpg")
    (Task.storyboardJson scenario_A)
    [make_segment completed (Some "/storage/recB/frames/segment_0_last.jpg");
     make_segment completed (Some "/storage/recB/frames/segment_1_last.jpg");
     make_segment generating None]
    "generating_segment_2".

Definition task_ready : BatchTask :=
  make_task "recR" (Some "/storage/recR/opening.jpg")
    (Task.storyboardJson scenario_A)
    [make_segment completed (Some "/storage/recR/frames/segment_0_last.jpg");
     make_segment completed (Some "/storage/recR/frames/segment_1_last.jpg");
     make_segment completed (Some "/storage/recR/frames/segment_2_last.jpg")]
    "all_segments_ready".

Definition task_new : BatchTask :=
  make_task "recN" (Some "/storage/recN/opening.jpg") None [] "pending".

Definition task_without_image : BatchTask :=
  make_task "recM" None None [] "pending".

Definition page_of (tasks : list BatchTask) (selectedRecordIds : list string) : PageState :=
  with_selection tasks selectedRecordIds INITIAL_STATE.

(** A task that carries no segments of its own and whose storyboard array
    has a null entry after its first segment. *)
Definition task_null_entry : BatchTask :=
  make_task "recZ" (Some "/storage/recZ/opening.jpg")
    (Some (Json (VArr [VObj [("crucial", VStr "intro")]; VNull])))
    [] "storyboard_ready".

(** The status that the storyboard text gives for segment [i]. *)
Definition storyboard_incomplete_at (task : BatchTask) (i : nat) : Prop :=
  exists entry,
    parseStoryboardSegments (Task.storyboardJson task) !! i = Some entry
    /\ get_opt entry "status" <> VStr "completed".

(** ** lib/batchUtils.ts: statistics and summaries *)

(** [s.includes(needle)] *)
Fixpoint includes (needle s : string) : bool :=
  String.prefix needle s
  || match s with
     | EmptyString => false
     | String _ rest => includes needle rest
     end.

(** [separator] between the elements: [Array.prototype.join] on strings. *)
Fixpoint join (separator : string) (l : list string) : string :=
  match l with
  | [] => ""
  | x :: rest =>
      match rest with
      | [] => x
      | _ => x +:+ separator +:+ join separator rest
      end
  end.

Module Stats.
Record BatchStats := {
  total : nat;
  completed : nat;
  inProgress : nat;
  failed : nat;
}.
End Stats.
Abbreviation BatchStats := Stats.BatchStats.

(** The three predicates of [calculateStats]. *)
Definition counts_completed (t : BatchTask) : bool :=
  String.eqb (Task.status t) "completed".

Definition counts_inProgress (t : BatchTask) : bool :=
  includes "generating" (Task.status t)
  || String.eqb (Task.status t) "storyboard_generating"
  || String.eqb (Task.status t) "merging".

Definition counts_failed (t : BatchTask) : bool :=
  String.eqb (Task.status t) "failed" || String.eqb (Task.status t) "image_failed".

Definition calculateStats (tasks : list BatchTask) : BatchStats :=
  {| Stats.total := length tasks;
     Stats.completed := length (List.filter counts_completed tasks);
     Stats.inProgress := length (List.filter counts_inProgress tasks);
     Stats.failed := length (List.filter counts_failed tasks) |}.

(** The values of the type [BatchTaskStatus]. *)
Definition BatchTaskStatus_values : list string :=
  ["pending"; "storyboard_generating"; "storyboard_ready";
   "generating_segment_0"; "generating_segment_1"; "generating_segment_2";
   "generating_segment_3"; "generating_segment_4"; "generating_segment_5";
   "generating_segment_6"; "all_segments_ready"; "merging"; "completed";
   "failed"; "image_failed"].

Definition formatSegmentSummary (segmentGroups : gmap nat (list string)) : string :=
  join " + "
    ((fun i => "段" +:+ pretty i +:+ "×"
               +:+ pretty (length (default [] (segmentGroups !! i))))
       <$> sorted_keys segmentGroups).

Definition filterTasksWithProject (tasks : list BatchTask) : list BatchTask :=
  List.filter (fun t => string_truthy (Task.projectId t)) tasks.

(** ** pages/BatchPage.tsx: derived values *)

(** [status !== 'idle' && status !== 'error'] *)
Definition isOperating (status : PageStatus) : bool :=
  match status with
  | idle | error => false
  | _ => true
  end.

(** [Object.values(segmentGroups).reduce((sum, ids) => sum + ids.length, 0)];
    the values of an object with integer keys come in ascending order of
    key. *)
Definition readyCount (segmentGroups : gmap nat (list string)) : nat :=
  foldl (fun sum ids => sum + length ids) 0
        ((fun k => default [] (segmentGroups !! k)) <$> sorted_keys segmentGroups).

(** [tasks.find(t => t.id === selectedTaskId) || null] *)
Definition selectedTask (state : PageState) : option BatchTask :=
  match Page.selectedTaskId state with
  | Some selected =>
      List.find (fun t => String.eqb (Task.id t) selected) (Page.tasks state)
  | None => None
  end.

Definition handleAdvanceNextStep (pendingSegments : list PendingSegmentInfo)
    : list effect :=
  if (length pendingSegments =? 0)%nat then
    [Toast "没有可以推进的任务（请先选择记录、生成分镜或等待上一段完成）" toast_info]
  else [Dispatch (SET_SHOW_BATCH_EDIT_MODAL true)].

(** ** Vocabulary of the statistics and of the advance button *)

(** The task has a next segment; it also has the storyboard entry of that
    segment. *)
Definition has_next (t : BatchTask) : bool :=
  match getNextSegmentIndex t with
  | Normal (Some _) => true
  | _ => false
  end.

Definition next_is (n : nat) (t : BatchTask) : bool :=
  match getNextSegmentIndex t with
  | Normal (Some m) => (m =? n)%nat
  | _ => false
  end.

Definition has_pending (t : BatchTask) : bool :=
  match getNextSegmentIndex t with
  | Normal (Some n) =>
      (n <? length (parseStoryboardSegments (Task.storyboardJson t)))%nat
  | _ => false
  end.

(** A task whose segment list is one entry longer than its storyboard
    text. *)
Definition task_short_storyboard : BatchTask :=
  make_task "recS" (Some "/storage/recS/opening.jpg")
    (Some (Json (VArr [VObj [("crucial", VStr "intro")];
                       VObj [("crucial", VStr "eating")]])))
    [make_segment completed (Some "/storage/recS/frames/segment_0_last.jpg");
     make_segment completed (Some "/storage/recS/frames/segment_1_last.jpg");
     make_segment pending None]
    "storyboard_ready".

(** ** Vocabulary of the page status *)

(** What the status and the error message of the page say together: the
    status [error] comes with a message, and an operation in progress with
    none. *)
Definition coherent (state : PageState) : Prop :=
  (Page.status state = error -> is_Some (Page.errorMessage state))
  /\ (isOperating (Page.status state) = true -> Page.errorMessage state = None).



(** ** components/batch/BatchPromptEditModal.tsx: the batch-edit modal *)

(** Calling a method that the value does not have. *)
Definition not_a_function : exn := TypeError "is not a function".

Module Modal.

Inductive ModalStatus := editing | saving | generating | completed.

(** The fields are typed [string]; they are filled from the pending
    segments, whose values come from the storyboard text, so they are kept
    as values. *)
Record EditState := {
  crucial : value;
  action : value;
  sound : value;
  negative_constraint : value;
  crucial_zh : value;
  action_zh : value;
  sound_zh : value;
  negative_constraint_zh : value;
  isModified : bool;
}.

(** The fields that the form edits. *)
Inductive field := f_crucial | f_action | f_sound | f_negative_constraint.

(** The state of the component: [status], [currentIndex], [editStates],
    [result] and [error]. *)
Record t := {
  status : ModalStatus;
  currentIndex : nat;
  editStates : gmap string EditState;
  result : option (nat * nat);
  error : option string;
}.

End Modal.

(** [`${ps.taskId}-${ps.segmentIndex}`] *)
Definition edit_key (ps : PendingSegmentInfo) : string :=
  Pending.taskId ps +:+ "-" +:+ pretty (Pending.segmentIndex ps).

(** [seg?.crucial || ''] and its siblings. *)
Definition initial_edit (ps : PendingSegmentInfo) : Modal.EditState :=
  let field (read : Prompt.fields -> value) :=
    or_else (match Pending.segment ps with Some seg => read seg | None => VUndefined end)
            (VStr "") in
  {| Modal.crucial := field Prompt.crucial;
     Modal.action := field Prompt.action;
     Modal.sound := field Prompt.sound;
     Modal.negative_constraint := field Prompt.negative_constraint;
     Modal.crucial_zh := field Prompt.crucial_zh;
     Modal.action_zh := field Prompt.action_zh;
     Modal.sound_zh := field Prompt.sound_zh;
     Modal.negative_constraint_zh := field Prompt.negative_constraint_zh;
     Modal.isModified := false |}.

Definition initialStates (pendingSegments : list PendingSegmentInfo)
    : gmap string Modal.EditState :=
  foldl (fun states ps => <[edit_key ps := initial_edit ps]> states) ∅ pendingSegments.

(** The effect on [isOpen] and [pendingSegments]. *)
Definition initialize (isOpen : bool) (pendingSegments : list PendingSegmentInfo)
    (modal : Modal.t) : Modal.t :=
  if isOpen && (0 <? length pendingSegments)%nat then
    {| Modal.status := Modal.editing;
       Modal.currentIndex := 0;
       Modal.editStates := initialStates pendingSegments;
       Modal.result := None;
       Modal.error := None |}
  else modal.

Definition with_currentIndex (i : nat) (modal : Modal.t) : Modal.t :=
  {| Modal.status := Modal.status modal;
     Modal.currentIndex := i;
     Modal.editStates := Modal.editStates modal;
     Modal.result := Modal.result modal;
     Modal.error := Modal.error modal |}.

Definition with_editStates (states : gmap string Modal.EditState) (modal : Modal.t)
    : Modal.t :=
  {| Modal.status := Modal.status modal;
     Modal.currentIndex := Modal.currentIndex modal;
     Modal.editStates := states;
     Modal.result := Modal.result modal;
     Modal.error := Modal.error modal |}.

(** [prev > 0 ? prev - 1 : prev] *)
Definition goToPrev (modal : Modal.t) : Modal.t :=
  let prev := Modal.currentIndex modal in
  with_currentIndex (if (0 <? prev)%nat then prev - 1 else prev) modal.

(** [prev < pendingSegments.length - 1 ? prev + 1 : prev] *)
Definition goToNext (pendingSegments : list PendingSegmentInfo) (modal : Modal.t)
    : Modal.t :=
  let prev := Modal.currentIndex modal in
  with_currentIndex
    (if (Z.of_nat prev <? Z.of_nat (length pendingSegments) - 1)%Z then prev + 1 else prev)
    modal.

(** [currentSegment ? `${currentSegment.taskId}-${currentSegment.segmentIndex}` : ''] *)
Definition currentKey (pendingSegments : list PendingSegmentInfo) (modal : Modal.t)
    : string :=
  match pendingSegments !! Modal.currentIndex modal with
  | Some currentSegment => edit_key currentSegment
  | None => ""
  end.

(** [{ ...prev[currentKey], [field]: value, isModified: true }]; the
    spread of an absent state contributes no property. *)
Definition changed (previous : option Modal.EditState) (field : Modal.field)
    (value : string) : Modal.EditState :=
  let read (get : Modal.EditState -> JS.value) :=
    match previous with Some state => get state | None => VUndefined end in
  let write (f : Modal.field) (get : Modal.EditState -> JS.value) :=
    match field, f with
    | Modal.f_crucial, Modal.f_crucial
    | Modal.f_action, Modal.f_action
    | Modal.f_sound, Modal.f_sound
    | Modal.f_negative_constraint, Modal.f_negative_constraint => VStr value
    | _, _ => read get
    end in
  {| Modal.crucial := write Modal.f_crucial Modal.crucial;
     Modal.action := write Modal.f_action Modal.action;
     Modal.sound := write Modal.f_sound Modal.sound;
     Modal.negative_constraint := write Modal.f_negative_constraint Modal.negative_constraint;
     Modal.crucial_zh := read Modal.crucial_zh;
     Modal.action_zh := read Modal.action_zh;
     Modal.sound_zh := read Modal.sound_zh;
     Modal.negative_constraint_zh := read Modal.negative_constraint_zh;
     Modal.isModified := true |}.

Definition handleFieldChange (pendingSegments : list PendingSegmentInfo)
    (field : Modal.field) (value : string) (modal : Modal.t) : Modal.t :=
  let currentKey := currentKey pendingSegments modal in
  if String.eqb currentKey "" then modal
  else
    with_editStates
      (<[currentKey := changed (Modal.editStates modal !! currentKey) field value]>
         (Modal.editStates modal))
      modal.

(** [Object.values(editStates).filter(s => s.isModified).length] *)
Definition modifiedCount (modal : Modal.t) : nat :=
  length (List.filter Modal.isModified (snd <$> map_to_list (Modal.editStates modal))).

(** The counting loop of [segmentStats]. *)
Definition segment_counts (pendingSegments : list PendingSegmentInfo) : gmap nat nat :=
  foldl (fun stats ps =>
           <[Pending.segmentIndex ps
              := default 0 (stats !! Pending.segmentIndex ps) + 1]> stats)
        ∅ pendingSegments.

(** [Number(a) - Number(b) <= 0] on the keys of two entries. *)
Definition key_le (a b : nat * nat) : Prop := a.1 <= b.1.

#[global] Instance key_le_dec : RelDecision key_le := fun a b => decide (a.1 <= b.1).

(** [Object.entries(stats).sort(([a], [b]) => Number(a) - Number(b))] *)
Definition sorted_entries (stats : gmap nat nat) : list (nat * nat) :=
  merge_sort key_le (map_to_list stats).

Definition segmentStats (pendingSegments : list PendingSegmentInfo) : string :=
  join " + " ((fun '(index, count) => "段" +:+ pretty index +:+ "×" +:+ pretty count)
                <$> sorted_entries (segment_counts pendingSegments)).

Section Confirmation.

(** [String.prototype.trim] *)
Variable trim : string -> string.

(** [v.trim()] *)
Definition call_trim (v : value) : result string :=
  match v with
  | VStr s => Normal (trim s)
  | VUndefined | VNull => Throw null_read
  | _ => Throw not_a_function
  end.

(** The element that [handleConfirm] builds for one pending segment;
    [state] is [editStates[key]]. *)
Definition edit_of (states : gmap string Modal.EditState) (ps : PendingSegmentInfo)
    : result Edit.t :=
  match states !! edit_key ps with
  | None => Throw null_read
  | Some state =>
      crucial ← call_trim (Modal.crucial state);
      action ← call_trim (Modal.action state);
      sound ← call_trim (Modal.sound state);
      negative_constraint ← call_trim (Modal.negative_constraint state);
      crucial_zh ← call_trim (Modal.crucial_zh state);
      action_zh ← call_trim (Modal.action_zh state);
      sound_zh ← call_trim (Modal.sound_zh state);
      negative_constraint_zh ← call_trim (Modal.negative_constraint_zh state);
      mret {| Edit.taskId := Pending.taskId ps;
              Edit.projectId := Pending.projectId ps;
              Edit.segmentIndex := Pending.segmentIndex ps;
              Edit.edited :=
                {| Edit.crucial := crucial;
                   Edit.action := action;
                   Edit.sound := sound;
                   Edit.negative_constraint := negative_constraint;
                   Edit.crucial_zh := Some crucial_zh;
                   Edit.action_zh := Some action_zh;
                   Edit.sound_zh := Some sound_zh;
                   Edit.negative_constraint_zh := Some negative_constraint_zh |};
              Edit.isModified := Modal.isModified state |}
  end.

(** [handleConfirm], with [onConfirm] the page's [handleBatchEditConfirm]:
    what the page does meanwhile, and the state of the modal when the
    promise settles. *)
Definition handleConfirm (b : Api.backend) (state : PageState)
    (pendingSegments : list PendingSegmentInfo) (modal : Modal.t)
    : list effect * Modal.t :=
  match mapM (edit_of (Modal.editStates modal)) pendingSegments with
  | Normal edits =>
      let '(effects, res) := handleBatchEditConfirm b state edits in
      (effects,
       {| Modal.status := Modal.completed;
          Modal.currentIndex := Modal.currentIndex modal;
          Modal.editStates := Modal.editStates modal;
          Modal.result := Some (Confirm.successCount res, Confirm.failedCount res);
          Modal.error :=
            if Confirm.success res then None
            else Some (if string_truthy (Confirm.error res)
                       then default "" (Confirm.error res) else "部分任务失败") |})
  | Throw err =>
      ([],
       {| Modal.status := Modal.completed;
          Modal.currentIndex := Modal.currentIndex modal;
          Modal.editStates := Modal.editStates modal;
          Modal.result := Modal.result modal;
          Modal.error := Some (message_of err) |})
  end.

(** What the page passes to the modal, and the state of the modal. *)
Record session := {
  isOpen : bool;
  pendingSegments : list PendingSegmentInfo;
  modal : Modal.t;
}.

(** What happens to a modal: the page opens or closes it, or passes new
    pending segments (each followed by the effect, when open); the user
    navigates, edits a field of the current segment, or confirms.  The
    controls exist only while the modal is open and editing. *)
Inductive event :=
| Opened
| Closed
| PendingChanged (pendingSegments : list PendingSegmentInfo)
| Prev
| Next
| Jump (idx : nat)
| Change (field : Modal.field) (value : string)
| Confirmed (b : Api.backend) (state : PageState).

Definition is_editing (s : session) : bool :=
  isOpen s && match Modal.status (modal s) with Modal.editing => true | _ => false end.

Definition step (s : session) (e : event) : session :=
  match e with
  | Opened =>
      if isOpen s then s
      else {| isOpen := true;
              pendingSegments := pendingSegments s;
              modal := initialize true (pendingSegments s) (modal s) |}
  | Closed =>
      {| isOpen := false; pendingSegments := pendingSegments s; modal := modal s |}
  | PendingChanged ps =>
      {| isOpen := isOpen s;
         pendingSegments := ps;
         modal := initialize (isOpen s) ps (modal s) |}
  | Prev =>
      if is_editing s
      then {| isOpen := isOpen s; pendingSegments := pendingSegments s;
              modal := goToPrev (modal s) |}
      else s
  | Next =>
      if is_editing s
      then {| isOpen := isOpen s; pendingSegments := pendingSegments s;
              modal := goToNext (pendingSegments s) (modal s) |}
      else s
  | Jump idx =>
      if is_editing s && (1 <? length (pendingSegments s))%nat
         && (idx <? length (pendingSegments s))%nat
      then {| isOpen := isOpen s; pendingSegments := pendingSegments s;
              modal := with_currentIndex idx (modal s) |}
      else s
  | Change field value =>
      if is_editing s && bool_decide (is_Some (pendingSegments s !! Modal.currentIndex (modal s)))
      then {| isOpen := isOpen s; pendingSegments := pendingSegments s;
              modal := handleFieldChange (pendingSegments s) field value (modal s) |}
      else s
  | Confirmed b state =>
      if is_editing s
      then {| isOpen := isOpen s; pendingSegments := pendingSegments s;
              modal := (handleConfirm b state (pendingSegments s) (modal s)).2 |}
      else s
  end.

End Confirmation.

(** The modal before it is first opened. *)
Definition closed_modal : session :=
  {| isOpen := false;
     pendingSegments := [];
     modal := {| Modal.status := Modal.editing;
                 Modal.currentIndex := 0;
                 Modal.editStates := ∅;
                 Modal.result := None;
                 Modal.error := None |} |}.

(** While the modal is open and has pending segments, the current index
    points at one of them and every one of them has its edit state. *)
Definition ready (s : session) : Prop :=
  isOpen s = true ->
  pendingSegments s <> [] ->
  Modal.currentIndex (modal s) < length (pendingSegments s)
  /\ forall ps, ps ∈ pendingSegments s -> is_Some (Modal.editStates (modal s) !! edit_key ps).

Definition is_string (v : value) : bool :=
  match v with VStr _ => true | _ => false end.

(** An edit state whose eight fields hold strings, as their type says. *)
Definition all_strings (state : Modal.EditState) : bool :=
  is_string (Modal.crucial state) && is_string (Modal.action state)
  && is_string (Modal.sound state) && is_string (Modal.negative_constraint state)
  && is_string (Modal.crucial_zh state) && is_string (Modal.action_zh state)
  && is_string (Modal.sound_zh state) && is_string (Modal.negative_constraint_zh state).

(** The task advances to segment [k]: [k] is its next segment and an entry
    of its storyboard text. *)
Definition advances (k : nat) (t : BatchTask) : bool := next_is k t && has_pending t.

(** The pending segments of a task list, or none when they cannot be
    computed. *)
Definition pending_segments (tasks : list BatchTask) (selectedRecordIds : list string)
    : list PendingSegmentInfo :=
  match calculatePendingSegments tasks selectedRecordIds with
  | Normal pendingSegments => pendingSegments
  | Throw _ => []
  end.

(** A task whose storyboard text gives a number where a prompt is
    expected. *)
Definition task_numeric_prompt : BatchTask :=
  make_task "recQ" (Some "/storage/recQ/opening.jpg")
    (Some (Json (VArr [VObj [("crucial", VNum 42%float)]])))
    [make_segment pending None]
    "storyboard_ready".

(** A task whose storyboard has just been written: two segments, none
    generated. *)
Definition task_fresh : BatchTask :=
  make_task "recF" (Some "/storage/recF/opening.jpg")
    (Some (Json (VObj [("storyboards",
                        VArr [VObj [("crucial", VStr "a cat sits"); ("action", VStr "sits")];
                              VObj [("crucial", VStr "a cat eats")]])])))
    [make_segment pending None; make_segment pending None]
    "storyboard_ready".

(** ** services/batchApiService.ts: the remaining service functions *)

Module Service.

(** What [fetch] makes of a request sent with the signal of an
    [AbortController]: it is aborted by the timeout, it fails otherwise, or
    it is answered. *)
Inductive fetched (A : Type) :=
| Aborted
| Failed (e : exn)
| Answered (res : Api.response A).
Arguments Aborted {A}.
Arguments Failed {A} e.
Arguments Answered {A} res.

(** A response that is not ok, for the functions that look beyond
    [detail]. *)
Record failure := {
  detail : option string;
  message : option string;
  http_status : nat;
}.

Inductive answer (A : Type) :=
| Ok (data : A)
| NotOk (body : failure).
Arguments Ok {A} data.
Arguments NotOk {A} body.

(** The JSON body of [/api/batch/connect-feishu]. *)
Record ConnectFeishuBody := {
  app_id : string;
  app_secret : string;
  table_id : string;
  app_token : option string;
  tenant_access_token : option string;
  body_drive_folder_token : option string;
}.

Record ConnectFeishuResult := {
  table_name : option string;
  record_count : option nat;
  drive_folder_token : option string;
}.

Record LoadTasksResult := {
  tasks : option (list BatchTask);
}.

Record SyncToDriveParams := {
  tableId : string;
  projectIds : list string;
  projectPublishDates : gmap string string;
  folderToken : string;
}.

Record SyncToDriveResult := {
  success : nat;
  total : nat;
  failed : nat;
}.

Record EditAndRegenerateParams := {
  edit_tableId : string;
  edit_recordId : string;
  edit_projectId : string;
  edit_segmentIndex : nat;
  edit_fields : Edit.fields;
}.

Record EditAndRegenerateResult := {
  edit_success : bool;
  accepted : option bool;
  video_url : option string;
  error : option string;
  prompt_sent : option string;
}.

Inductive request :=
| ConnectFeishu (body : ConnectFeishuBody)
| LoadTasksLocal (tableId : string)
| SyncTasks (tableId : string)
| SyncVideos (tableId : string)
| SyncToDrive (params : SyncToDriveParams)
| EditAndRegenerate (params : EditAndRegenerateParams).

Record backend := {
  connect_feishu : ConnectFeishuBody -> result (Api.response ConnectFeishuResult);
  tasks_local : string -> fetched LoadTasksResult;
  tasks_feishu : string -> fetched LoadTasksResult;
  sync_videos : string -> result (Api.response unit);
  sync_to_drive : SyncToDriveParams -> result (Api.response SyncToDriveResult);
  edit_and_regenerate : EditAndRegenerateParams -> result (answer EditAndRegenerateResult);
}.

(** [value || undefined] on an optional string. *)
Definition or_undefined (o : option string) : option string :=
  if string_truthy o then o else None.

Definition connect_body (c : FeishuConfig) : ConnectFeishuBody :=
  {| app_id := Feishu.appId c;
     app_secret := Feishu.appSecret c;
     table_id := Feishu.tableId c;
     app_token := or_undefined (Feishu.appToken c);
     tenant_access_token := or_undefined (Feishu.tenantAccessToken c);
     body_drive_folder_token := or_undefined (Feishu.driveFolderToken c) |}.

Definition connectFeishu (b : backend) (c : FeishuConfig) : result ConnectFeishuResult :=
  Api.unwrap "连接失败" (connect_feishu b (connect_body c)).

(** The [try] and [catch] around a guarded [fetch]: an abort is reported
    as a timeout, any other exception is raised again. *)
Definition guarded {A} (fallback timeout : string) (f : fetched A) : result A :=
  match f with
  | Aborted => Throw (Error timeout)
  | Failed e => Throw e
  | Answered res => Api.unwrap fallback (Normal res)
  end.

Definition loadTasks (b : backend) (tableId : string) : result LoadTasksResult :=
  guarded "加载任务失败" "请求超时，请检查网络连接或重试" (tasks_local b tableId).

Definition syncTasksFromFeishu (b : backend) (tableId : string) : result LoadTasksResult :=
  guarded "同步任务失败" "同步超时，请检查网络连接或重试" (tasks_feishu b tableId).


Definition syncToDrive (b : backend) (params : SyncToDriveParams)
    : result SyncToDriveResult :=
  Api.unwrap "同步到云空间失败" (sync_to_drive b params).

(** [errorData.detail || errorData.message || `HTTP ${res.status}`] *)
Definition failure_text (body : failure) : string :=
  if string_truthy (detail body) then default "" (detail body)
  else if string_truthy (message body) then default "" (message body)
  else "HTTP " +:+ pretty (http_status body).

(** A response that is not ok is returned as a failed result, not
    raised. *)
Definition editAndRegenerate (b : backend) (params : EditAndRegenerateParams)
    : result EditAndRegenerateResult :=
  res ← edit_and_regenerate b params;
  match res with
  | Ok data => mret data
  | NotOk body =>
      mret {| edit_success := false;
              accepted := None;
              video_url := None;
              error := Some (failure_text body);
              prompt_sent := None |}
  end.

End Service.

(** ** pages/BatchPage.tsx: the other handlers *)

(** What these handlers do, in order: an effect of the page, or a request
    of the service layer above. *)
Definition trace : Type := list (effect + Service.request).

Definition effects_of (t : trace) : list effect :=
  omap (fun x => match x with inl e => Some e | inr _ => None end) t.

Definition requests_of (t : trace) : list Service.request :=
  omap (fun x => match x with inl _ => None | inr r => Some r end) t.

(** The page state after a trace. *)
Definition after (state : PageState) (t : trace) : PageState := run state (effects_of t).

(** [lastTaskStatusRef]: the status and error message of each task at the
    last load. *)
Abbreviation statuses := (gmap string (string * option string)).

(** The [nextMap] of a load. *)
Definition remember (nextTasks : list BatchTask) : statuses :=
  foldl (fun nextMap t => <[Task.id t := (Task.status t, Task.errorMessage t)]> nextMap)
        ∅ nextTasks.

Definition has_toast (t : trace) : bool :=
  existsb (fun x => match x with inl (Toast _ _) => true | _ => false end) t.

(** The double quote, character 34. *)
Definition double_quote : string :=
  String (Ascii.Ascii false true false false false true false false) "".

Section Handlers.

(** [id.slice(-6)] *)
Variable last6 : string -> string.

(** [String.prototype.trim] *)
Variable trim : string -> string.

(** The toasts of one task in the loop of [loadTasks]. *)
Definition task_toasts (previous : statuses) (t : BatchTask) : trace :=
  match previous !! Task.id t with
  | None => []
  | Some (prev_status, _) =>
      ((if negb (String.eqb prev_status "failed") && String.eqb (Task.status t) "failed"
        then [inl (Toast ("任务 " +:+ last6 (Task.id t) +:+ " 失败："
                          +:+ (if string_truthy (Task.errorMessage t)
                               then default "" (Task.errorMessage t) else "未知错误"))
                         toast_error)]
        else [])
       ++ (if negb (String.eqb prev_status "completed")
              && String.eqb (Task.status t) "completed"
           then [inl (Toast ("任务 " +:+ last6 (Task.id t) +:+ " 已完成") toast_success)]
           else []))%list
  end.

(** [loadTasks]: its trace and the new content of [lastTaskStatusRef]. *)
Definition loadTasks (b : Service.backend) (state : PageState) (previous : statuses)
    : trace * statuses :=
  let feishuConfig := Page.feishuConfig state in
  if negb (Feishu.connected feishuConfig) then ([], previous)
  else
    match Service.loadTasks b (Feishu.tableId feishuConfig) with
    | Normal data =>
        let nextTasks := default [] (Service.tasks data) in
        ((inl (Dispatch LOAD_TASKS_START)
          :: inr (Service.LoadTasksLocal (Feishu.tableId feishuConfig))
          :: (nextTasks ≫= task_toasts previous)
          ++ [inl (Dispatch (LOAD_TASKS_SUCCESS nextTasks))])%list,
         remember nextTasks)
    | Throw e =>
        let errorMsg := message_of e in
        ((inl (Dispatch LOAD_TASKS_START)
          :: inr (Service.LoadTasksLocal (Feishu.tableId feishuConfig))
          :: (if includes "未连接" errorMsg || includes "未连接飞书表格" errorMsg
              then [inl (Dispatch DISCONNECT);
                    inl (Toast "连接已断开，请重新连接飞书表格" toast_error)]
              else [inl (Dispatch (LOAD_TASKS_FAILURE errorMsg));
                    inl (Toast errorMsg toast_error)]))%list,
         previous)
    end.

Definition syncTasksFromFeishu (b : Service.backend) (state : PageState)
    (previous : statuses) : trace * statuses :=
  let feishuConfig := Page.feishuConfig state in
  if negb (Feishu.connected feishuConfig) then ([], previous)
  else
    match Service.syncTasksFromFeishu b (Feishu.tableId feishuConfig) with
    | Normal data =>
        let nextTasks := default [] (Service.tasks data) in
        ([inl (Dispatch LOAD_TASKS_START);
          inr (Service.SyncTasks (Feishu.tableId feishuConfig));
          inl (Dispatch (LOAD_TASKS_SUCCESS nextTasks));
          inl (Toast ("已同步 " +:+ pretty (length nextTasks) +:+ " 条任务") toast_success)],
         remember nextTasks)
    | Throw e =>
        ([inl (Dispatch LOAD_TASKS_START);
          inr (Service.SyncTasks (Feishu.tableId feishuConfig));
          inl (Dispatch (LOAD_TASKS_FAILURE (message_of e)));
          inl (Toast (message_of e) toast_error)],
         previous)
    end.

Definition handleConnect (b : Service.backend) (state : PageState) : trace :=
  let feishuConfig := Page.feishuConfig state in
  inl (Dispatch CONNECT_START)
  :: inr (Service.ConnectFeishu (Service.connect_body feishuConfig))
  :: match Service.connectFeishu b feishuConfig with
     | Normal data =>
         [inl (Dispatch
                 (CONNECT_SUCCESS
                    (if string_truthy (Service.table_name data)
                     then default "" (Service.table_name data) else "未知表格")
                    (default 0 (Service.record_count data))
                    (Service.drive_folder_token data)));
          inl (Toast "飞书连接成功" toast_success)]
     | Throw e =>
         [inl (Dispatch (CONNECT_FAILURE (message_of e)));
          inl (Toast (message_of e) toast_error)]
     end.


(** The tasks that [handleSyncToDrive] uploads. *)
Definition tasksToSync (state : PageState) : list BatchTask :=
  let tasksWithProject := filterTasksWithProject (Page.tasks state) in
  if (0 <? length (Page.selectedRecordIds state))%nat
  then List.filter (fun t => bool_decide (Task.id t ∈ Page.selectedRecordIds state))
         tasksWithProject
  else tasksWithProject.

(** The [projectPublishDates] object of the request. *)
Definition publish_dates (tasksToSync : list BatchTask) : gmap string string :=
  foldl (fun projectPublishDates t =>
           if string_truthy (Task.projectId t) && string_truthy (Task.publishDate t)
           then <[default "" (Task.projectId t) := default "" (Task.publishDate t)]>
                  projectPublishDates
           else projectPublishDates)
        ∅ tasksToSync.

(** [tasksToSync.map(t => t.projectId).filter(Boolean)] *)
Definition project_ids (tasksToSync : list BatchTask) : list string :=
  default "" <$> List.filter string_truthy (Task.projectId <$> tasksToSync).

Definition handleSyncToDrive (b : Service.backend) (state : PageState) : trace :=
  let feishuConfig := Page.feishuConfig state in
  if negb (Feishu.connected feishuConfig) then [inl (Toast "请先连接飞书表格" toast_info)]
  else if (length (filterTasksWithProject (Page.tasks state)) =? 0)%nat
  then [inl (Toast "没有可同步的项目" toast_info)]
  else if (length (tasksToSync state) =? 0)%nat
  then [inl (Toast "选中的任务中没有可同步的项目" toast_info)]
  else
    let folderToken := Feishu.driveFolderToken feishuConfig in
    if negb (string_truthy folderToken)
    then [inl (Toast ("请先在飞书连接配置中填写" +:+ double_quote +:+ "云空间文件夹 Token"
                      +:+ double_quote) toast_info)]
    else
      let params :=
        {| Service.tableId := Feishu.tableId feishuConfig;
           Service.projectIds := project_ids (tasksToSync state);
           Service.projectPublishDates := publish_dates (tasksToSync state);
           Service.folderToken := trim (default "" folderToken) |} in
      inl (Dispatch UPLOAD_TO_DRIVE_START)
      :: inr (Service.SyncToDrive params)
      :: match Service.syncToDrive b params with
         | Normal result =>
             [inl (Dispatch (UPLOAD_TO_DRIVE_SUCCESS (Service.success result)
                               (Service.total result) (Service.failed result)));
              inl (Toast ("已同步 " +:+ pretty (Service.success result) +:+ "/"
                          +:+ pretty (Service.total result) +:+ " 个项目到云空间"
                          +:+ (if (0 <? Service.failed result)%nat
                               then "，" +:+ pretty (Service.failed result) +:+ " 个失败"
                               else ""))
                         (if (0 <? Service.failed result)%nat
                          then toast_warning else toast_success))]
         | Throw e =>
             [inl (Dispatch (UPLOAD_TO_DRIVE_FAILURE (message_of e)));
              inl (Toast (message_of e) toast_error)]
         end.

End Handlers.

(** The value of [handlePromptEdit]. *)
Module PromptEdit.
Record outcome := {
  success : bool;
  submitted : option bool;
  videoUrl : option string;
  error : option string;
  promptSent : option string;
}.
End PromptEdit.

(** [task?.projectId || ''] for [task = tasks.find(t => t.id === taskId)] *)
Definition project_of (tasks : list BatchTask) (taskId : string) : string :=
  match List.find (fun t => String.eqb (Task.id t) taskId) tasks with
  | Some task =>
      if string_truthy (Task.projectId task) then default "" (Task.projectId task) else ""
  | None => ""
  end.

Definition handlePromptEdit (b : Service.backend) (state : PageState) (taskId : string)
    (segmentIndex : nat) (fields : Edit.fields) : trace * PromptEdit.outcome :=
  let projectId := project_of (Page.tasks state) taskId in
  if String.eqb projectId "" then
    ([],
     {| PromptEdit.success := false;
        PromptEdit.submitted := None;
        PromptEdit.videoUrl := None;
        PromptEdit.error := Some "项目 ID 不存在，请先生成分镜";
        PromptEdit.promptSent := None |})
  else
    let params :=
      {| Service.edit_tableId := Feishu.tableId (Page.feishuConfig state);
         Service.edit_recordId := taskId;
         Service.edit_projectId := projectId;
         Service.edit_segmentIndex := segmentIndex;
         Service.edit_fields := fields |} in
    match Service.editAndRegenerate b params with
    | Normal data =>
        if default false (Service.accepted data) then
          ([inr (Service.EditAndRegenerate params);
            inl LoadTasks;
            inl (Toast ("段" +:+ pretty segmentIndex +:+ " 已提交后台生成（可在列表查看进度）")
                       toast_info)],
           {| PromptEdit.success := false;
              PromptEdit.submitted := Some true;
              PromptEdit.videoUrl := None;
              PromptEdit.error := None;
              PromptEdit.promptSent := Service.prompt_sent data |})
        else
          ([inr (Service.EditAndRegenerate params);
            inl LoadTasks;
            inl (if Service.edit_success data
                 then Toast ("段" +:+ pretty segmentIndex +:+ " 重新生成成功") toast_success
                 else Toast (if string_truthy (Service.error data)
                             then default "" (Service.error data)
                             else "段" +:+ pretty segmentIndex +:+ " 生成失败")
                            toast_error)],
           {| PromptEdit.success := Service.edit_success data;
              PromptEdit.submitted := None;
              PromptEdit.videoUrl := Service.video_url data;
              PromptEdit.error := Service.error data;
              PromptEdit.promptSent := Service.prompt_sent data |})
    | Throw e =>
        ([inr (Service.EditAndRegenerate params)],
         {| PromptEdit.success := false;
            PromptEdit.submitted := None;
            PromptEdit.videoUrl := None;
            PromptEdit.error := Some (message_of e);
            PromptEdit.promptSent := None |})
    end.

(** ** Vocabulary of the other handlers *)

(** The toasts of a trace. *)
Definition toasts_of (t : trace) : list (string * ToastKind) :=
  omap (fun e => match e with Toast message kind => Some (message, kind) | _ => None end)
       (effects_of t).

(** The task has become failed, or completed, since the statuses were
    remembered. *)
Definition turned (previous : statuses) (t : BatchTask) : bool :=
  match previous !! Task.id t with
  | None => false
  | Some (prev_status, _) =>
      negb (String.eqb prev_status "failed") && String.eqb (Task.status t) "failed"
      || negb (String.eqb prev_status "completed") && String.eqb (Task.status t) "completed"
  end.


(** A local database that answers with the given tasks. *)
Definition backend_with_tasks (tasks : list BatchTask) : Service.backend :=
  {| Service.connect_feishu := fun _ =>
       Normal (Api.Ok {| Service.table_name := Some "Pets";
                         Service.record_count := Some (length tasks);
                         Service.drive_folder_token := None |});
     Service.tasks_local := fun _ =>
       Service.Answered (Api.Ok {| Service.tasks := Some tasks |});
     Service.tasks_feishu := fun _ => Service.Aborted;
     Service.sync_videos := fun _ => Normal (Api.Ok tt);
     Service.sync_to_drive := fun params =>
       Normal (Api.Ok {| Service.success := length (Service.projectIds params);
                         Service.total := length (Service.projectIds params);
                         Service.failed := 0 |});
     Service.edit_and_regenerate := fun _ =>
       Normal (Service.NotOk {| Service.detail := None;
                                Service.message := None;
                                Service.http_status := 502 |}) |}.

(** A backend that has lost its connection to the table. *)
Definition backend_not_connected : Service.backend :=
  {| Service.connect_feishu := fun _ => Normal (Api.NotOk (Some "凭证无效"));
     Service.tasks_local := fun _ =>
       Service.Answered (Api.NotOk (Some "未连接飞书表格，请先连接"));
     Service.tasks_feishu := fun _ => Service.Aborted;
     Service.sync_videos := fun _ => Normal (Api.NotOk None);
     Service.sync_to_drive := fun _ => Normal (Api.NotOk None);
     Service.edit_and_regenerate := fun _ => Throw (TypeError "Failed to fetch") |}.

(** The page once connected, with the given tasks and selection. *)
Definition connected_page (tasks : list BatchTask) (selectedRecordIds : list string)
    : PageState :=
  pageReducer (page_of tasks selectedRecordIds) (CONNECT_SUCCESS "Pets" (length tasks) None).

Definition with_project (projectId : string) (publishDate : option string) (t : BatchTask)
    : BatchTask :=
  {| Task.id := Task.id t;
     Task.actorId := Task.actorId t;
     Task.projectId := Some projectId;
     Task.openingImageUrl := Task.openingImageUrl t;
     Task.sceneDescription := Task.sceneDescription t;
     Task.templateId := Task.templateId t;
     Task.segmentCount := Task.segmentCount t;
     Task.storyboardJson := Task.storyboardJson t;
     Task.segments := Task.segments t;
     Task.finalVideoUrl := Task.finalVideoUrl t;
     Task.status := Task.status t;
     Task.errorMessage := Task.errorMessage t;
     Task.progress := Task.progress t;
     Task.updatedAt := Task.updatedAt t;
     Task.publishDate := publishDate |}.

Definition with_task_status (status : string) (errorMessage : option string) (t : BatchTask)
    : BatchTask :=
  {| Task.id := Task.id t;
     Task.actorId := Task.actorId t;
     Task.projectId := Task.projectId t;
     Task.openingImageUrl := Task.openingImageUrl t;
     Task.sceneDescription := Task.sceneDescription t;
     Task.templateId := Task.templateId t;
     Task.segmentCount := Task.segmentCount t;
     Task.storyboardJson := Task.storyboardJson t;
     Task.segments := Task.segments t;
     Task.finalVideoUrl := Task.finalVideoUrl t;
     Task.status := status;
     Task.errorMessage := errorMessage;
     Task.progress := Task.progress t;
     Task.updatedAt := Task.updatedAt t;
     Task.publishDate := Task.publishDate t |}.

(** ** components/batch: what the table and the detail panel compute *)

(** TaskDetail.tsx: the storyboards of the detail panel, [parsed] if it is
    an array, [parsed.storyboards] if that is one. *)
Definition detail_storyboards (storyboardJson : option text) : list value :=
  if negb (text_truthy storyboardJson) then []
  else
    try_catch
      (parsed ← from_option JSON_parse (Throw bad_json) storyboardJson;
       if isArray parsed then mret (items_of parsed)
       else if truthy parsed then
         storyboards ← get parsed "storyboards";
         if isArray storyboards then mret (items_of storyboards) else mret []
       else mret [])
      (fun _ => []).

(** BatchPage.tsx, the single-edit modal:
    [Array.isArray(parsed) ? parsed : (parsed.storyboards || [])] *)
Definition edit_storyboards (storyboardJson : option text) : value :=
  if negb (text_truthy storyboardJson) then VArr []
  else
    try_catch
      (parsed ← from_option JSON_parse (Throw bad_json) storyboardJson;
       if isArray parsed then mret parsed
       else
         storyboards ← get parsed "storyboards";
         mret (or_else storyboards (VArr [])))
      (fun _ => VArr []).

(** TaskTable.tsx: [filteredData] *)
Definition filteredData (tasks : list BatchTask) (statusFilter : string) : list BatchTask :=
  if String.eqb statusFilter "all" then tasks
  else List.filter (fun t => String.eqb (Task.status t) statusFilter) tasks.

Section Media.

(** [import.meta.env.VITE_API_BASE || 'http://localhost:8000'] *)
Variable API_BASE : string.

(** [Date.now()] *)
Variable now : N.

(** TaskTable.tsx: [resolveMediaUrl] *)
Definition table_resolveMediaUrl (url : option string) : option string :=
  if negb (string_truthy url) then None
  else
    let url := default "" url in
    if String.prefix "http://" url || String.prefix "https://" url then Some url
    else if String.prefix "/" url then Some (API_BASE +:+ url)
    else Some url.

(** TaskDetail.tsx: [resolveMediaUrl] *)
Definition detail_resolveMediaUrl (url : option string) (bustCache : bool)
    : option string :=
  if negb (string_truthy url) then None
  else
    let url := default "" url in
    let resolved := if String.prefix "/" url then API_BASE +:+ url else url in
    if bustCache && includes ".mp4" resolved then
      let separator := if includes "?" resolved then "&" else "?" in
      Some (resolved +:+ separator +:+ "_t=" +:+ pretty now)
    else Some resolved.

End Media.

(** A storyboard text of the third shape of [parseStoryboardSegments]. *)
Definition task_segments_shape : BatchTask :=
  make_task "recG" (Some "/storage/recG/opening.jpg")
    (Some (Json (VObj [("segments", VArr [VObj [("crucial", VStr "a dog runs")]])])))
    [] "storyboard_ready".

(** ** Vocabulary of the reducer's frames *)

(** The actions of the user interface: selection, filters, panels and
    settings. *)
Definition is_ui (action : PageAction) : bool :=
  match action with
  | SELECT_TASK _ | SET_SELECTED_RECORDS _ | SET_STATUS_FILTER _ | SET_SHOW_DETAIL _
  | SET_SIDEBAR_COLLAPSED _ | SET_SHOW_BATCH_EDIT_MODAL _ | SET_QUEUE_OPEN _
  | UPDATE_SETTINGS _ => true
  | _ => false
  end.

(** The part of the state that the operations work on, and the part that
    the user interface works on. *)
Definition operation_part (state : PageState)
    : PageStatus * option string * FeishuConfig * list BatchTask * nat :=
  (Page.status state, Page.errorMessage state, Page.feishuConfig state, Page.tasks state,
   Page.currentSegmentIndex state).

Definition ui_part (state : PageState)
    : option string * list string * string * bool * bool * bool * bool * BatchSettings :=
  (Page.selectedTaskId state, Page.selectedRecordIds state, Page.statusFilter state,
   Page.showDetail state, Page.sidebarCollapsed state, Page.showBatchEditModal state,
   Page.queueOpen state, Page.settings state).

(** * Properties *)

(** ** Storyboard parsing *)

Lemma truthy_and_isArray v : truthy v && isArray v = isArray v.
Proof. destruct v; cbn; rewrite ?andb_false_r; reflexivity. Qed.

(** C10. Storyboard parsing is total: on every input (absent, empty,
    malformed, or any parsed JSON value) [parseStoryboardSegments] returns
    a list without raising; the list is the embedded array for
    [{storyboards: [...]}] (taking precedence) or [{segments: [...]}], the
    array itself for a bare array, and empty otherwise. *)
Theorem parseStoryboardSegments_shapes :
  forall input, parseStoryboardSegments input = parse_shapes input.
Proof.
  intros [[| |v]|]; try reflexivity.
  destruct v as [| | | | |l|props]; try reflexivity.
  cbn. rewrite !truthy_and_isArray. unfold prop.
  destruct (assoc "storyboards" props) as [[]|]; cbn; try reflexivity;
    destruct (assoc "segments" props) as [[]|]; reflexivity.
Qed.

(** ** Next-segment selection *)

Lemma segment_status_completed seg :
  strict_eq_str (segment_status seg) "completed" = true
  <-> Raw.status seg = VStr "completed".
Proof.
  unfold segment_status, or_else. split.
  - destruct (truthy (Raw.status seg)) eqn:Ht; cbn; [|discriminate].
    destruct (Raw.status seg); cbn; try discriminate.
    intros ->%String.eqb_eq. reflexivity.
  - intros ->. reflexivity.
Qed.

Lemma string_truthy_spec task :
  string_truthy (Task.openingImageUrl task) = true <-> has_opening_image task.
Proof.
  unfold string_truthy, has_opening_image.
  destruct (Task.openingImageUrl task) as [url|]; split.
  - intros H. exists url. split; [reflexivity|].
    intros ->. discriminate.
  - intros (u & [= <-] & Hne). apply negb_true_iff, String.eqb_neq, Hne.
  - discriminate.
  - intros (u & [=] & _).
Qed.

(** The loop, started at index [length done] after a completed prefix
    [done]. *)
Lemma first_incomplete_spec task (segs : list Raw.segment) :
  forall (rest done : list Raw.segment),
    segs = (done ++ rest)%list ->
    (forall j, j < length done -> completed_at segs j) ->
    match first_incomplete task segs (length done) rest with
    | Some i => first_such (incomplete_at segs) i /\ dependency task segs i
    | None =>
        (forall i, ~ incomplete_at segs i)
        \/ (first_such (incomplete_at segs) 0 /\ ~ has_opening_image task)
    end.
Proof.
  induction rest as [|seg rest IH]; intros done Hsegs Hdone; cbn.
  - left. intros i (s & Hi & Hs).
    rewrite app_nil_r in Hsegs. subst done.
    destruct (Hdone i) as (s' & Hi' & Hs'); [by eapply lookup_lt_Some|].
    congruence.
  - assert (Hhere : segs !! length done = Some seg).
    { subst segs. rewrite lookup_app_r, Nat.sub_diag; [reflexivity|lia]. }
    destruct (strict_eq_str (segment_status seg) "completed") eqn:Hc; cbn.
    + apply segment_status_completed in Hc.
      specialize (IH (done ++ [seg])%list).
      rewrite length_app, Nat.add_1_r in IH. apply IH.
      * rewrite <- app_assoc. exact Hsegs.
      * intros j Hj. destruct (decide (j = length done)) as [->|Hne].
        -- exists seg. split; assumption.
        -- apply Hdone. lia.
    + assert (Hinc : first_such (incomplete_at segs) (length done)).
      { split.
        - exists seg. split; [assumption|].
          intros Heq. apply segment_status_completed in Heq. congruence.
        - intros j Hj (s & Hs & Hns).
          destruct (Hdone j Hj) as (s' & Hs' & Hc'). congruence. }
      destruct (length done) as [|k] eqn:Hlen; cbn.
      * destruct (string_truthy (Task.openingImageUrl task)) eqn:Ho.
        -- split; [assumption|]. apply string_truthy_spec, Ho.
        -- right. split; [assumption|].
           rewrite <- string_truthy_spec, Ho. discriminate.
      * rewrite Nat.sub_0_r.
        destruct (Hdone k) as (p & Hp & Hpc); [lia|].
        rewrite Hp. cbn. unfold or_else. rewrite Hpc. cbn.
        split; [assumption|]. exists p. split; assumption.
Qed.

Lemma first_such_unique (P : nat -> Prop) i j :
  first_such P i -> first_such P j -> i = j.
Proof.
  intros [Hi Hli] [Hj Hlj].
  destruct (lt_eq_lt_dec i j) as [[Hlt| ->]|Hlt]; [|reflexivity|].
  - destruct (Hlj i Hlt Hi).
  - destruct (Hli j Hlt Hj).
Qed.

Lemma getNextSegmentIndex_schedulable task segs :
  schedulable task = true ->
  segments_of task = Normal segs ->
  getNextSegmentIndex task = Normal (first_incomplete task segs 0 segs).
Proof.
  unfold schedulable, getNextSegmentIndex.
  intros [[-> ->%negb_true_iff]%andb_prop ->%negb_true_iff]%andb_prop ->.
  cbn. destruct segs; reflexivity.
Qed.

(** X21. Next-segment selection on a task whose segments can be read: for a
    task that has a storyboard and is neither in flight nor completed,
    with segment list [segs], the selected index is the first index whose
    status is not completed, provided its dependency holds (opening image
    for index 0, completed predecessor otherwise); it is then also the
    first index that is both incomplete and has its dependency; in every
    other case the result is null.  In particular an index [i > 0] is
    selected only when segment [i - 1] is completed. *)
Theorem getNextSegmentIndex_first_ready task segs :
  schedulable task = true ->
  segments_of task = Normal segs ->
  (exists r, getNextSegmentIndex task = Normal r)
  /\ (forall i, getNextSegmentIndex task = Normal (Some i)
                <-> first_such (incomplete_at segs) i /\ dependency task segs i)
  /\ (forall i, getNextSegmentIndex task = Normal (Some i) ->
                first_such (fun k => incomplete_at segs k /\ dependency task segs k) i)
  /\ (getNextSegmentIndex task = Normal None
      <-> ~ exists i, first_such (incomplete_at segs) i /\ dependency task segs i)
  /\ (forall i, getNextSegmentIndex task = Normal (Some (S i)) -> completed_at segs i).
Proof.
  intros Hs Hsegs.
  rewrite (getNextSegmentIndex_schedulable task segs Hs Hsegs).
  pose proof (first_incomplete_spec task segs segs [] eq_refl) as Hspec.
  cbn [length] in Hspec.
  specialize (Hspec ltac:(intros j Hj; lia)).
  assert (Hiff : forall i, first_incomplete task segs 0 segs = Some i
                           <-> first_such (incomplete_at segs) i /\ dependency task segs i).
  { intros i. split.
    - intros Heq. rewrite Heq in Hspec. exact Hspec.
    - intros [Hfirst Hdep].
      destruct (first_incomplete task segs 0 segs) as [i'|].
      + f_equal. destruct Hspec as [Hfirst' _].
        eapply first_such_unique; eassumption.
      + destruct Hspec as [Hnone|[Hzero Hno]].
        * destruct (Hnone i (proj1 Hfirst)).
        * assert (i = 0) as -> by (eapply first_such_unique; eassumption).
          destruct (Hno Hdep). }
  split; [|split; [|split; [|split]]].
  - eexists. reflexivity.
  - intros i. rewrite <- Hiff. split; [intros [= H]|intros ->]; congruence.
  - intros i [= H]. apply Hiff in H. destruct H as [[Hinc Hmin] Hdep].
    split; [split; assumption|].
    intros j Hj [Hj' _]. exact (Hmin j Hj Hj').
  - split.
    + intros [= H] (i & Hi). apply Hiff in Hi. congruence.
    + intros Hno. f_equal.
      destruct (first_incomplete task segs 0 segs) as [i|] eqn:Heq; [|reflexivity].
      destruct Hno. exists i. apply Hiff. reflexivity.
  - intros i [= H]. apply Hiff in H. apply H.
Qed.

(** The segment list can be read whenever the task carries its segments,
    and otherwise whenever no entry of the storyboard array is null. *)
Lemma mapM_Normal_lookup {A B} (f : A -> result B) (l : list A) (r : list B) :
  mapM f l = Normal r ->
  length r = length l
  /\ forall i y, r !! i = Some y -> exists x, l !! i = Some x /\ f x = Normal y.
Proof.
  revert r. induction l as [|x l IH]; intros r; cbn.
  - intros [= <-]. split; [reflexivity|]. intros i y Hi. discriminate.
  - destruct (f x) as [y|e] eqn:Hfx; cbn; [|discriminate].
    destruct (mapM f l) as [ys|e]; cbn; [|discriminate].
    intros [= <-]. destruct (IH ys eq_refl) as [Hlen Hlook].
    split; [cbn; congruence|].
    intros [|i] z; cbn.
    + intros [= <-]. exists x. split; [reflexivity|assumption].
    + apply Hlook.
Qed.

Lemma mapM_Normal_total {A B} (f : A -> result B) (l : list A) :
  Forall (fun x => exists y, f x = Normal y) l -> exists r, mapM f l = Normal r.
Proof.
  induction 1 as [|x l [y Hy] _ [r Hr]]; cbn.
  - eexists. reflexivity.
  - rewrite Hy. cbn. rewrite Hr. cbn. eexists. reflexivity.
Qed.

Lemma of_storyboard_entry_total seg :
  nullish seg = false -> exists s, of_storyboard_entry seg = Normal s.
Proof.
  intros Hn. unfold of_storyboard_entry, get, or_elseM. rewrite Hn. cbn.
  repeat (match goal with |- context [if ?b then _ else _] => destruct b end; cbn);
    eexists; reflexivity.
Qed.

Lemma of_storyboard_entry_null seg :
  nullish seg = true -> of_storyboard_entry seg = Throw null_read.
Proof. intros Hn. unfold of_storyboard_entry, get. rewrite Hn. reflexivity. Qed.

Lemma mapM_raises {A B} (f : A -> result B) (l : list A) :
  (exists e, mapM f l = Throw e) <-> Exists (fun x => exists e, f x = Throw e) l.
Proof.
  induction l as [|x l IH]; cbn.
  - split; [intros (e & [=])|intros H; inversion H].
  - rewrite Exists_cons, <- IH.
    destruct (f x) as [y|e]; cbn.
    + destruct (mapM f l) as [ys|e']; cbn; split.
      * intros (e & [=]).
      * intros [(e & [=])|(e & [=])].
      * intros (e & [= ->]). right. eauto.
      * intros _. eauto.
    + split; [intros _; left; eauto|intros _; eauto].
Qed.

Lemma of_storyboard_entry_raises seg :
  (exists e, of_storyboard_entry seg = Throw e) <-> nullish seg = true.
Proof.
  split.
  - intros (e & He). destruct (nullish seg) eqn:Hn; [reflexivity|].
    destruct (of_storyboard_entry_total seg Hn) as [s Hs]. congruence.
  - intros Hn. rewrite (of_storyboard_entry_null seg Hn). eauto.
Qed.

Lemma segments_of_raises task :
  (exists e, segments_of task = Throw e)
  <-> Task.segments task = []
      /\ Exists (fun seg => nullish seg = true)
                (parseStoryboardSegments (Task.storyboardJson task)).
Proof.
  unfold segments_of. destruct (Task.segments task) as [|s l]; cbn.
  - rewrite mapM_raises. split.
    + intros H. split; [reflexivity|].
      eapply Exists_impl; [exact H|]. intros seg. apply of_storyboard_entry_raises.
    + intros [_ H]. eapply Exists_impl; [exact H|].
      intros seg. apply of_storyboard_entry_raises.
  - split; [intros (e & [=])|intros [[=] _]].
Qed.

Lemma getNextSegmentIndex_raises task :
  (exists e, getNextSegmentIndex task = Throw e)
  <-> schedulable task = true
      /\ Task.segments task = []
      /\ Exists (fun seg => nullish seg = true)
                (parseStoryboardSegments (Task.storyboardJson task)).
Proof.
  rewrite <- segments_of_raises.
  unfold getNextSegmentIndex, schedulable.
  destruct (text_truthy (Task.storyboardJson task)); cbn;
    [|split; [intros (e & [=])|intros [[=] _]]].
  destruct (in_flight (Task.status task)); cbn;
    [split; [intros (e & [=])|intros [[=] _]]|].
  destruct (Task.status task =? "completed")%string; cbn;
    [split; [intros (e & [=])|intros [[=] _]]|].
  destruct (segments_of task) as [segs|e]; cbn.
  - split; [|intros [_ (e & [=])]].
    destruct (length segs =? 0)%nat; intros (e & [=]).
  - split; [intros _; split; [reflexivity|eauto]|intros _; eauto].
Qed.

(** Whenever the segments of a task can be read, its next segment is
    computed. *)
Lemma getNextSegmentIndex_returns task :
  (Task.segments task <> []
   \/ Forall (fun seg => nullish seg = false)
             (parseStoryboardSegments (Task.storyboardJson task))) ->
  exists r, getNextSegmentIndex task = Normal r.
Proof.
  intros Hread.
  destruct (getNextSegmentIndex task) as [r|e] eqn:Hr; [eauto|].
  assert (Hraise : exists e, getNextSegmentIndex task = Throw e) by eauto.
  apply getNextSegmentIndex_raises in Hraise as (_ & Hnil & Hex).
  destruct Hread as [Hne|Hall]; [contradiction|].
  apply Exists_exists in Hex as (seg & Hseg & Hnull).
  rewrite Forall_forall in Hall. rewrite (Hall seg Hseg) in Hnull. discriminate.
Qed.

(** C1. Next-segment selection is claimed to return, for every task that
    has a storyboard and is neither in flight nor completed, the first
    incomplete index whose dependency holds, and null otherwise.  On the
    task [task_null_entry] (no segments on the task, storyboard
    [[{crucial: intro}, null]], opening image present) the first
    incomplete index is 0 and its dependency holds, yet the selection
    raises a TypeError instead of returning 0.  The selection raises
    exactly for the schedulable tasks that carry no segments and whose
    storyboard array has a null entry. *)
Theorem getNextSegmentIndex_raises_on_null_entry :
  getNextSegmentIndex task_null_entry = Throw null_read
  /\ schedulable task_null_entry = true
  /\ first_such (storyboard_incomplete_at task_null_entry) 0
  /\ has_opening_image task_null_entry
  /\ forall task,
      (exists e, getNextSegmentIndex task = Throw e)
      <-> schedulable task = true
          /\ Task.segments task = []
          /\ Exists (fun seg => nullish seg = true)
                    (parseStoryboardSegments (Task.storyboardJson task)).
Proof.
  split; [reflexivity|]. split; [reflexivity|]. split; [|split].
  - split; [|intros j Hj; lia].
    eexists. split; [reflexivity|]. discriminate.
  - eexists. split; [reflexivity|]. discriminate.
  - apply getNextSegmentIndex_raises.
Qed.

Lemma getNextSegmentIndex_raises_on_null_entry_witness :
  exists e, getNextSegmentIndex task_null_entry = Throw e.
Proof.
  apply (proj2 (proj2 (proj2 (proj2 getNextSegmentIndex_raises_on_null_entry)))
           task_null_entry).
  split; [reflexivity|]. split; [reflexivity|].
  apply Exists_cons_tl, Exists_cons_hd. reflexivity.
Defined.


(** ** Input frames of the pending segments *)

Lemma pending_of_Some idx task p :
  pending_of idx task = Normal (Some p) ->
  getNextSegmentIndex task = Normal (Some (Pending.segmentIndex p))
  /\ Pending.taskIndex p = idx
  /\ Pending.taskId p = Task.id task
  /\ Pending.segmentIndex p
     < length (parseStoryboardSegments (Task.storyboardJson task))
  /\ Pending.inputFrameUrl p
     = (input_frame task (parseStoryboardSegments (Task.storyboardJson task))
                    (Pending.segmentIndex p)).1.
Proof.
  unfold pending_of.
  destruct (getNextSegmentIndex task) as [[n|]|e]; cbn; try discriminate.
  destruct (length _ <=? n)%nat eqn:Hlen; cbn; [discriminate|].
  apply Nat.leb_gt in Hlen.
  destruct (input_frame task _ n) as [url label] eqn:Hframe.
  intros [= <-]. cbn. rewrite Hframe. auto.
Qed.

Lemma calculatePendingSegments_elem tasks sel ps p :
  calculatePendingSegments tasks sel = Normal ps ->
  p ∈ ps ->
  exists task,
    tasksToProcess tasks sel !! Pending.taskIndex p = Some task
    /\ pending_of (Pending.taskIndex p) task = Normal (Some p).
Proof.
  unfold calculatePendingSegments.
  destruct (mapM _ _) as [contributions|e] eqn:Hm; cbn; [|discriminate].
  intros [= <-] Hp.
  apply list_elem_of_omap in Hp as (c & Hc & Hcp). cbn in Hcp. subst c.
  apply list_elem_of_lookup in Hc as [i Hi].
  destruct (mapM_Normal_lookup _ _ _ Hm) as [_ Hlook].
  destruct (Hlook i _ Hi) as ([idx task] & Hit & Hpend).
  rewrite list_lookup_imap in Hit.
  destruct (tasksToProcess tasks sel !! i) as [t|] eqn:Ht; cbn in Hit; [|discriminate].
  injection Hit as <- <-.
  destruct (pending_of_Some _ _ _ Hpend) as (_ & Hidx & _).
  rewrite Hidx. exists t. split; assumption.
Qed.

Lemma or_else_truthy a b : truthy a = true -> or_else a b = a.
Proof. unfold or_else. intros ->. reflexivity. Qed.

Lemma or_else_falsy a b : truthy a = false -> or_else a b = b.
Proof. unfold or_else. intros ->. reflexivity. Qed.

Lemma pending_of_returns idx task :
  (exists r, getNextSegmentIndex task = Normal r) ->
  exists c, pending_of idx task = Normal c.
Proof.
  intros [r Hr]. unfold pending_of. rewrite Hr. cbn.
  destruct r as [n|]; [|eauto].
  destruct (length _ <=? n)%nat; [eauto|].
  destruct (input_frame task _ n). eauto.
Qed.

Lemma calculatePendingSegments_returns tasks sel :
  Forall (fun task =>
            Task.segments task <> []
            \/ Forall (fun seg => nullish seg = false)
                      (parseStoryboardSegments (Task.storyboardJson task)))
         (tasksToProcess tasks sel) ->
  exists ps, calculatePendingSegments tasks sel = Normal ps.
Proof.
  intros Hall. unfold calculatePendingSegments.
  destruct (mapM_Normal_total
              (fun '(idx, task) => pending_of idx task)
              (imap pair (tasksToProcess tasks sel))) as [r Hr].
  - apply Forall_forall. intros [idx task] Hin.
    apply list_elem_of_lookup in Hin as [i Hi].
    rewrite list_lookup_imap in Hi.
    destruct (tasksToProcess tasks sel !! i) as [t|] eqn:Ht; cbn in Hi; [|discriminate].
    injection Hi as <- <-.
    apply pending_of_returns, getNextSegmentIndex_returns.
    rewrite Forall_forall in Hall. apply Hall.
    eapply list_elem_of_lookup_2. exact Ht.
  - rewrite Hr. cbn. eauto.
Qed.

(** C2. Input-frame determination: every pending segment computed for a
    task carries, as its input frame, the opening image of the task when
    its index is 0, and otherwise the last frame of the predecessor
    segment: the [lastFrameUrl] of the task's segment when it is set, and
    else the one that the storyboard records for it.  In Scenario A (three
    segments, 0 and 1 completed, 2 pending, opening image present) the
    selected index is 2 and the input frame is the last frame of
    segment 1.  The pending segments are computed whenever the segments of
    every task to process can be read. *)
Theorem calculatePendingSegments_input_frame :
  (forall tasks sel ps p,
      calculatePendingSegments tasks sel = Normal ps ->
      p ∈ ps ->
      exists task,
        tasksToProcess tasks sel !! Pending.taskIndex p = Some task
        /\ Pending.taskId p = Task.id task
        /\ getNextSegmentIndex task = Normal (Some (Pending.segmentIndex p))
        /\ match Pending.segmentIndex p with
           | 0 => Pending.inputFrameUrl p = of_opt_string (Task.openingImageUrl task)
           | S k =>
               (forall seg url,
                   Task.segments task !! k = Some seg ->
                   Segment.lastFrameUrl seg = Some url -> url <> "" ->
                   Pending.inputFrameUrl p = VStr url)
               /\ ((forall seg url,
                       Task.segments task !! k = Some seg ->
                       Segment.lastFrameUrl seg = Some url -> url = "") ->
                   Pending.inputFrameUrl p = storyboard_last_frame task k)
           end)
  /\ (forall task s0 s1 s2 frame,
         schedulable task = true ->
         has_opening_image task ->
         Task.segments task = [s0; s1; s2] ->
         Segment.status s0 = completed ->
         Segment.status s1 = completed ->
         Segment.status s2 = pending ->
         Segment.lastFrameUrl s1 = Some frame -> frame <> "" ->
         2 < length (parseStoryboardSegments (Task.storyboardJson task)) ->
         getNextSegmentIndex task = Normal (Some 2)
         /\ exists p,
             calculatePendingSegments [task] [] = Normal [p]
             /\ Pending.taskId p = Task.id task
             /\ Pending.segmentIndex p = 2
             /\ Pending.inputFrameUrl p = VStr frame)
  /\ (forall tasks sel,
         Forall (fun task =>
                   Task.segments task <> []
                   \/ Forall (fun seg => nullish seg = false)
                             (parseStoryboardSegments (Task.storyboardJson task)))
                (tasksToProcess tasks sel) ->
         exists ps, calculatePendingSegments tasks sel = Normal ps).
Proof.
  split; [|split; [|apply calculatePendingSegments_returns]].
  - intros tasks sel ps p Hcalc Hp.
    destruct (calculatePendingSegments_elem _ _ _ _ Hcalc Hp) as (task & Htask & Hpend).
    destruct (pending_of_Some _ _ _ Hpend) as (Hnext & _ & Hid & _ & Hframe).
    exists task. repeat (split; [assumption|]).
    rewrite Hframe. unfold input_frame.
    destruct (Pending.segmentIndex p) as [|k]; cbn; [reflexivity|].
    rewrite Nat.sub_0_r. split.
    + intros seg url -> Hurl Hne. cbn. rewrite Hurl. cbn.
      assert (Ht : truthy (VStr url) = true).
      { cbn. apply negb_true_iff, String.eqb_neq, Hne. }
      rewrite (or_else_truthy (VStr url)) by exact Ht.
      apply or_else_truthy, Ht.
    + intros Hunset. unfold storyboard_last_frame.
      assert (Hf : truthy (from_option
                             (fun s => of_opt_string (Segment.lastFrameUrl s))
                             VUndefined (Task.segments task !! k)) = false).
      { destruct (Task.segments task !! k) as [seg|]; cbn; [|reflexivity].
        destruct (Segment.lastFrameUrl seg) as [url|] eqn:Hurl; cbn; [|reflexivity].
        rewrite (Hunset seg url eq_refl Hurl). reflexivity. }
      rewrite (or_else_falsy _ _ Hf). unfold or_else.
      destruct (truthy (get_opt _ "lastFrameUrl")); reflexivity.
  - intros task s0 s1 s2 frame Hs Ho Hsegs H0 H1 H2 Hframe Hne Hlen.
    assert (Hnext : getNextSegmentIndex task = Normal (Some 2)).
    { rewrite (getNextSegmentIndex_schedulable task
                 (of_BatchSegment <$> Task.segments task) Hs).
      - rewrite Hsegs. cbn. unfold segment_status, of_BatchSegment. cbn.
        rewrite H0, H1, H2. reflexivity.
      - unfold segments_of. rewrite Hsegs. reflexivity. }
    split; [exact Hnext|].
    unfold calculatePendingSegments, tasksToProcess. cbn.
    unfold pending_of. rewrite Hnext. cbn.
    apply Nat.leb_gt in Hlen. rewrite Hlen. cbn.
    eexists. split; [reflexivity|]. cbn.
    repeat (split; [reflexivity|]).
    rewrite Hsegs. cbn. rewrite Hframe. cbn.
    assert (Ht : truthy (VStr frame) = true).
    { cbn. apply negb_true_iff, String.eqb_neq, Hne. }
    rewrite (or_else_truthy (VStr frame)) by exact Ht.
    apply or_else_truthy, Ht.
Qed.

(** ** Tasks in flight *)

Lemma string_app_cons a p k : String a p +:+ k = String a (p +:+ k).
Proof. reflexivity. Qed.

Lemma prefix_app p s : String.prefix p s = true <-> exists k, s = p +:+ k.
Proof.
  revert s. induction p as [|a p IH]; intros s.
  - split; [intros _; exists s; reflexivity|intros _; destruct s; reflexivity].
  - setoid_rewrite string_app_cons.
    destruct s as [|b s]; cbn.
    + split; [discriminate|]. intros (k & Hk). discriminate.
    + destruct (Ascii.ascii_dec a b) as [->|Hne].
      * rewrite IH. split; intros (k & Hk); exists k; congruence.
      * split; [discriminate|]. intros (k & Hk). congruence.
Qed.

Lemma in_flight_transient status : in_flight status = true <-> transient status.
Proof.
  unfold in_flight, transient.
  rewrite !orb_true_iff, prefix_app, !String.eqb_eq. tauto.
Qed.

Lemma getNextSegmentIndex_in_flight task :
  in_flight (Task.status task) = true -> getNextSegmentIndex task = Normal None.
Proof.
  intros H. unfold getNextSegmentIndex. rewrite H.
  destruct (text_truthy _); reflexivity.
Qed.

Lemma tasksToProcess_app l1 l2 sel :
  tasksToProcess (l1 ++ l2) sel = (tasksToProcess l1 sel ++ tasksToProcess l2 sel)%list.
Proof.
  unfold tasksToProcess. destruct (0 <? length sel)%nat; [|reflexivity].
  apply List.filter_app.
Qed.

Lemma tasksToProcess_one task sel :
  tasksToProcess [task] sel = [task] \/ tasksToProcess [task] sel = [].
Proof.
  unfold tasksToProcess. destruct (0 <? length sel)%nat; [|left; reflexivity].
  cbn. destruct (bool_decide _); [left|right]; reflexivity.
Qed.

(** C3. A task whose status is in flight (script generation, merging, or
    the generation of some segment) gets no next segment: selection
    returns null, the task yields no pending segment at any position, no
    pending segment of a batch refers to such a task, and listing the task
    in a batch leaves the groups of the batch as they are without it. *)
Theorem in_flight_never_selected :
  (forall task,
      transient (Task.status task) ->
      getNextSegmentIndex task = Normal None
      /\ (forall idx, pending_of idx task = Normal None)
      /\ (forall before after sel,
             groupTasksBySegmentIndex (before ++ task :: after) sel
             = groupTasksBySegmentIndex (before ++ after) sel))
  /\ (forall tasks sel ps p,
         calculatePendingSegments tasks sel = Normal ps ->
         p ∈ ps ->
         exists task,
           tasksToProcess tasks sel !! Pending.taskIndex p = Some task
           /\ Pending.taskId p = Task.id task
           /\ ~ transient (Task.status task)).
Proof.
  split.
  - intros task Ht. apply in_flight_transient in Ht.
    pose proof (getNextSegmentIndex_in_flight task Ht) as Hnone.
    split; [exact Hnone|]. split.
    + intros idx. unfold pending_of. rewrite Hnone. reflexivity.
    + intros before after sel. unfold groupTasksBySegmentIndex.
      change (task :: after) with ([task] ++ after)%list.
      rewrite !tasksToProcess_app, !foldl_app.
      f_equal.
      destruct (tasksToProcess_one task sel) as [-> | ->]; cbn; [|reflexivity].
      rewrite Hnone.
      destruct (foldl _ _ (tasksToProcess before sel)); reflexivity.
  - intros tasks sel ps p Hcalc Hp.
    destruct (calculatePendingSegments_elem _ _ _ _ Hcalc Hp) as (task & Htask & Hpend).
    destruct (pending_of_Some _ _ _ Hpend) as (Hnext & _ & Hid & _).
    exists task. repeat (split; [assumption|]).
    intros Ht%in_flight_transient.
    rewrite (getNextSegmentIndex_in_flight task Ht) in Hnext. discriminate.
Qed.

(** ** Stage eligibility *)

Lemma filterTasksForMerge_elem tasks t :
  t ∈ filterTasksForMerge tasks <-> t ∈ tasks /\ Task.status t = "all_segments_ready".
Proof.
  unfold filterTasksForMerge.
  rewrite !list_elem_of_In, filter_In, String.eqb_eq. reflexivity.
Qed.

Lemma filterTasksForStoryboard_elem tasks t :
  t ∈ filterTasksForStoryboard tasks
  <-> t ∈ tasks /\ has_opening_image t
      /\ (Task.status t = "pending" \/ Task.status t = "storyboard_ready").
Proof.
  unfold filterTasksForStoryboard.
  rewrite !list_elem_of_In, filter_In, andb_true_iff, orb_true_iff,
    !String.eqb_eq, string_truthy_spec.
  reflexivity.
Qed.

Lemma List_filter_sublist {A} (f : A -> bool) (l : list A) : sublist (List.filter f l) l.
Proof.
  induction l as [|x l IH]; cbn; [constructor|].
  destruct (f x); [apply sublist_skip|apply sublist_cons]; exact IH.
Qed.

Lemma tasksToProcess_elem tasks sel t : t ∈ tasksToProcess tasks sel -> t ∈ tasks.
Proof.
  unfold tasksToProcess. destruct (0 <? length sel)%nat; [|trivial].
  rewrite !list_elem_of_In, filter_In. tauto.
Qed.

Lemma handleMergeVideos_submissions b state :
  merge_submissions (handleMergeVideos b state) = []
  \/ merge_submissions (handleMergeVideos b state)
     = [Task.id <$> filterTasksForMerge
                      (tasksToProcess (Page.tasks state) (Page.selectedRecordIds state))].
Proof.
  unfold handleMergeVideos.
  destruct (length (tasksToProcess _ _) =? 0)%nat; [left; reflexivity|].
  destruct (length (filterTasksForMerge _) =? 0)%nat; [left; reflexivity|].
  right. unfold merge_submissions, calls. cbn.
  destruct (Api.mergeVideos _ _ _); reflexivity.
Qed.

Lemma handleGenerateStoryboards_submissions b state :
  storyboard_submissions (handleGenerateStoryboards b state) = []
  \/ storyboard_submissions (handleGenerateStoryboards b state)
     = [Task.id <$> filterTasksForStoryboard
                      (tasksToProcess (Page.tasks state) (Page.selectedRecordIds state))].
Proof.
  unfold handleGenerateStoryboards.
  destruct (length (tasksToProcess _ _) =? 0)%nat; [left; reflexivity|].
  destruct (length (filterTasksForStoryboard _) =? 0)%nat; [left; reflexivity|].
  right. unfold storyboard_submissions, calls. cbn.
  destruct (Api.generateStoryboards _ _ _ _); reflexivity.
Qed.

(** C6. Assembly eligibility: the merge filter returns exactly the tasks
    whose status is [all_segments_ready], in their order, and every record
    id that the merge handler submits is that of a listed task with this
    status. *)
Theorem merge_only_all_segments_ready :
  (forall tasks,
      sublist (filterTasksForMerge tasks) tasks
      /\ forall t, t ∈ filterTasksForMerge tasks
                   <-> t ∈ tasks /\ Task.status t = "all_segments_ready")
  /\ (forall b state recordIds recordId,
         recordIds ∈ merge_submissions (handleMergeVideos b state) ->
         recordId ∈ recordIds ->
         exists t, t ∈ Page.tasks state
                   /\ Task.id t = recordId
                   /\ Task.status t = "all_segments_ready").
Proof.
  split.
  - intros tasks. split; [apply List_filter_sublist|].
    intros t. apply filterTasksForMerge_elem.
  - intros b state recordIds recordId Hsub Hid.
    destruct (handleMergeVideos_submissions b state) as [H|H];
      rewrite H in Hsub; [by apply elem_of_nil in Hsub|].
    apply list_elem_of_singleton in Hsub. subst recordIds.
    apply list_elem_of_fmap in Hid as (t & -> & Ht).
    apply filterTasksForMerge_elem in Ht as [Ht Hst].
    exists t. split; [eapply tasksToProcess_elem; eassumption|]. split; [reflexivity|assumption].
Qed.

(** C7. Script-stage prerequisite: the storyboard filter returns exactly
    the tasks that have an opening image and whose status is [pending] or
    [storyboard_ready], in their order; so every record id submitted to
    script generation is that of a listed task with an opening image. *)
Theorem storyboard_requires_opening_image :
  (forall tasks,
      sublist (filterTasksForStoryboard tasks) tasks
      /\ forall t, t ∈ filterTasksForStoryboard tasks
                   <-> t ∈ tasks /\ has_opening_image t
                       /\ (Task.status t = "pending"
                           \/ Task.status t = "storyboard_ready"))
  /\ (forall b state recordIds recordId,
         recordIds ∈ storyboard_submissions (handleGenerateStoryboards b state) ->
         recordId ∈ recordIds ->
         exists t, t ∈ Page.tasks state
                   /\ Task.id t = recordId
                   /\ has_opening_image t
                   /\ (Task.status t = "pending"
                       \/ Task.status t = "storyboard_ready")).
Proof.
  split.
  - intros tasks. split; [apply List_filter_sublist|].
    intros t. apply filterTasksForStoryboard_elem.
  - intros b state recordIds recordId Hsub Hid.
    destruct (handleGenerateStoryboards_submissions b state) as [H|H];
      rewrite H in Hsub; [by apply elem_of_nil in Hsub|].
    apply list_elem_of_singleton in Hsub. subst recordIds.
    apply list_elem_of_fmap in Hid as (t & -> & Ht).
    apply filterTasksForStoryboard_elem in Ht as (Ht & Ho & Hst).
    exists t. split; [eapply tasksToProcess_elem; eassumption|]. auto.
Qed.

(** ** Selection of records *)


Lemma mapM_Normal_Forall2 {A B} (f : A -> result B) (l : list A) (r : list B) :
  mapM f l = Normal r <-> Forall2 (fun x y => f x = Normal y) l r.
Proof.
  revert r. induction l as [|x l IH]; intros r; cbn.
  - split; [intros [= <-]; constructor|]. intros H. inversion H. reflexivity.
  - split.
    + destruct (f x) as [y|e] eqn:Hfx; cbn; [|discriminate].
      destruct (mapM f l) as [ys|e]; cbn; [|discriminate].
      intros [= <-]. constructor; [assumption|]. apply IH. reflexivity.
    + intros H. inversion H as [|? y ? ys Hfx Hrest]; subst.
      apply IH in Hrest. rewrite Hfx. cbn. rewrite Hrest. reflexivity.
Qed.


(** ** The error message of the page *)

Lemma pageReducer_errorMessage state action :
  Page.errorMessage (pageReducer state action)
  = if clears action then None
    else match failure_payload action with
         | Some payload => Some payload
         | None => Page.errorMessage state
         end.
Proof. destruct action; reflexivity. Qed.

Lemma pageReducer_failure_status state action payload :
  failure_payload action = Some payload ->
  Page.status (pageReducer state action) = error.
Proof. destruct action; cbn; intros [=]; reflexivity. Qed.

(** C8. Error-message lifecycle: every failure action sets the status to
    [error] and records its payload as the error message; a recorded
    message is cleared only by the start of an operation or by
    [CLEAR_ERROR]: every other action leaves a message in place (the one
    recorded, or the payload of a newer failure), and a sequence of
    actions without a start, a failure or [CLEAR_ERROR] (successes
    included) leaves the very same message; the start of the next
    operation clears it, so that after a started and successful operation
    no message remains. *)
Theorem errorMessage_lifecycle :
  (forall state action payload,
      failure_payload action = Some payload ->
      Page.status (pageReducer state action) = error
      /\ Page.errorMessage (pageReducer state action) = Some payload)
  /\ (forall state action,
         clears action = false ->
         is_Some (Page.errorMessage state) ->
         is_Some (Page.errorMessage (pageReducer state action)))
  /\ (forall state actions,
         Forall (fun a => clears a = false /\ failure_payload a = None) actions ->
         Page.errorMessage (foldl pageReducer state actions) = Page.errorMessage state)
  /\ (forall state action,
         clears action = true ->
         Page.errorMessage (pageReducer state action) = None)
  /\ (forall state start success,
         is_start start = true ->
         is_success success = true ->
         Page.errorMessage (pageReducer (pageReducer state start) success) = None
         /\ Page.status (pageReducer (pageReducer state start) success) = idle).
Proof.
  split; [|split; [|split; [|split]]].
  - intros state action payload Hf. split.
    + eapply pageReducer_failure_status, Hf.
    + rewrite pageReducer_errorMessage, Hf.
      destruct action; cbn in *; congruence.
  - intros state action Hc Hm. rewrite pageReducer_errorMessage, Hc.
    destruct (failure_payload action); [eexists; reflexivity|assumption].
  - intros state actions Hall. revert state.
    induction Hall as [|a actions [Hc Hf] _ IH]; intros state; cbn; [reflexivity|].
    rewrite IH, pageReducer_errorMessage, Hc, Hf. reflexivity.
  - intros state action Hc. rewrite pageReducer_errorMessage, Hc. reflexivity.
  - intros state start success Hstart Hsuccess.
    destruct start; try discriminate; destruct success; try discriminate;
      split; reflexivity.
Qed.

(** ** Batch fan-out *)

Lemma group_ids_snoc edits e k :
  group_ids (edits ++ [e]) k
  = (group_ids edits k
     ++ if (Edit.segmentIndex e =? k)%nat then [Edit.taskId e] else [])%list.
Proof.
  unfold group_ids. rewrite List.filter_app, fmap_app. cbn.
  destruct (Edit.segmentIndex e =? k)%nat; reflexivity.
Qed.

Lemma edit_groups_lookup edits k :
  edit_groups edits !! k
  = match group_ids edits k with [] => None | ids => Some ids end.
Proof.
  induction edits as [|e edits IH] using rev_ind; [reflexivity|].
  unfold edit_groups in *. rewrite foldl_snoc, group_ids_snoc.
  unfold group_push at 1. rewrite lookup_insert.
  destruct (decide (Edit.segmentIndex e = k)) as [->|Hne].
  - rewrite Nat.eqb_refl, IH.
    destruct (group_ids edits k); reflexivity.
  - apply Nat.eqb_neq in Hne. rewrite Hne, app_nil_r. exact IH.
Qed.

Lemma edit_groups_default edits k :
  default [] (edit_groups edits !! k) = group_ids edits k.
Proof. rewrite edit_groups_lookup. destruct (group_ids edits k); reflexivity. Qed.

Lemma group_ids_nonempty edits k :
  group_ids edits k <> [] <-> exists e, e ∈ edits /\ Edit.segmentIndex e = k.
Proof.
  unfold group_ids. split.
  - destruct (List.filter _ edits) as [|e l] eqn:Hf;
      [intros H; exfalso; apply H; reflexivity|]. intros _.
    assert (He : In e (List.filter (fun e => (Edit.segmentIndex e =? k)%nat) edits))
      by (rewrite Hf; left; reflexivity).
    apply filter_In in He as [He Hk]. apply Nat.eqb_eq in Hk.
    exists e. rewrite list_elem_of_In. split; assumption.
  - intros (e & He & Hk) Hnil. apply fmap_nil_inv in Hnil.
    assert (Hin : In e (List.filter (fun e => (Edit.segmentIndex e =? k)%nat) edits)).
    { apply filter_In. split; [apply list_elem_of_In, He|apply Nat.eqb_eq, Hk]. }
    rewrite Hnil in Hin. destruct Hin.
Qed.

Lemma StronglySorted_le_lt (l : list nat) :
  StronglySorted Nat.le l -> NoDup l -> StronglySorted Nat.lt l.
Proof.
  induction 1 as [|x l Hs IH Hall]; intros Hnd; [constructor|].
  apply NoDup_cons in Hnd as [Hx Hnd].
  constructor; [apply IH, Hnd|].
  rewrite Forall_forall in *. intros y Hy.
  specialize (Hall y Hy). unfold Nat.lt.
  destruct (decide (x = y)) as [->|Hne]; [contradiction|lia].
Qed.

Lemma sorted_keys_elem (g : gmap nat (list string)) k :
  k ∈ sorted_keys g <-> is_Some (g !! k).
Proof.
  unfold sorted_keys. rewrite merge_sort_Permutation, list_elem_of_fmap. split.
  - intros ([k' ids] & -> & Hin). apply elem_of_map_to_list in Hin. eauto.
  - intros [ids Hk]. exists (k, ids). split; [reflexivity|].
    apply elem_of_map_to_list, Hk.
Qed.

Lemma sorted_keys_sorted (g : gmap nat (list string)) :
  StronglySorted Nat.lt (sorted_keys g).
Proof.
  apply StronglySorted_le_lt.
  - apply StronglySorted_merge_sort; [intros x y z; apply Nat.le_trans|].
    intros x y. apply Nat.le_ge_cases.
  - unfold sorted_keys. rewrite merge_sort_Permutation. apply NoDup_fst_map_to_list.
Qed.

(** The loop visits every group, whatever the calls return. *)
Lemma generate_groups_spec b state g indices totalSuccess totalFailed :
  let result := generate_groups b state g indices totalSuccess totalFailed in
  generation_calls result.1 = (fun k => (k, default [] (g !! k))) <$> indices
  /\ result.2.1
     = totalSuccess
       + sum_list ((fun k => (group_counts b state k (default [] (g !! k))).1) <$> indices)
  /\ result.2.2
     = totalFailed
       + sum_list ((fun k => (group_counts b state k (default [] (g !! k))).2) <$> indices).
Proof.
  revert totalSuccess totalFailed.
  induction indices as [|k indices IH]; intros totalSuccess totalFailed; cbn.
  - repeat split; lia.
  - unfold group_counts at 1 3.
    destruct (Api.generateSegments _ _ _ _ _) as [data|e];
      match goal with
      | |- context [generate_groups b state g indices ?s ?f] =>
          specialize (IH s f); destruct (generate_groups b state g indices s f)
            as [effects [s' f']]
      end; cbn in *; destruct IH as (Hcalls & Hs & Hf);
      (split; [unfold generation_calls, calls in *; cbn; rewrite Hcalls; reflexivity|]);
      split; lia.
Qed.

Lemma generation_calls_app l1 l2 :
  generation_calls (l1 ++ l2) = (generation_calls l1 ++ generation_calls l2)%list.
Proof. unfold generation_calls, calls. rewrite !omap_app. reflexivity. Qed.

Lemma handleBatchEditConfirm_saved b state edits :
  (forall e, ~ save_raises b state edits e) ->
  let g := edit_groups edits in
  let result := generate_groups b state g (sorted_keys g) 0 0 in
  generation_calls (handleBatchEditConfirm b state edits).1 = generation_calls result.1
  /\ (handleBatchEditConfirm b state edits).2
     = {| Confirm.success := (result.2.2 =? 0)%nat;
          Confirm.successCount := result.2.1;
          Confirm.failedCount := result.2.2;
          Confirm.error := None |}.
Proof.
  intros Hsave g result. subst g result. unfold handleBatchEditConfirm.
  set (modified := List.filter Edit.isModified edits).
  assert (Hok : exists c,
             (if (0 <? length modified)%nat
              then Api.batchSavePrompts b (Feishu.tableId (Page.feishuConfig state))
                     (save_item <$> modified)
              else mret {| Api.success_count := 0; Api.failed_count := 0 |})
             = Normal c).
  { destruct modified as [|m ms] eqn:Hm; cbn [length Nat.ltb Nat.leb];
      [eexists; reflexivity|].
    destruct (Api.batchSavePrompts _ _ _) as [c|e] eqn:Hsaved; [eauto|].
    destruct (Hsave e). split.
    - fold modified. rewrite Hm. discriminate.
    - unfold save_result. fold modified. rewrite Hm. exact Hsaved. }
  destruct Hok as [c ->].
  destruct (generate_groups _ _ _ _ 0 0) as [effects [s f]]. cbn [fst snd].
  split; [|reflexivity].
  rewrite !generation_calls_app.
  destruct (0 <? length modified)%nat;
    destruct (f =? 0)%nat; try destruct (s =? 0)%nat;
    cbn; rewrite ?app_nil_r; reflexivity.
Qed.

Lemma handleBatchEditConfirm_save_raises b state edits e :
  save_raises b state edits e ->
  generation_calls (handleBatchEditConfirm b state edits).1 = []
  /\ (handleBatchEditConfirm b state edits).2
     = {| Confirm.success := false;
          Confirm.successCount := 0;
          Confirm.failedCount := length edits;
          Confirm.error := Some (message_of e) |}.
Proof.
  intros [Hmod Hsave]. unfold handleBatchEditConfirm, save_result in *.
  destruct (List.filter Edit.isModified edits) as [|m ms]; [congruence|].
  cbn [length Nat.ltb Nat.leb]. rewrite Hsave. split; reflexivity.
Qed.

(** C5, as the code has it.  When the prompts that were modified can be
    saved (or none was modified), the batch fans out: one generation call
    per segment index of the batch, in ascending order, each with the
    units of its group and attempted whatever the earlier calls did; a
    call that raises counts all units of its group as failed; the counts
    returned are the sums over the groups, and success is reported exactly
    when nothing failed.  When saving the modified prompts raises, no
    generation call is attempted and every unit of the batch is reported
    as failed. *)
Theorem batch_fan_out_after_save :
  forall b state edits,
    ((forall e, ~ save_raises b state edits e) ->
     fans_out b state edits (handleBatchEditConfirm b state edits))
    /\ (forall e,
           save_raises b state edits e ->
           generation_calls (handleBatchEditConfirm b state edits).1 = []
           /\ (handleBatchEditConfirm b state edits).2
              = {| Confirm.success := false;
                   Confirm.successCount := 0;
                   Confirm.failedCount := length edits;
                   Confirm.error := Some (message_of e) |}).
Proof.
  intros b state edits. split; [|apply handleBatchEditConfirm_save_raises].
  intros Hsave.
  destruct (handleBatchEditConfirm_saved b state edits Hsave) as [Hcalls Hout].
  destruct (generate_groups_spec b state (edit_groups edits)
              (sorted_keys (edit_groups edits)) 0 0) as (Hgen & Hs & Hf).
  cbn zeta in *.
  exists (sorted_keys (edit_groups edits)).
  split; [apply sorted_keys_sorted|]. split; [|split; [|split; [|split]]].
  - intros k. rewrite sorted_keys_elem, edit_groups_lookup, <- group_ids_nonempty.
    destruct (group_ids edits k); split; intros H; try congruence.
    + destruct H as [? [=]].
    + eexists. reflexivity.
  - rewrite Hcalls, Hgen. apply list_fmap_ext. intros _ k _.
    rewrite edit_groups_default. reflexivity.
  - rewrite Hout. cbn. rewrite Hs. cbn. f_equal.
    apply list_fmap_ext. intros _ k _. rewrite edit_groups_default. reflexivity.
  - rewrite Hout. cbn. rewrite Hf. cbn. f_equal.
    apply list_fmap_ext. intros _ k _. rewrite edit_groups_default. reflexivity.
  - rewrite Hout. cbn. apply Nat.eqb_eq.
Qed.

Lemma batch_fan_out_after_save_witness :
  fans_out backend_failing_segment_1 INITIAL_STATE batch_of_three
    (handleBatchEditConfirm backend_failing_segment_1 INITIAL_STATE batch_of_three).
Proof.
  apply (batch_fan_out_after_save backend_failing_segment_1 INITIAL_STATE batch_of_three).
  intros e [_ Hraise]. vm_compute in Hraise. discriminate.
Defined.

(** C5, as stated, fails: with a backend that refuses to save the one
    modified prompt, the confirmed batch of three units (segments 1 and 2)
    sends no generation request at all. *)
Lemma batch_fan_out_needs_save :
  ~ fans_out backend_without_save INITIAL_STATE batch_of_three
      (handleBatchEditConfirm backend_without_save INITIAL_STATE batch_of_three).
Proof.
  intros (indices & _ & Hmem & Hcalls & _).
  assert (H2 : 2 ∈ indices).
  { apply Hmem. exists (make_edit "recA" 2 false). split; [|reflexivity].
    apply list_elem_of_here. }
  change (generation_calls _) with (@nil (nat * list string)) in Hcalls.
  symmetry in Hcalls. apply fmap_nil_inv in Hcalls. subst indices.
  by apply elem_of_nil in H2.
Qed.

(** ** Cascade redo *)








(** ** The properties on the test scenarios *)

Lemma getNextSegmentIndex_scenario_A :
  getNextSegmentIndex scenario_A = Normal (Some 2)
  /\ completed_at (of_BatchSegment <$> Task.segments scenario_A) 1.
Proof.
  split; [reflexivity|].
  apply (getNextSegmentIndex_first_ready scenario_A
           (of_BatchSegment <$> Task.segments scenario_A) eq_refl eq_refl).
  reflexivity.
Defined.

Lemma calculatePendingSegments_input_frame_witness :
  getNextSegmentIndex scenario_A = Normal (Some 2)
  /\ exists p,
      calculatePendingSegments [scenario_A] [] = Normal [p]
      /\ Pending.taskId p = "recA"
      /\ Pending.segmentIndex p = 2
      /\ Pending.inputFrameUrl p = VStr "/storage/recA/frames/segment_1_last.jpg".
Proof.
  apply (proj1 (proj2 calculatePendingSegments_input_frame) scenario_A
           (make_segment completed (Some "/storage/recA/frames/segment_0_last.jpg"))
           (make_segment completed (Some "/storage/recA/frames/segment_1_last.jpg"))
           (make_segment pending None)
           "/storage/recA/frames/segment_1_last.jpg");
    try reflexivity.
  - exists "/storage/recA/opening.jpg". split; [reflexivity|discriminate].
  - discriminate.
  - cbn. lia.
Defined.

Lemma in_flight_never_selected_witness :
  getNextSegmentIndex task_generating = Normal None
  /\ groupTasksBySegmentIndex [scenario_A; task_generating] []
     = groupTasksBySegmentIndex [scenario_A] [].
Proof.
  assert (Ht : transient (Task.status task_generating)).
  { right. right. exists "2". reflexivity. }
  destruct (proj1 in_flight_never_selected task_generating Ht) as (Hnone & _ & Hgroups).
  split; [exact Hnone|].
  exact (Hgroups [scenario_A] [] []).
Defined.

Lemma merge_only_all_segments_ready_witness :
  exists t, t ∈ [scenario_A; task_ready; task_generating]
            /\ Task.id t = "recR"
            /\ Task.status t = "all_segments_ready".
Proof.
  apply (proj2 merge_only_all_segments_ready backend_failing_segment_1
           (page_of [scenario_A; task_ready; task_generating] []) ["recR"] "recR").
  - apply list_elem_of_here.
  - apply list_elem_of_here.
Defined.

Lemma storyboard_requires_opening_image_witness :
  exists t, t ∈ [task_without_image; task_new; task_ready]
            /\ Task.id t = "recN"
            /\ has_opening_image t
            /\ (Task.status t = "pending" \/ Task.status t = "storyboard_ready").
Proof.
  apply (proj2 storyboard_requires_opening_image backend_failing_segment_1
           (page_of [task_without_image; task_new; task_ready] []) ["recN"] "recN").
  - apply list_elem_of_here.
  - apply list_elem_of_here.
Defined.

Lemma errorMessage_lifecycle_witness :
  Page.status (pageReducer INITIAL_STATE (MERGE_FAILURE "合并视频失败")) = error
  /\ Page.errorMessage (pageReducer INITIAL_STATE (MERGE_FAILURE "合并视频失败"))
     = Some "合并视频失败".
Proof.
  apply (proj1 errorMessage_lifecycle INITIAL_STATE (MERGE_FAILURE "合并视频失败")).
  reflexivity.
Defined.


(** * Further properties of the batch helpers *)

(** ** Statistics *)

Lemma counts_exclusive t :
  (counts_completed t = true -> counts_inProgress t = false /\ counts_failed t = false)
  /\ (counts_failed t = true -> counts_inProgress t = false).
Proof.
  unfold counts_completed, counts_inProgress, counts_failed. split.
  - intros ->%String.eqb_eq. split; reflexivity.
  - intros [->%String.eqb_eq | ->%String.eqb_eq]%orb_prop; reflexivity.
Qed.

Lemma filter_partition_length {A} (f g : A -> bool) (l : list A) :
  (forall x, f x = true -> g x = false) ->
  length (List.filter f l) + length (List.filter g l)
  = length (List.filter (fun x => f x || g x) l).
Proof.
  intros Hfg. induction l as [|x l IH]; cbn; [reflexivity|].
  destruct (f x) eqn:Hf; cbn.
  - rewrite (Hfg x Hf). cbn. lia.
  - destruct (g x); cbn; lia.
Qed.

Lemma filter_complement_length {A} (f : A -> bool) (l : list A) :
  length (List.filter f l) + length (List.filter (fun x => negb (f x)) l) = length l.
Proof.
  induction l as [|x l IH]; cbn; [reflexivity|].
  destruct (f x); cbn; lia.
Qed.

(** X1. The statistics never count a task twice: the completed, in-progress
    and failed tasks, together with the tasks in none of these classes,
    make up the total. *)
Theorem calculateStats_partition tasks :
  Stats.completed (calculateStats tasks)
  + Stats.inProgress (calculateStats tasks)
  + Stats.failed (calculateStats tasks)
  + length (List.filter
              (fun t => negb (counts_completed t || counts_inProgress t || counts_failed t))
              tasks)
  = Stats.total (calculateStats tasks).
Proof.
  cbn.
  rewrite (filter_partition_length counts_completed counts_inProgress).
  - rewrite (filter_partition_length
               (fun t => counts_completed t || counts_inProgress t) counts_failed).
    + apply filter_complement_length.
    + intros t [Hc|Hp]%orb_prop.
      * destruct (counts_exclusive t) as [H _]. apply (H Hc).
      * destruct (counts_failed t) eqn:Hf; [|reflexivity].
        destruct (counts_exclusive t) as [_ H]. rewrite (H Hf) in Hp. discriminate.
  - intros t Hc. destruct (counts_exclusive t) as [H _]. apply (H Hc).
Qed.

Lemma includes_prefix needle s : String.prefix needle s = true -> includes needle s = true.
Proof. intros H. destruct s; cbn [includes]; rewrite H; reflexivity. Qed.

Lemma in_flight_counts t :
  in_flight (Task.status t) = true -> counts_inProgress t = true.
Proof.
  unfold in_flight, counts_inProgress.
  intros [[Hp|Hm]%orb_prop|Hs]%orb_prop.
  - apply prefix_app in Hp as [k ->].
    rewrite includes_prefix; [reflexivity|].
    apply prefix_app. exists ("_segment_" +:+ k). reflexivity.
  - rewrite Hm. apply orb_true_r.
  - rewrite Hs. rewrite orb_true_r. reflexivity.
Qed.

Lemma filter_le_length {A} (f g : A -> bool) (l : list A) :
  (forall x, f x = true -> g x = true) ->
  length (List.filter f l) <= length (List.filter g l).
Proof.
  intros Hfg. induction l as [|x l IH]; cbn; [lia|].
  destruct (f x) eqn:Hf; [rewrite (Hfg x Hf); cbn; lia|].
  destruct (g x); cbn; lia.
Qed.

Lemma filter_ext_Forall {A} (f g : A -> bool) (l : list A) :
  Forall (fun x => f x = g x) l -> List.filter f l = List.filter g l.
Proof.
  induction 1 as [|x l Hx _ IH]; cbn; [reflexivity|].
  rewrite Hx, IH. reflexivity.
Qed.

(** X2. Every task that next-segment selection skips as in flight is counted
    as in progress; for the statuses of the type [BatchTaskStatus] the two
    classifications are the same, so that the in-progress count is the
    number of tasks that selection skips. *)
Theorem inProgress_counts_in_flight :
  (forall tasks,
      length (List.filter (fun t => in_flight (Task.status t)) tasks)
      <= Stats.inProgress (calculateStats tasks))
  /\ (forall t,
         Task.status t ∈ BatchTaskStatus_values ->
         counts_inProgress t = in_flight (Task.status t))
  /\ (forall tasks,
         Forall (fun t => Task.status t ∈ BatchTaskStatus_values) tasks ->
         Stats.inProgress (calculateStats tasks)
         = length (List.filter (fun t => in_flight (Task.status t)) tasks)).
Proof.
  assert (Hvalues : forall t, Task.status t ∈ BatchTaskStatus_values ->
                              counts_inProgress t = in_flight (Task.status t)).
  { intros t Hin. unfold counts_inProgress, BatchTaskStatus_values in *.
    repeat (apply elem_of_cons in Hin as [-> | Hin]; [reflexivity|]).
    by apply elem_of_nil in Hin. }
  split; [|split; [exact Hvalues|]].
  - intros tasks. apply filter_le_length. intros t. apply in_flight_counts.
  - intros tasks Hall. cbn. apply f_equal, filter_ext_Forall.
    eapply Forall_impl; [exact Hall|]. exact Hvalues.
Qed.

Lemma inProgress_counts_in_flight_witness :
  Stats.inProgress (calculateStats [scenario_A; task_generating; task_ready])
  = length (List.filter (fun t => in_flight (Task.status t))
                        [scenario_A; task_generating; task_ready]).
Proof.
  apply (proj2 (proj2 inProgress_counts_in_flight)
           [scenario_A; task_generating; task_ready]).
  repeat constructor; unfold BatchTaskStatus_values; cbn;
    rewrite !elem_of_cons; tauto.
Defined.

(** ** Groups and the advance button *)

Lemma next_ids_snoc n l t :
  Task.id <$> List.filter (next_is n) (l ++ [t])
  = ((Task.id <$> List.filter (next_is n) l)
     ++ if next_is n t then [Task.id t] else [])%list.
Proof.
  rewrite List.filter_app, fmap_app. cbn.
  destruct (next_is n t); reflexivity.
Qed.

(** The fold of [groupTasksBySegmentIndex] over the tasks to process. *)
Lemma group_fold_lookup (l : list BatchTask) (g : gmap nat (list string)) :
  foldl (fun acc task =>
           segmentGroups ← acc;
           nextSeg ← getNextSegmentIndex task;
           match nextSeg with
           | Some nextSeg => mret (group_push segmentGroups nextSeg (Task.id task))
           | None => mret segmentGroups
           end)
        (mret ∅) l = Normal g ->
  Forall (fun t => exists r, getNextSegmentIndex t = Normal r) l
  /\ forall n, g !! n = match Task.id <$> List.filter (next_is n) l with
                        | [] => None
                        | ids => Some ids
                        end.
Proof.
  revert g. induction l as [|t l IH] using rev_ind; intros g.
  - cbn. intros [= <-]. split; [constructor|]. intros n. apply lookup_empty.
  - rewrite foldl_snoc.
    destruct (foldl _ _ l) as [g0|e] eqn:Hfold; cbn; [|discriminate].
    destruct (IH g0 eq_refl) as [Hall Hlook].
    destruct (getNextSegmentIndex t) as [[m|]|e] eqn:Hnext; cbn; [| |discriminate].
    + intros [= <-]. split.
      * apply Forall_app. split; [exact Hall|]. constructor; [eauto|constructor].
      * intros n. rewrite next_ids_snoc. unfold next_is at 2. rewrite Hnext.
        unfold group_push. rewrite lookup_insert.
        destruct (decide (m = n)) as [->|Hne].
        -- rewrite Nat.eqb_refl, Hlook.
           destruct (Task.id <$> List.filter (next_is n) l); reflexivity.
        -- apply Nat.eqb_neq in Hne. rewrite Hne, app_nil_r. apply Hlook.
    + intros [= <-]. split.
      * apply Forall_app. split; [exact Hall|]. constructor; [eauto|constructor].
      * intros n. rewrite next_ids_snoc. unfold next_is at 2. rewrite Hnext.
        rewrite app_nil_r. apply Hlook.
Qed.

Lemma group_fold_returns (l : list BatchTask) :
  Forall (fun t => exists r, getNextSegmentIndex t = Normal r) l ->
  exists g,
    foldl (fun acc task =>
             segmentGroups ← acc;
             nextSeg ← getNextSegmentIndex task;
             match nextSeg with
             | Some nextSeg => mret (group_push segmentGroups nextSeg (Task.id task))
             | None => mret segmentGroups
             end)
          (mret ∅) l = Normal g.
Proof.
  induction l as [|t l IH] using rev_ind; intros Hall; [eexists; reflexivity|].
  apply Forall_app in Hall as [Hl Ht]. apply Forall_cons in Ht as [[r Hr] _].
  destruct (IH Hl) as [g Hg]. rewrite foldl_snoc, Hg. cbn. rewrite Hr. cbn.
  destruct r; eexists; reflexivity.
Qed.

Lemma calculatePendingSegments_Normal_inv tasks sel ps :
  calculatePendingSegments tasks sel = Normal ps ->
  Forall (fun t => exists r, getNextSegmentIndex t = Normal r) (tasksToProcess tasks sel).
Proof.
  unfold calculatePendingSegments.
  destruct (mapM _ _) as [contributions|e] eqn:Hm; cbn; [|discriminate].
  intros _. apply mapM_Normal_Forall2 in Hm.
  apply Forall_lookup. intros i t Ht.
  assert (Hi : imap pair (tasksToProcess tasks sel) !! i = Some (i, t)).
  { rewrite list_lookup_imap, Ht. reflexivity. }
  destruct (Forall2_lookup_l _ _ _ _ _ Hm Hi) as (c & _ & Hc). cbn in Hc.
  unfold pending_of in Hc.
  destruct (getNextSegmentIndex t) as [r|e]; [eauto|discriminate].
Qed.

Lemma pending_of_all_returns (l : list BatchTask) (f : nat -> nat) :
  Forall (fun t => exists r, getNextSegmentIndex t = Normal r) l ->
  Forall (fun it => exists c, pending_of it.1 it.2 = Normal c) (imap (fun i => pair (f i)) l).
Proof.
  intros Hall. revert f. induction Hall as [|t l Ht _ IH]; intros f; cbn; [constructor|].
  constructor; [apply pending_of_returns, Ht|]. apply (IH (f ∘ S)).
Qed.

(** X3. The groups hold, under each segment index, the ids of the tasks to
    process whose next segment has that index, in the order of the tasks;
    there is no empty group.  The groups are computed exactly when the
    pending segments are: whenever the next segment of every task to
    process can be computed. *)
Theorem groupTasksBySegmentIndex_groups tasks sel :
  (forall g,
      groupTasksBySegmentIndex tasks sel = Normal g ->
      forall n,
        default [] (g !! n)
        = Task.id <$> List.filter (next_is n) (tasksToProcess tasks sel)
        /\ g !! n <> Some [])
  /\ ((exists g, groupTasksBySegmentIndex tasks sel = Normal g)
      <-> Forall (fun t => exists r, getNextSegmentIndex t = Normal r)
                 (tasksToProcess tasks sel))
  /\ ((exists g, groupTasksBySegmentIndex tasks sel = Normal g)
      <-> exists ps, calculatePendingSegments tasks sel = Normal ps).
Proof.
  assert (Hiff : (exists g, groupTasksBySegmentIndex tasks sel = Normal g)
                 <-> Forall (fun t => exists r, getNextSegmentIndex t = Normal r)
                            (tasksToProcess tasks sel)).
  { split.
    - intros [g Hg]. apply (group_fold_lookup _ g Hg).
    - apply group_fold_returns. }
  split; [|split; [exact Hiff|]].
  - intros g Hg n. destruct (group_fold_lookup _ g Hg) as [_ Hlook].
    rewrite Hlook.
    destruct (Task.id <$> List.filter (next_is n) (tasksToProcess tasks sel));
      split; [reflexivity|discriminate|reflexivity|discriminate].
  - rewrite Hiff. split.
    + intros Hall. unfold calculatePendingSegments.
      destruct (mapM_Normal_total
                  (fun '(idx, task) => pending_of idx task)
                  (imap pair (tasksToProcess tasks sel))) as [r Hr].
      * eapply Forall_impl; [apply (pending_of_all_returns _ (fun i => i) Hall)|].
        intros [i t] Hit. exact Hit.
      * rewrite Hr. cbn. eauto.
    + intros [ps Hps]. eapply calculatePendingSegments_Normal_inv, Hps.
Qed.

Lemma groupTasksBySegmentIndex_groups_witness :
  exists g,
    groupTasksBySegmentIndex [scenario_A; task_generating; task_short_storyboard] [] = Normal g
    /\ default [] (g !! 2) = ["recA"; "recS"]
    /\ g !! 0 <> Some [].
Proof.
  eexists. split; [vm_compute; reflexivity|].
  destruct (proj1 (groupTasksBySegmentIndex_groups
                     [scenario_A; task_generating; task_short_storyboard] [])
                  _ eq_refl 2) as [Hids _].
  destruct (proj1 (groupTasksBySegmentIndex_groups
                     [scenario_A; task_generating; task_short_storyboard] [])
                  _ eq_refl 0) as [_ Hne].
  split; [exact Hids|exact Hne].
Defined.

Lemma sum_list_Permutation (l k : list nat) :
  l ≡ₚ k -> sum_list l = sum_list k.
Proof. induction 1; cbn; lia. Qed.

Lemma foldl_sum_length {A} (l : list (list A)) (a : nat) :
  foldl (fun sum ids => sum + length ids) a l = a + sum_list (length <$> l).
Proof.
  revert a. induction l as [|x l IH]; intros a; cbn; [lia|]. rewrite IH. lia.
Qed.

(** [Object.values] of the groups, in any order. *)
Lemma group_values_Permutation (g : gmap nat (list string)) :
  (fun k => default [] (g !! k)) <$> sorted_keys g ≡ₚ snd <$> map_to_list g.
Proof.
  unfold sorted_keys. rewrite merge_sort_Permutation, <- list_fmap_compose.
  assert (Heq : (fun k => default [] (g !! k)) ∘ fst <$> map_to_list g
                = snd <$> map_to_list g); [|rewrite Heq; reflexivity].
  apply Forall_fmap_ext_1, Forall_forall.
  intros [k ids] Hin. apply elem_of_map_to_list in Hin. cbn. rewrite Hin. reflexivity.
Qed.

Lemma readyCount_sum (g : gmap nat (list string)) :
  readyCount g = sum_list (length <$> (snd <$> map_to_list g)).
Proof.
  unfold readyCount. rewrite foldl_sum_length. cbn.
  apply sum_list_Permutation, fmap_Permutation, group_values_Permutation.
Qed.

Lemma readyCount_empty : readyCount ∅ = 0.
Proof. rewrite readyCount_sum, map_to_list_empty. reflexivity. Qed.

Lemma readyCount_group_push (g : gmap nat (list string)) k x :
  readyCount (group_push g k x) = S (readyCount g).
Proof.
  rewrite !readyCount_sum. unfold group_push.
  destruct (g !! k) as [ids|] eqn:Hk; cbn.
  - rewrite <- insert_delete_eq.
    rewrite (sum_list_Permutation _ _
               (fmap_Permutation _ _ _
                  (fmap_Permutation snd _ _
                     (map_to_list_insert (delete k g) k (ids ++ [x])%list
                        (lookup_delete_eq g k))))).
    rewrite <- (sum_list_Permutation _ _
                  (fmap_Permutation _ _ _
                     (fmap_Permutation snd _ _ (map_to_list_delete g k ids Hk)))).
    cbn. rewrite length_app. cbn. lia.
  - rewrite (sum_list_Permutation _ _
               (fmap_Permutation _ _ _
                  (fmap_Permutation snd _ _ (map_to_list_insert g k [x] Hk)))).
    reflexivity.
Qed.

Lemma group_fold_readyCount (l : list BatchTask) (g : gmap nat (list string)) :
  foldl (fun acc task =>
           segmentGroups ← acc;
           nextSeg ← getNextSegmentIndex task;
           match nextSeg with
           | Some nextSeg => mret (group_push segmentGroups nextSeg (Task.id task))
           | None => mret segmentGroups
           end)
        (mret ∅) l = Normal g ->
  readyCount g = length (List.filter has_next l).
Proof.
  revert g. induction l as [|t l IH] using rev_ind; intros g.
  - cbn. intros [= <-]. apply readyCount_empty.
  - rewrite foldl_snoc, List.filter_app, length_app.
    destruct (foldl _ _ l) as [g0|e] eqn:Hfold; cbn; [|discriminate].
    unfold has_next at 2.
    destruct (getNextSegmentIndex t) as [[m|]|e] eqn:Hnext; cbn; [| |discriminate].
    + intros [= <-]. rewrite readyCount_group_push, (IH g0 eq_refl). lia.
    + intros [= <-]. rewrite (IH g0 eq_refl). lia.
Qed.

Lemma omap_id_length {A} (l : list (option A)) :
  length (omap (fun c => c) l) = length (List.filter (fun c => bool_decide (is_Some c)) l).
Proof.
  induction l as [|[a|] l IH]; cbn; [reflexivity| |exact IH].
  rewrite IH. reflexivity.
Qed.

Lemma pending_of_has_pending idx t c :
  pending_of idx t = Normal c -> has_pending t = bool_decide (is_Some c).
Proof.
  unfold pending_of, has_pending.
  destruct (getNextSegmentIndex t) as [[n|]|e]; [| |discriminate];
    change (Normal ?x ≫= ?k) with (k x); cbn beta iota.
  - rewrite Nat.ltb_antisym.
    destruct (length _ <=? n)%nat; cbn [negb].
    + intros [= <-]. reflexivity.
    + destruct (input_frame _ _ _) as [u lbl]. intros [= <-]. reflexivity.
  - intros [= <-]. reflexivity.
Qed.

Lemma pending_fold_length (l : list BatchTask) (f : nat -> nat) contributions :
  mapM (fun '(idx, task) => pending_of idx task) (imap (fun i => pair (f i)) l)
  = Normal contributions ->
  length (omap (fun c => c) contributions) = length (List.filter has_pending l).
Proof.
  revert f contributions. induction l as [|t l IH]; intros f contributions.
  - cbn. intros [= <-]. reflexivity.
  - rewrite imap_cons.
    change (mapM ?g (?x :: ?k)) with (y ← g x; r ← mapM g k; mret (y :: r)).
    cbn beta iota.
    destruct (pending_of (f 0) t) as [c|e] eqn:Hc; [|discriminate].
    change (Normal c ≫= ?k) with (k c). cbn beta.
    destruct (mapM _ _) as [rest|e] eqn:Hm; [|discriminate].
    intros [= <-]. specialize (IH (f ∘ S) rest Hm).
    cbn [List.filter]. rewrite (pending_of_has_pending _ _ _ Hc).
    destruct c; cbn; rewrite IH; reflexivity.
Qed.

Lemma has_pending_has_next t : has_pending t = true -> has_next t = true.
Proof.
  unfold has_pending, has_next. destruct (getNextSegmentIndex t) as [[n|]|e]; auto.
Qed.

Lemma filter_length_le_impl {A} (p q : A -> bool) (l : list A) :
  (forall x, p x = true -> q x = true) ->
  length (List.filter p l) <= length (List.filter q l).
Proof.
  intros Hpq. induction l as [|x l IH]; cbn; [lia|].
  destruct (p x) eqn:Hp; [rewrite (Hpq x Hp); cbn; lia|].
  destruct (q x); cbn; lia.
Qed.

(** X4. The count shown on the advance button is the number of tasks to process
    that have a next segment, while the batch-edit modal lists only those
    whose next segment is also an entry of the storyboard text.  So the
    modal never lists more segments than the button counts, and clicking
    the button opens the modal exactly when some task to process has such a
    segment; otherwise it only reports that nothing can be advanced, also
    when the button counts tasks. *)
Theorem advance_button_counts tasks sel g ps :
  groupTasksBySegmentIndex tasks sel = Normal g ->
  calculatePendingSegments tasks sel = Normal ps ->
  readyCount g = length (List.filter has_next (tasksToProcess tasks sel))
  /\ length ps = length (List.filter has_pending (tasksToProcess tasks sel))
  /\ length ps <= readyCount g
  /\ (handleAdvanceNextStep ps = [Dispatch (SET_SHOW_BATCH_EDIT_MODAL true)]
      <-> exists t, t ∈ tasksToProcess tasks sel /\ has_pending t = true)
  /\ (handleAdvanceNextStep ps
      = [Toast "没有可以推进的任务（请先选择记录、生成分镜或等待上一段完成）" toast_info]
      <-> Forall (fun t => has_pending t = false) (tasksToProcess tasks sel)).
Proof.
  intros Hg Hps.
  assert (Hready := group_fold_readyCount _ _ Hg).
  assert (Hlen : length ps = length (List.filter has_pending (tasksToProcess tasks sel))).
  { unfold calculatePendingSegments in Hps.
    destruct (mapM _ _) as [contributions|e] eqn:Hm; cbn in Hps; [|discriminate].
    injection Hps as <-. apply (pending_fold_length _ (fun i => i)), Hm. }
  split; [exact Hready|]. split; [exact Hlen|]. split.
  { rewrite Hlen, Hready. apply filter_length_le_impl, has_pending_has_next. }
  unfold handleAdvanceNextStep. rewrite Hlen. split.
  - destruct (List.filter has_pending (tasksToProcess tasks sel)) as [|t l] eqn:Hf; cbn.
    + split; [discriminate|]. intros (t & Ht & Hp).
      assert (Hin : t ∈ List.filter has_pending (tasksToProcess tasks sel)).
      { apply list_elem_of_In, filter_In. split; [apply list_elem_of_In, Ht|exact Hp]. }
      rewrite Hf in Hin. inversion Hin.
    + split; [|reflexivity]. intros _. exists t.
      assert (Hin : In t (List.filter has_pending (tasksToProcess tasks sel))).
      { rewrite Hf. left. reflexivity. }
      apply filter_In in Hin as [Hin Hp]. split; [apply list_elem_of_In, Hin|exact Hp].
  - destruct (List.filter has_pending (tasksToProcess tasks sel)) as [|t l] eqn:Hf; cbn.
    + split; [|reflexivity]. intros _. apply Forall_forall. intros t Ht.
      destruct (has_pending t) eqn:Hp; [|reflexivity].
      assert (Hin : In t (List.filter has_pending (tasksToProcess tasks sel))).
      { apply filter_In. split; [apply list_elem_of_In, Ht|exact Hp]. }
      rewrite Hf in Hin. destruct Hin.
    + split; [discriminate|]. intros Hall.
      assert (Hin : In t (List.filter has_pending (tasksToProcess tasks sel))).
      { rewrite Hf. left. reflexivity. }
      apply filter_In in Hin as [Hin Hp].
      rewrite Forall_forall in Hall. rewrite (Hall t) in Hp; [discriminate|].
      apply list_elem_of_In, Hin.
Qed.

Lemma advance_button_counts_witness :
  exists g ps,
    groupTasksBySegmentIndex [task_short_storyboard] [] = Normal g
    /\ calculatePendingSegments [task_short_storyboard] [] = Normal ps
    /\ readyCount g = 1
    /\ length ps = 0
    /\ handleAdvanceNextStep ps
       = [Toast "没有可以推进的任务（请先选择记录、生成分镜或等待上一段完成）" toast_info].
Proof.
  eexists _, _. split; [vm_compute; reflexivity|]. split; [vm_compute; reflexivity|].
  destruct (advance_button_counts [task_short_storyboard] [] _ _ eq_refl eq_refl)
    as (Hready & Hlen & _ & _ & Htoast).
  split; [exact Hready|]. split; [exact Hlen|].
  apply Htoast. repeat constructor.
Defined.

(** * Further properties of the page state *)

Lemma coherent_step state action :
  coherent state -> coherent (pageReducer state action).
Proof.
  unfold coherent. intros [Herr Hop].
  destruct action; cbn; (split; [intros H|intros H]);
    try discriminate; try reflexivity; try (eexists; reflexivity); auto.
Qed.

(** X5. The status and the error message of the page stay coherent: they are
    in the initial state, and from a coherent state every sequence of
    actions leads to a coherent state.  So whenever the status is [error]
    a message is recorded, and while an operation is in progress none
    is. *)
Theorem coherent_reachable :
  coherent INITIAL_STATE
  /\ forall state actions,
       coherent state -> coherent (foldl pageReducer state actions).
Proof.
  split.
  - split; cbn; [discriminate|reflexivity].
  - intros state actions. revert state.
    induction actions as [|a actions IH]; intros state Hstate; cbn; [exact Hstate|].
    apply IH, coherent_step, Hstate.
Qed.

Lemma coherent_reachable_witness :
  coherent (foldl pageReducer INITIAL_STATE
              [LOAD_TASKS_START; LOAD_TASKS_FAILURE "network"; SET_QUEUE_OPEN true;
               MERGE_START]).
Proof.
  apply (proj2 coherent_reachable INITIAL_STATE).
  split; cbn; [discriminate|reflexivity].
Defined.

Lemma tasksToProcess_stale tasks sel :
  sel <> [] ->
  (forall t, t ∈ tasks -> Task.id t ∉ sel) ->
  tasksToProcess tasks sel = [].
Proof.
  intros Hsel Hstale. unfold tasksToProcess.
  destruct sel as [|x sel]; [contradiction|]. cbn [length Nat.ltb Nat.leb].
  induction tasks as [|t tasks IH]; [reflexivity|]. cbn.
  rewrite bool_decide_eq_false_2 by (apply Hstale; left).
  apply IH. intros t' Ht'. apply Hstale. right. exact Ht'.
Qed.

(** X6. A selection survives every action but [SET_SELECTED_RECORDS], the
    reload of the task list included.  When the reloaded list holds none
    of the selected records, the selection is not taken for an empty one:
    the stage handlers process nothing (they send no request and report an
    empty selection), and no segment is pending. *)
Theorem stale_selection_selects_nothing b state tasks :
  Page.selectedRecordIds state <> [] ->
  (forall t, t ∈ tasks -> Task.id t ∉ Page.selectedRecordIds state) ->
  let state' := pageReducer state (LOAD_TASKS_SUCCESS tasks) in
  (forall action,
      (forall ids, action <> SET_SELECTED_RECORDS ids) ->
      Page.selectedRecordIds (pageReducer state action) = Page.selectedRecordIds state)
  /\ Page.tasks state' = tasks
  /\ handleGenerateStoryboards b state' = [Toast "选中的记录为空" toast_info]
  /\ handleMergeVideos b state' = [Toast "选中的记录为空" toast_info]
  /\ calculatePendingSegments (Page.tasks state') (Page.selectedRecordIds state') = Normal []
  /\ groupTasksBySegmentIndex (Page.tasks state') (Page.selectedRecordIds state') = Normal ∅.
Proof.
  intros Hsel Hstale state'.
  assert (Hnone := tasksToProcess_stale tasks _ Hsel Hstale).
  split; [|split; [reflexivity|]].
  { intros action Hne. destruct action; try reflexivity.
    destruct (Hne payload). reflexivity. }
  unfold handleGenerateStoryboards, handleMergeVideos, calculatePendingSegments,
    groupTasksBySegmentIndex.
  subst state'. cbn [pageReducer with_tasks with_status Page.tasks Page.selectedRecordIds].
  rewrite Hnone. cbn.
  destruct (Page.selectedRecordIds state); [contradiction|].
  repeat split; reflexivity.
Qed.

Lemma stale_selection_selects_nothing_witness :
  handleGenerateStoryboards backend_without_save
    (pageReducer (page_of [scenario_A] ["recA"]) (LOAD_TASKS_SUCCESS [task_new]))
  = [Toast "选中的记录为空" toast_info].
Proof.
  apply (stale_selection_selects_nothing backend_without_save
           (page_of [scenario_A] ["recA"]) [task_new]).
  - discriminate.
  - intros t Ht. apply list_elem_of_singleton in Ht as ->.
    intros Hin. apply list_elem_of_singleton in Hin. discriminate.
Defined.

(** ** The handlers settle *)

Lemma run_app state l1 l2 : run state (l1 ++ l2) = run (run state l1) l2.
Proof. unfold run, dispatched. rewrite omap_app, foldl_app. reflexivity. Qed.







(** * Properties of the batch-edit modal *)

Lemma initialStates_lookup (pendingSegments : list PendingSegmentInfo) ps :
  ps ∈ pendingSegments -> is_Some (initialStates pendingSegments !! edit_key ps).
Proof.
  unfold initialStates.
  induction pendingSegments as [|p l IH] using rev_ind; [inversion 1|].
  rewrite foldl_snoc. intros Hin. apply elem_of_app in Hin as [Hin|Hin].
  - destruct (decide (edit_key p = edit_key ps)) as [Heq|Hne].
    + rewrite Heq, lookup_insert_eq. eauto.
    + rewrite lookup_insert_ne by exact Hne. apply IH, Hin.
  - apply list_elem_of_singleton in Hin as ->. rewrite lookup_insert_eq. eauto.
Qed.

Lemma initialize_ready opened pending m :
  ready {| isOpen := opened; pendingSegments := pending;
           modal := initialize opened pending m |}.
Proof.
  unfold ready, initialize. cbn [isOpen pendingSegments modal].
  intros -> Hne. cbn [andb].
  destruct (0 <? length pending)%nat eqn:Hlen.
  - cbn [Modal.currentIndex Modal.editStates]. apply Nat.ltb_lt in Hlen.
    split; [exact Hlen|]. intros ps Hps. apply initialStates_lookup, Hps.
  - destruct pending; [contradiction|discriminate].
Qed.

Lemma handleFieldChange_lookup pendingSegments field value modal key :
  is_Some (Modal.editStates modal !! key) ->
  is_Some (Modal.editStates (handleFieldChange pendingSegments field value modal) !! key).
Proof.
  intros Hkey. unfold handleFieldChange.
  destruct (String.eqb _ ""); [exact Hkey|]. cbn.
  destruct (decide (currentKey pendingSegments modal = key)) as [->|Hne].
  - rewrite lookup_insert_eq. eauto.
  - rewrite lookup_insert_ne by exact Hne. exact Hkey.
Qed.

Lemma step_ready trim s e : ready s -> ready (step trim s e).
Proof.
  intros Hready. destruct s as [opened pending m].
  destruct e as [| |ps| | |idx|field value|b state]; cbn [step isOpen pendingSegments modal].
  - destruct opened; [exact Hready|]. apply initialize_ready.
  - intros [=].
  - apply initialize_ready.
  - destruct (is_editing _); [|exact Hready].
    intros Hopen Hne. destruct (Hready Hopen Hne) as [Hidx Hkeys].
    split; [|exact Hkeys]. cbn [isOpen pendingSegments modal] in *.
    unfold goToPrev. cbn [Modal.currentIndex with_currentIndex].
    destruct (0 <? Modal.currentIndex m)%nat; lia.
  - destruct (is_editing _); [|exact Hready].
    intros Hopen Hne. destruct (Hready Hopen Hne) as [Hidx Hkeys].
    split; [|exact Hkeys]. cbn [isOpen pendingSegments modal] in *.
    unfold goToNext. cbn [Modal.currentIndex with_currentIndex].
    destruct (Z.ltb_spec (Z.of_nat (Modal.currentIndex m))
                (Z.of_nat (length pending) - 1)); lia.
  - destruct (is_editing _ && _ && _) eqn:Hguard; [|exact Hready].
    apply andb_prop in Hguard as [_ Hidx]. apply Nat.ltb_lt in Hidx.
    intros Hopen Hne. destruct (Hready Hopen Hne) as [_ Hkeys].
    split; [exact Hidx|exact Hkeys].
  - destruct (is_editing _ && _); [|exact Hready].
    intros Hopen Hne. destruct (Hready Hopen Hne) as [Hidx Hkeys].
    split.
    + unfold handleFieldChange. destruct (String.eqb _ ""); exact Hidx.
    + intros ps Hps. apply handleFieldChange_lookup, Hkeys, Hps.
  - destruct (is_editing _); [|exact Hready].
    intros Hopen Hne. destruct (Hready Hopen Hne) as [Hidx Hkeys].
    cbn [isOpen pendingSegments modal] in *.
    unfold handleConfirm.
    destruct (mapM _ _) as [edits|err]; [destruct (handleBatchEditConfirm _ _ _)|];
      split; assumption.
Qed.

(** X8. The modal stays ready: before it is first opened it is, and every
    event keeps it so.  Hence after any sequence of openings, closings,
    changes of the pending segments, navigation steps, edits and
    confirmations, an open modal with pending segments has its current
    index inside the list and an edit state for every pending segment. *)
Theorem modal_stays_ready trim :
  ready closed_modal
  /\ forall s events, ready s -> ready (foldl (step trim) s events).
Proof.
  split.
  - intros [=].
  - intros s events. revert s.
    induction events as [|e events IH]; intros s Hs; cbn; [exact Hs|].
    apply IH, step_ready, Hs.
Qed.

(** ** Confirmation *)

Lemma call_trim_Normal trim v s :
  call_trim trim v = Normal s -> exists s', v = VStr s' /\ s = trim s'.
Proof. destruct v; cbn; intros [=]. eauto. Qed.

Lemma call_trim_is_string trim v :
  is_string v = true -> call_trim trim v = Normal (trim match v with VStr s => s | _ => "" end).
Proof. destruct v; cbn; intros [=]. reflexivity. Qed.

Lemma call_trim_raises trim v :
  is_string v = false -> exists m, call_trim trim v = Throw (TypeError m).
Proof. destruct v; cbn; intros [=]; eexists; reflexivity. Qed.

Lemma edit_of_Normal trim states ps e :
  edit_of trim states ps = Normal e ->
  Edit.taskId e = Pending.taskId ps
  /\ Edit.projectId e = Pending.projectId ps
  /\ Edit.segmentIndex e = Pending.segmentIndex ps
  /\ exists state,
       states !! edit_key ps = Some state
       /\ all_strings state = true
       /\ Edit.isModified e = Modal.isModified state.
Proof.
  unfold edit_of. destruct (states !! edit_key ps) as [state|]; [|discriminate].
  unfold all_strings.
  destruct state as [v1 v2 v3 v4 v5 v6 v7 v8 modified]; cbn [Modal.crucial Modal.action
    Modal.sound Modal.negative_constraint Modal.crucial_zh Modal.action_zh Modal.sound_zh
    Modal.negative_constraint_zh Modal.isModified].
  destruct v1; try discriminate; destruct v2; try discriminate;
    destruct v3; try discriminate; destruct v4; try discriminate;
    destruct v5; try discriminate; destruct v6; try discriminate;
    destruct v7; try discriminate; destruct v8; try discriminate.
  cbn. intros [= <-]. cbn. repeat split. eexists. repeat split.
Qed.

Lemma edit_of_returns trim states ps state :
  states !! edit_key ps = Some state ->
  all_strings state = true ->
  exists e, edit_of trim states ps = Normal e.
Proof.
  unfold edit_of, all_strings. intros ->.
  destruct state as [v1 v2 v3 v4 v5 v6 v7 v8 modified]; cbn [Modal.crucial Modal.action
    Modal.sound Modal.negative_constraint Modal.crucial_zh Modal.action_zh Modal.sound_zh
    Modal.negative_constraint_zh Modal.isModified].
  destruct v1; try discriminate; destruct v2; try discriminate;
    destruct v3; try discriminate; destruct v4; try discriminate;
    destruct v5; try discriminate; destruct v6; try discriminate;
    destruct v7; try discriminate; destruct v8; try discriminate.
  intros _. eexists. reflexivity.
Qed.

Lemma bind_raises {A B} (r : result A) (k : A -> result B) m :
  r = Throw (TypeError m) -> r ≫= k = Throw (TypeError m).
Proof. intros ->. reflexivity. Qed.

Lemma bind_TypeError {A B} (r : result A) (k : A -> result B) :
  (exists m, r = Throw (TypeError m)) \/
  (exists a, r = Normal a /\ exists m, k a = Throw (TypeError m)) ->
  exists m, r ≫= k = Throw (TypeError m).
Proof.
  intros [[m ->]|(a & -> & m & Hk)]; exists m; [reflexivity|exact Hk].
Qed.

Lemma edit_of_raises trim states ps :
  (forall state, states !! edit_key ps = Some state -> all_strings state = false) ->
  exists m, edit_of trim states ps = Throw (TypeError m).
Proof.
  unfold edit_of, all_strings. intros Hbad.
  destruct (states !! edit_key ps) as [state|]; [|eexists; reflexivity].
  specialize (Hbad state eq_refl).
  destruct state as [v1 v2 v3 v4 v5 v6 v7 v8 modified]; cbn [Modal.crucial Modal.action
    Modal.sound Modal.negative_constraint Modal.crucial_zh Modal.action_zh Modal.sound_zh
    Modal.negative_constraint_zh Modal.isModified] in *.
  repeat match goal with
         | |- exists m, call_trim trim ?v ≫= _ = _ =>
             destruct (is_string v) eqn:?;
             [rewrite (call_trim_is_string trim v) by assumption;
              change (Normal ?x ≫= ?k) with (k x); cbn beta
             |destruct (call_trim_raises trim v) as [m ->]; [assumption|];
              exists m; reflexivity]
         end.
  cbn in Hbad. discriminate.
Qed.

Lemma mapM_edit_of_Forall2 trim states pending edits :
  mapM (edit_of trim states) pending = Normal edits ->
  Forall2 (fun ps e => edit_of trim states ps = Normal e) pending edits.
Proof. apply mapM_Normal_Forall2. Qed.

Lemma group_ids_pending trim states pending edits k :
  Forall2 (fun ps e => edit_of trim states ps = Normal e) pending edits ->
  group_ids edits k
  = Pending.taskId <$> List.filter (fun ps => (Pending.segmentIndex ps =? k)%nat) pending.
Proof.
  unfold group_ids. induction 1 as [|ps e pending edits He _ IH]; [reflexivity|].
  destruct (edit_of_Normal _ _ _ _ He) as (Hid & _ & Hidx & _).
  cbn [List.filter]. rewrite Hidx.
  destruct (Pending.segmentIndex ps =? k)%nat;
    rewrite ?fmap_cons, ?Hid, IH; reflexivity.
Qed.

Lemma pending_of_advances idx t c k :
  pending_of idx t = Normal c ->
  match c with
  | Some p => Pending.taskId p = Task.id t /\ advances k t = (Pending.segmentIndex p =? k)%nat
  | None => advances k t = false
  end.
Proof.
  intros Hc. unfold advances. rewrite (pending_of_has_pending _ _ _ Hc).
  destruct c as [p|].
  - destruct (pending_of_Some _ _ _ Hc) as (Hnext & _ & Hid & _).
    split; [exact Hid|]. unfold next_is. rewrite Hnext. cbn. apply andb_true_r.
  - apply andb_false_r.
Qed.

Lemma pending_fold_ids (l : list BatchTask) (f : nat -> nat) contributions k :
  mapM (fun '(idx, task) => pending_of idx task) (imap (fun i => pair (f i)) l)
  = Normal contributions ->
  Pending.taskId
    <$> List.filter (fun ps => (Pending.segmentIndex ps =? k)%nat)
          (omap (fun c => c) contributions)
  = Task.id <$> List.filter (advances k) l.
Proof.
  revert f contributions. induction l as [|t l IH]; intros f contributions.
  - cbn. intros [= <-]. reflexivity.
  - rewrite imap_cons.
    change (mapM ?g (?x :: ?r)) with (y ← g x; z ← mapM g r; mret (y :: z)).
    cbn beta iota.
    destruct (pending_of (f 0) t) as [c|e] eqn:Hc; [|discriminate].
    change (Normal c ≫= ?g) with (g c). cbn beta.
    destruct (mapM _ _) as [rest|e] eqn:Hm; [|discriminate].
    intros [= <-]. specialize (IH (f ∘ S) rest Hm).
    pose proof (pending_of_advances _ _ _ k Hc) as Hadv.
    destruct c as [p|].
    + change (omap ?g (Some p :: rest)) with (p :: omap g rest).
      destruct Hadv as [Hid Hadv]. cbn [List.filter]. rewrite Hadv.
      destruct (Pending.segmentIndex p =? k)%nat;
        rewrite ?fmap_cons, ?Hid, IH; reflexivity.
    + change (omap ?g (None :: rest)) with (omap g rest).
      cbn [List.filter]. rewrite Hadv. exact IH.
Qed.

Lemma calculatePendingSegments_ids tasks sel pending k :
  calculatePendingSegments tasks sel = Normal pending ->
  Pending.taskId <$> List.filter (fun ps => (Pending.segmentIndex ps =? k)%nat) pending
  = Task.id <$> List.filter (advances k) (tasksToProcess tasks sel).
Proof.
  unfold calculatePendingSegments.
  destruct (mapM _ _) as [contributions|e] eqn:Hm; cbn; [|discriminate].
  intros [= <-]. apply (pending_fold_ids _ (fun i => i)), Hm.
Qed.

Lemma fmap_filter_nonempty {A B} (f : A -> B) (p : A -> bool) (l : list A) :
  f <$> List.filter p l <> [] <-> exists x, x ∈ l /\ p x = true.
Proof.
  split.
  - destruct (List.filter p l) as [|x r] eqn:Hf; [intros H; destruct (H eq_refl)|].
    intros _. assert (Hin : In x (List.filter p l)) by (rewrite Hf; left; reflexivity).
    apply filter_In in Hin as [Hin Hp]. exists x. split; [apply list_elem_of_In, Hin|exact Hp].
  - intros (x & Hx & Hp) Hnil. apply fmap_nil_inv in Hnil.
    assert (Hin : In x (List.filter p l)).
    { apply filter_In. split; [apply list_elem_of_In, Hx|exact Hp]. }
    rewrite Hnil in Hin. destruct Hin.
Qed.

(** X9. From the pending segments to the generation requests.  When the
    pending segments of the page are confirmed in the modal and the edited
    prompts are saved, the page sends one generation request per segment
    index to which some task to process advances, in ascending order of
    the index, and the request for index [k] lists exactly the tasks to
    process whose next segment is [k] (and is an entry of their storyboard
    text), in task order: whatever was edited, no request asks for a
    segment other than the next one of each of its tasks. *)
Theorem confirmed_requests_next_segments trim b state tasks sel pending m edits :
  calculatePendingSegments tasks sel = Normal pending ->
  mapM (edit_of trim (Modal.editStates m)) pending = Normal edits ->
  (forall e, ~ save_raises b state edits e) ->
  exists indices,
    StronglySorted Nat.lt indices
    /\ (forall k, k ∈ indices
                  <-> exists t, t ∈ tasksToProcess tasks sel /\ advances k t = true)
    /\ generation_calls (handleConfirm trim b state pending m).1
       = (fun k => (k, Task.id <$> List.filter (advances k) (tasksToProcess tasks sel)))
           <$> indices.
Proof.
  intros Hpending Hedits Hsave.
  assert (Hids : forall k, group_ids edits k
                           = Task.id <$> List.filter (advances k) (tasksToProcess tasks sel)).
  { intros k.
    rewrite (group_ids_pending trim _ pending edits k (mapM_edit_of_Forall2 _ _ _ _ Hedits)).
    apply calculatePendingSegments_ids, Hpending. }
  exists (sorted_keys (edit_groups edits)).
  split; [apply sorted_keys_sorted|]. split.
  - intros k.
    rewrite sorted_keys_elem, edit_groups_lookup,
      <- (fmap_filter_nonempty Task.id (advances k)), <- Hids.
    destruct (group_ids edits k); split; try discriminate; eauto.
    + intros [? [=]].
    + intros H. destruct (H eq_refl).
  - unfold handleConfirm. rewrite Hedits.
    destruct (handleBatchEditConfirm b state edits) as [effects res] eqn:Hconfirm.
    cbn [fst].
    destruct (handleBatchEditConfirm_saved b state edits Hsave) as [Hcalls _].
    rewrite Hconfirm in Hcalls. cbn [fst] in Hcalls. rewrite Hcalls.
    destruct (generate_groups_spec b state (edit_groups edits)
                (sorted_keys (edit_groups edits)) 0 0) as [-> _].
    apply list_fmap_ext. intros _ k _. rewrite edit_groups_default, Hids. reflexivity.
Qed.

(** X10. What a confirmation does, in a ready modal that is open on pending
    segments.  It always ends in the status completed.  When every field
    of every pending segment holds a string, the page's batch confirmation
    is called with one edit per pending segment, in order, for the same
    task, project and segment index, and the modal records its counts
    (with an error text exactly when it reports no success).  When some
    field of a pending segment holds anything else, as a storyboard text
    with a number for a prompt makes it, trimming raises a TypeError
    before anything is sent: the page sees no effect at all and the modal
    shows the error. *)
Theorem handleConfirm_outcome trim b state s :
  ready s ->
  isOpen s = true ->
  pendingSegments s <> [] ->
  let states := Modal.editStates (modal s) in
  let r := handleConfirm trim b state (pendingSegments s) (modal s) in
  Modal.status r.2 = Modal.completed
  /\ ((forall ps st, ps ∈ pendingSegments s -> states !! edit_key ps = Some st ->
                     all_strings st = true) ->
      exists edits,
        Forall2 (fun ps e => Edit.taskId e = Pending.taskId ps
                             /\ Edit.projectId e = Pending.projectId ps
                             /\ Edit.segmentIndex e = Pending.segmentIndex ps)
                (pendingSegments s) edits
        /\ r.1 = (handleBatchEditConfirm b state edits).1
        /\ Modal.result r.2
           = Some (Confirm.successCount (handleBatchEditConfirm b state edits).2,
                   Confirm.failedCount (handleBatchEditConfirm b state edits).2)
        /\ (Modal.error r.2 = None
            <-> Confirm.success (handleBatchEditConfirm b state edits).2 = true))
  /\ ((exists ps st, ps ∈ pendingSegments s /\ states !! edit_key ps = Some st
                     /\ all_strings st = false) ->
      r.1 = []
      /\ Modal.result r.2 = Modal.result (modal s)
      /\ exists m, Modal.error r.2 = Some m).
Proof.
  intros Hready Hopen Hne states r. subst states r.
  destruct (Hready Hopen Hne) as [_ Hkeys].
  split; [|split].
  - unfold handleConfirm.
    destruct (mapM _ _); [destruct (handleBatchEditConfirm _ _ _)|]; reflexivity.
  - intros Hstrings.
    destruct (mapM_Normal_total (edit_of trim (Modal.editStates (modal s)))
                (pendingSegments s)) as [edits Hedits].
    { apply Forall_forall. intros ps Hps.
      destruct (Hkeys ps Hps) as [st Hst].
      eapply edit_of_returns; [exact Hst|]. eapply Hstrings; eassumption. }
    exists edits. split.
    { apply mapM_Normal_Forall2 in Hedits.
      eapply Forall2_impl; [exact Hedits|]. intros ps e He.
      destruct (edit_of_Normal _ _ _ _ He) as (H1 & H2 & H3 & _). auto. }
    unfold handleConfirm. rewrite Hedits.
    destruct (handleBatchEditConfirm b state edits) as [effects res]. cbn.
    split; [reflexivity|]. split; [reflexivity|].
    destruct (Confirm.success res); split; try reflexivity; discriminate.
  - intros (ps & st & Hps & Hst & Hbad).
    assert (Hraises : exists e, mapM (edit_of trim (Modal.editStates (modal s)))
                                  (pendingSegments s) = Throw e).
    { apply mapM_raises, Exists_exists. exists ps. split; [exact Hps|].
      destruct (edit_of_raises trim (Modal.editStates (modal s)) ps) as [m Hm]; [|eauto].
      intros st' Hst'. congruence. }
    destruct Hraises as [e He]. unfold handleConfirm. rewrite He. cbn.
    split; [reflexivity|]. split; [reflexivity|]. eauto.
Qed.

Lemma events_ready trim events : ready (foldl (step trim) closed_modal events).
Proof.
  assert (Hall : forall s, ready s -> ready (foldl (step trim) s events)).
  { induction events as [|e events IH]; intros s Hs; cbn; [exact Hs|].
    apply IH, step_ready, Hs. }
  apply Hall. intros [=].
Qed.

Lemma modal_stays_ready_witness :
  ready (foldl (step (fun s => s)) closed_modal
           [PendingChanged (pending_segments [scenario_A; task_short_storyboard;
                                              task_numeric_prompt] []);
            Opened; Next; Change Modal.f_crucial "a cat"; Next; Prev;
            PendingChanged []; Next;
            PendingChanged (pending_segments [scenario_A] []);
            Confirmed backend_without_save (page_of [scenario_A] [])]).
Proof.
  apply (proj2 (modal_stays_ready (fun s => s)) closed_modal).
  apply (proj1 (modal_stays_ready (fun s => s))).
Defined.

Lemma handleConfirm_outcome_witness :
  let s := foldl (step (fun s => s)) closed_modal
             [PendingChanged (pending_segments [task_numeric_prompt] []); Opened] in
  let r := handleConfirm (fun s => s) backend_without_save
             (page_of [task_numeric_prompt] []) (pendingSegments s) (modal s) in
  length (pendingSegments s) = 1
  /\ r.1 = []
  /\ Modal.result r.2 = None
  /\ exists m, Modal.error r.2 = Some m.
Proof.
  intros s r.
  destruct (handleConfirm_outcome (fun s => s) backend_without_save
              (page_of [task_numeric_prompt] []) s) as (_ & _ & Hbad).
  - apply events_ready.
  - reflexivity.
  - vm_compute. discriminate.
  - split; [reflexivity|]. apply Hbad.
    eexists _, _. split; [eapply (list_elem_of_lookup_2 _ 0); vm_compute; reflexivity|].
    split; vm_compute; reflexivity.
Defined.

Lemma confirmed_requests_next_segments_witness :
  let tasks := [scenario_A; task_generating; task_new; task_short_storyboard] in
  let pending := pending_segments tasks [] in
  let m := initialize true pending (modal closed_modal) in
  length pending = 1
  /\ exists indices,
       StronglySorted Nat.lt indices
       /\ (forall k, k ∈ indices
                     <-> exists t, t ∈ tasksToProcess tasks [] /\ advances k t = true)
       /\ generation_calls
            (handleConfirm (fun s => s) backend_failing_segment_1 (page_of tasks [])
               pending m).1
          = (fun k => (k, Task.id <$> List.filter (advances k) (tasksToProcess tasks [])))
              <$> indices.
Proof.
  intros tasks pending m. split; [reflexivity|].
  apply (confirmed_requests_next_segments (fun s => s) backend_failing_segment_1
           (page_of tasks []) tasks [] pending m
           match mapM (edit_of (fun s => s) (Modal.editStates m)) pending with
           | Normal edits => edits
           | Throw _ => []
           end).
  - vm_compute. reflexivity.
  - vm_compute. reflexivity.
  - intros e [_ Hsave]. vm_compute in Hsave. discriminate.
Defined.

(** ** The summaries of a batch *)

Lemma summary_join (g : gmap nat (list string)) keys :
  summary g keys
  = join " + " ((fun i => "段" +:+ pretty i +:+ "×"
                          +:+ pretty (length (default [] (g !! i)))) <$> keys).
Proof.
  induction keys as [|k keys IH]; [reflexivity|].
  cbn [summary fmap list_fmap join]. rewrite IH.
  destruct keys; reflexivity.
Qed.

Lemma segment_counts_lookup pending k :
  segment_counts pending !! k
  = match length (List.filter (fun ps => (Pending.segmentIndex ps =? k)%nat) pending) with
    | 0 => None
    | n => Some n
    end.
Proof.
  unfold segment_counts. induction pending as [|p pending IH] using rev_ind; [reflexivity|].
  rewrite foldl_snoc, List.filter_app, length_app. cbn [List.filter].
  destruct (decide (Pending.segmentIndex p = k)) as [->|Hne].
  - rewrite lookup_insert_eq, IH, Nat.eqb_refl. cbn [length].
    destruct (length _); cbn; f_equal; lia.
  - rewrite lookup_insert_ne by exact Hne. rewrite IH.
    apply Nat.eqb_neq in Hne. rewrite Hne. cbn [length]. rewrite Nat.add_0_r. reflexivity.
Qed.

Lemma segment_counts_groups trim states pending edits :
  mapM (edit_of trim states) pending = Normal edits ->
  segment_counts pending = length <$> edit_groups edits.
Proof.
  intros Hedits. apply map_eq. intros k.
  rewrite lookup_fmap, segment_counts_lookup, edit_groups_lookup.
  rewrite (group_ids_pending trim states pending edits k)
    by (apply mapM_Normal_Forall2, Hedits).
  destruct (List.filter _ pending); cbn; rewrite ?length_fmap; reflexivity.
Qed.

Lemma sorted_entries_groups (g : gmap nat (list string)) :
  sorted_entries (length <$> g)
  = (fun k => (k, length (default [] (g !! k)))) <$> sorted_keys g.
Proof.
  assert (Hperm : sorted_entries (length <$> g)
                  ≡ₚ (fun k => (k, length (default [] (g !! k)))) <$> sorted_keys g).
  { unfold sorted_entries, sorted_keys.
    rewrite !merge_sort_Permutation, map_to_list_fmap, <- list_fmap_compose.
    apply eq_subrelation; [typeclasses eauto|].
    apply list_fmap_ext. intros i [k ids] Hin.
    apply list_elem_of_lookup_2, elem_of_map_to_list in Hin. cbn. rewrite Hin. reflexivity. }
  apply (StronglySorted_unique_strong key_le); [| | |exact Hperm].
  - intros [k1 c1] [k2 c2] H1 H2 H12 H21. unfold key_le in *. cbn in *.
    assert (k1 = k2) as -> by lia. f_equal.
    rewrite Hperm in H1.
    apply list_elem_of_fmap in H1 as (k & [= -> ->] & _).
    apply list_elem_of_fmap in H2 as (k' & [= -> ->] & _). reflexivity.
  - apply StronglySorted_merge_sort.
    + intros x y z. unfold key_le. lia.
    + intros x y. unfold key_le. lia.
  - eapply StronglySorted_fmap; [|apply sorted_keys_sorted].
    intros x y Hxy. unfold key_le. cbn. lia.
Qed.

Lemma groups_agree tasks sel pending trim states edits g :
  calculatePendingSegments tasks sel = Normal pending ->
  mapM (edit_of trim states) pending = Normal edits ->
  groupTasksBySegmentIndex tasks sel = Normal g ->
  Forall (fun t => has_next t = true -> has_pending t = true) (tasksToProcess tasks sel) ->
  edit_groups edits = g.
Proof.
  intros Hpending Hedits Hg Hall. apply map_eq. intros k.
  destruct (group_fold_lookup _ g Hg) as [_ Hlook].
  rewrite edit_groups_lookup, Hlook.
  rewrite (group_ids_pending trim states pending edits k)
    by (apply mapM_Normal_Forall2, Hedits).
  rewrite (calculatePendingSegments_ids tasks sel pending k Hpending).
  replace (List.filter (advances k) (tasksToProcess tasks sel))
    with (List.filter (next_is k) (tasksToProcess tasks sel)); [reflexivity|].
  clear Hlook Hg Hpending.
  induction Hall as [|t l Ht _ IH]; [reflexivity|]. cbn [List.filter].
  rewrite IH. unfold advances.
  destruct (next_is k t) eqn:Hnext; [|reflexivity].
  rewrite Ht; [reflexivity|].
  unfold next_is, has_next in *. destruct (getNextSegmentIndex t) as [[n|]|e]; congruence.
Qed.

(** X11. The three summaries of a batch.  For the edits that the modal builds
    from the pending segments, the summary in the header of the modal and
    the summary in the page's completion toast are the text that
    [formatSegmentSummary] gives for the groups of the edits.  It is also
    the preview on the advance button, computed from the groups of the
    task list, provided every task to process that has a next segment has
    it in its storyboard text. *)
Theorem batch_summaries_agree trim states tasks sel pending edits :
  calculatePendingSegments tasks sel = Normal pending ->
  mapM (edit_of trim states) pending = Normal edits ->
  segmentStats pending = formatSegmentSummary (edit_groups edits)
  /\ summary (edit_groups edits) (sorted_keys (edit_groups edits))
     = formatSegmentSummary (edit_groups edits)
  /\ forall g,
       groupTasksBySegmentIndex tasks sel = Normal g ->
       Forall (fun t => has_next t = true -> has_pending t = true)
              (tasksToProcess tasks sel) ->
       formatSegmentSummary g = segmentStats pending.
Proof.
  intros Hpending Hedits.
  assert (Hstats : segmentStats pending = formatSegmentSummary (edit_groups edits)).
  { unfold segmentStats, formatSegmentSummary.
    rewrite (segment_counts_groups trim states pending edits Hedits),
      sorted_entries_groups, <- list_fmap_compose.
    reflexivity. }
  split; [exact Hstats|]. split.
  - rewrite summary_join. reflexivity.
  - intros g Hg Hall.
    rewrite <- (groups_agree tasks sel pending trim states edits g Hpending Hedits Hg Hall).
    symmetry. exact Hstats.
Qed.

Lemma batch_summaries_agree_witness :
  let tasks := [scenario_A; task_generating; task_new; task_fresh] in
  let pending := pending_segments tasks [] in
  segmentStats pending = "段0×1 + 段2×1"
  /\ formatSegmentSummary
       match groupTasksBySegmentIndex tasks [] with Normal g => g | Throw _ => ∅ end
     = "段0×1 + 段2×1".
Proof.
  intros tasks pending.
  destruct (batch_summaries_agree (fun s => s) (initialStates pending) tasks [] pending
              match mapM (edit_of (fun s => s) (initialStates pending)) pending with
              | Normal edits => edits
              | Throw _ => []
              end) as (Hstats & _ & Hpreview).
  - vm_compute. reflexivity.
  - vm_compute. reflexivity.
  - split.
    + rewrite Hstats. vm_compute. reflexivity.
    + rewrite (Hpreview match groupTasksBySegmentIndex tasks [] with
                        | Normal g => g
                        | Throw _ => ∅
                        end).
      * rewrite Hstats. vm_compute. reflexivity.
      * vm_compute. reflexivity.
      * repeat first [apply Forall_nil_2 | apply Forall_cons_2; [vm_compute; congruence|]].
Defined.

(** * Properties of the other handlers *)

(** ** Loading the tasks *)

Lemma toasts_of_app (t1 t2 : trace) :
  toasts_of (t1 ++ t2)%list = (toasts_of t1 ++ toasts_of t2)%list.
Proof. unfold toasts_of, effects_of. rewrite !omap_app. reflexivity. Qed.

Lemma after_app state (t1 t2 : trace) :
  after state (t1 ++ t2)%list = after (after state t1) t2.
Proof. unfold after, effects_of. rewrite omap_app. apply run_app. Qed.

Lemma after_dispatch state action (t : trace) :
  after state (inl (Dispatch action) :: t) = after (pageReducer state action) t.
Proof. reflexivity. Qed.

Lemma after_request state r (t : trace) : after state (inr r :: t) = after state t.
Proof. reflexivity. Qed.

Lemma after_task_toasts last6 previous state (l : list BatchTask) :
  after state (l ≫= task_toasts last6 previous) = state.
Proof.
  induction l as [|t l IH]; [reflexivity|].
  cbn [mbind list_bind]. fold (l ≫= task_toasts last6 previous).
  rewrite after_app.
  replace (after state (task_toasts last6 previous t)) with state; [exact IH|].
  unfold task_toasts.
  destruct (previous !! Task.id t) as [[prev_status ?]|]; [|reflexivity].
  destruct (_ && _); destruct (_ && _); reflexivity.
Qed.

Lemma task_toasts_turned last6 previous t :
  length (toasts_of (task_toasts last6 previous t)) = if turned previous t then 1 else 0.
Proof.
  unfold task_toasts, turned. destruct (previous !! Task.id t) as [[prev_status ?]|];
    [|reflexivity].
  destruct (String.eqb_spec (Task.status t) "failed") as [Hf|Hf];
    destruct (String.eqb_spec (Task.status t) "completed") as [Hc|Hc];
    try (rewrite Hf in Hc; discriminate);
    rewrite ?andb_true_r, ?andb_false_r, ?orb_false_r;
    destruct (String.eqb prev_status "failed");
    destruct (String.eqb prev_status "completed"); reflexivity.
Qed.

Lemma toasts_of_bind last6 previous (l : list BatchTask) :
  length (toasts_of (l ≫= task_toasts last6 previous))
  = length (List.filter (turned previous) l).
Proof.
  induction l as [|t l IH]; [reflexivity|].
  cbn [mbind list_bind List.filter]. rewrite toasts_of_app, length_app, task_toasts_turned.
  fold (l ≫= task_toasts last6 previous). rewrite IH.
  destruct (turned previous t); reflexivity.
Qed.

Lemma remember_snoc (l : list BatchTask) t :
  remember (l ++ [t])%list = <[Task.id t := (Task.status t, Task.errorMessage t)]> (remember l).
Proof. unfold remember. rewrite foldl_snoc. reflexivity. Qed.

Lemma remember_lookup (l : list BatchTask) t :
  NoDup (Task.id <$> l) ->
  t ∈ l ->
  remember l !! Task.id t = Some (Task.status t, Task.errorMessage t).
Proof.
  induction l as [|x l IH] using rev_ind; [inversion 2|].
  rewrite fmap_app, remember_snoc. intros Hnd Hin.
  apply NoDup_app in Hnd as (Hl & Hfresh & _).
  apply elem_of_app in Hin as [Hin|Hin].
  - rewrite lookup_insert_ne; [apply IH; assumption|].
    intros Heq. apply (Hfresh (Task.id t)).
    + apply list_elem_of_fmap. eauto.
    + apply list_elem_of_fmap. exists x. split; [symmetry; exact Heq|left].
  - apply list_elem_of_singleton in Hin as ->. apply lookup_insert_eq.
Qed.

Lemma turned_remembered (l : list BatchTask) t :
  NoDup (Task.id <$> l) -> t ∈ l -> turned (remember l) t = false.
Proof.
  intros Hnd Hin. unfold turned. rewrite (remember_lookup l t Hnd Hin).
  destruct (String.eqb (Task.status t) "failed"),
    (String.eqb (Task.status t) "completed"); reflexivity.
Qed.

Lemma filter_nil_Forall {A} (p : A -> bool) (l : list A) :
  Forall (fun x => p x = false) l -> List.filter p l = [].
Proof.
  induction 1 as [|x l Hx _ IH]; [reflexivity|]. cbn. rewrite Hx. exact IH.
Qed.

(** X12. A successful load of the tasks raises one toast for each task that
    has become failed or completed since the previous load, and no other.
    In particular the first load is silent, and so is a reload of the
    very same tasks, provided their ids are distinct.  The load stores
    the tasks in the page, leaves the status idle, and remembers the
    status of every task for the next load. *)
Theorem loadTasks_toasts last6 b state previous data :
  Feishu.connected (Page.feishuConfig state) = true ->
  Service.loadTasks b (Feishu.tableId (Page.feishuConfig state)) = Normal data ->
  let nextTasks := default [] (Service.tasks data) in
  let r := loadTasks last6 b state previous in
  length (toasts_of r.1) = length (List.filter (turned previous) nextTasks)
  /\ (previous = ∅ -> toasts_of r.1 = [])
  /\ (NoDup (Task.id <$> nextTasks) -> previous = remember nextTasks ->
      toasts_of r.1 = [])
  /\ r.2 = remember nextTasks
  /\ (NoDup (Task.id <$> nextTasks) ->
      forall t, t ∈ nextTasks ->
                r.2 !! Task.id t = Some (Task.status t, Task.errorMessage t))
  /\ Page.tasks (after state r.1) = nextTasks
  /\ Page.status (after state r.1) = idle.
Proof.
  intros Hconnected Hdata nextTasks r. subst r. unfold loadTasks.
  rewrite Hconnected, Hdata. cbn [negb fst snd]. fold nextTasks.
  assert (Hlen : length (toasts_of
                   (inl (Dispatch LOAD_TASKS_START)
                    :: inr (Service.LoadTasksLocal (Feishu.tableId (Page.feishuConfig state)))
                    :: (nextTasks ≫= task_toasts last6 previous)
                    ++ [inl (Dispatch (LOAD_TASKS_SUCCESS nextTasks))])%list)
                 = length (List.filter (turned previous) nextTasks)).
  { change (length (toasts_of ((nextTasks ≫= task_toasts last6 previous)
                               ++ [inl (Dispatch (LOAD_TASKS_SUCCESS nextTasks))])%list)
            = length (List.filter (turned previous) nextTasks)).
    rewrite toasts_of_app, length_app, toasts_of_bind. cbn. lia. }
  split; [exact Hlen|]. split; [|split; [|split; [|split; [|split]]]].
  - intros ->. apply length_zero_iff_nil. rewrite Hlen.
    rewrite filter_nil_Forall; [reflexivity|].
    apply Forall_forall. intros t _. reflexivity.
  - intros Hnd ->. apply length_zero_iff_nil. rewrite Hlen.
    rewrite filter_nil_Forall; [reflexivity|].
    apply Forall_forall. intros t Ht. apply turned_remembered; assumption.
  - reflexivity.
  - intros Hnd t Ht. apply remember_lookup; assumption.
  - rewrite after_dispatch, after_request, after_app, after_task_toasts. reflexivity.
  - rewrite after_dispatch, after_request, after_app, after_task_toasts. reflexivity.
Qed.

Lemma prefix_weaken a b s :
  String.prefix (a +:+ b) s = true -> String.prefix a s = true.
Proof.
  revert s. induction a as [|c a IH]; intros s; [destruct s; reflexivity|].
  rewrite string_app_cons. destruct s as [|d s]; cbn; [discriminate|].
  destruct (Ascii.ascii_dec c d); [apply IH|discriminate].
Qed.

Lemma includes_weaken a b s : includes (a +:+ b) s = true -> includes a s = true.
Proof.
  induction s as [|c s IH]; cbn [includes]; intros [Hp|Hs]%orb_prop.
  - rewrite (prefix_weaken a b _ Hp). reflexivity.
  - discriminate.
  - rewrite (prefix_weaken a b _ Hp). reflexivity.
  - rewrite (IH Hs). apply orb_true_r.
Qed.

(** X13. When the local database answers a load with an error, nothing is
    remembered.  An error text that names a lost connection (the second
    test of the handler is implied by its first) disconnects the page but
    leaves it loading: the status stays [loadingTasks], with no error
    message, so the page keeps an operation in progress that no action of
    this handler ends.  Any other error text ends in the status [error]
    with that text, the page still connected. *)
Theorem loadTasks_failure last6 b state previous e :
  Feishu.connected (Page.feishuConfig state) = true ->
  Service.loadTasks b (Feishu.tableId (Page.feishuConfig state)) = Throw e ->
  let r := loadTasks last6 b state previous in
  let state' := after state r.1 in
  r.2 = previous
  /\ (forall s, includes "未连接飞书表格" s = true -> includes "未连接" s = true)
  /\ (includes "未连接" (message_of e) = true ->
      Page.status state' = loadingTasks
      /\ isOperating (Page.status state') = true
      /\ Page.errorMessage state' = None
      /\ Feishu.connected (Page.feishuConfig state') = false
      /\ toasts_of r.1 = [("连接已断开，请重新连接飞书表格", toast_error)])
  /\ (includes "未连接" (message_of e) = false ->
      Page.status state' = error
      /\ Page.errorMessage state' = Some (message_of e)
      /\ Feishu.connected (Page.feishuConfig state') = true
      /\ toasts_of r.1 = [(message_of e, toast_error)]).
Proof.
  intros Hconnected Hthrow r state'. subst state' r. unfold loadTasks.
  rewrite Hconnected, Hthrow. cbn [negb fst snd].
  assert (Hweak : forall s, includes "未连接飞书表格" s = true -> includes "未连接" s = true).
  { intros s. apply (includes_weaken "未连接" "飞书表格"). }
  split; [reflexivity|]. split; [exact Hweak|]. split.
  - intros Hlost. rewrite Hlost. cbn [orb].
    repeat split; reflexivity.
  - intros Hother. rewrite Hother. cbn [orb].
    destruct (includes "未连接飞书表格" (message_of e)) eqn:Hlonger.
    + rewrite (Hweak _ Hlonger) in Hother. discriminate.
    + cbn. rewrite Hconnected. repeat split; reflexivity.
Qed.

Lemma loadTasks_failure_witness :
  let state := connected_page [scenario_A] [] in
  let r := loadTasks (fun id => id) backend_not_connected state ∅ in
  Page.status (after state r.1) = loadingTasks
  /\ Feishu.connected (Page.feishuConfig (after state r.1)) = false.
Proof.
  intros state r.
  destruct (loadTasks_failure (fun id => id) backend_not_connected state ∅
              (Error "未连接飞书表格，请先连接") eq_refl eq_refl)
    as (_ & _ & Hlost & _).
  destruct (Hlost eq_refl) as (Hstatus & _ & _ & Hconnected & _).
  split; [exact Hstatus|exact Hconnected].
Defined.

Lemma loadTasks_toasts_witness :
  let state := connected_page [scenario_A; task_generating] [] in
  let previous := remember [scenario_A; task_generating] in
  let nextTasks := [scenario_A; with_task_status "failed" (Some "provider timeout")
                                  task_generating] in
  let r := loadTasks (fun id => id) (backend_with_tasks nextTasks) state previous in
  length (toasts_of r.1) = 1
  /\ Page.tasks (after state r.1) = nextTasks.
Proof.
  intros state previous nextTasks r.
  destruct (loadTasks_toasts (fun id => id) (backend_with_tasks nextTasks) state previous
              {| Service.tasks := Some nextTasks |} eq_refl eq_refl)
    as (Hlen & _ & _ & _ & _ & Htasks & _).
  split; [etransitivity; [exact Hlen|reflexivity]|exact Htasks].
Defined.

(** ** Uploading to the drive *)

Lemma tasksToSync_elem state t :
  t ∈ tasksToSync state ->
  t ∈ Page.tasks state
  /\ string_truthy (Task.projectId t) = true
  /\ (Page.selectedRecordIds state <> [] -> Task.id t ∈ Page.selectedRecordIds state).
Proof.
  unfold tasksToSync, filterTasksWithProject.
  destruct (Page.selectedRecordIds state) as [|x sel]; cbn [length Nat.ltb Nat.leb].
  - intros Hin. apply list_elem_of_In, filter_In in Hin as [Hin Hp].
    split; [apply list_elem_of_In, Hin|]. split; [exact Hp|]. intros H. destruct (H eq_refl).
  - intros Hin. apply list_elem_of_In, filter_In in Hin as [Hin Hsel].
    apply filter_In in Hin as [Hin Hp].
    split; [apply list_elem_of_In, Hin|]. split; [exact Hp|]. intros _.
    apply bool_decide_eq_true in Hsel. exact Hsel.
Qed.

Lemma project_ids_all (l : list BatchTask) :
  Forall (fun t => string_truthy (Task.projectId t) = true) l ->
  project_ids l = (fun t => default "" (Task.projectId t)) <$> l.
Proof.
  unfold project_ids. induction 1 as [|t l Ht _ IH]; [reflexivity|].
  rewrite !fmap_cons. cbn [List.filter]. rewrite Ht, fmap_cons, IH. reflexivity.
Qed.

Lemma string_truthy_Some o : string_truthy o = true -> exists s, o = Some s /\ s <> "".
Proof.
  destruct o as [s|]; cbn; [|discriminate]. intros Hs. exists s. split; [reflexivity|].
  intros ->. discriminate.
Qed.

Lemma publish_dates_lookup (l : list BatchTask) p d :
  publish_dates l !! p = Some d ->
  exists t, t ∈ l /\ Task.projectId t = Some p /\ Task.publishDate t = Some d /\ d <> "".
Proof.
  unfold publish_dates. induction l as [|x l IH] using rev_ind;
    [cbn [foldl]; rewrite lookup_empty; discriminate|].
  rewrite foldl_snoc.
  destruct (string_truthy (Task.projectId x) && string_truthy (Task.publishDate x)) eqn:Hx.
  - apply andb_prop in Hx as [Hp Hd].
    apply string_truthy_Some in Hp as (p' & Hp & _).
    apply string_truthy_Some in Hd as (d' & Hd & Hne).
    rewrite Hp, Hd. cbn [default].
    destruct (decide (p' = p)) as [->|Hneq].
    + rewrite lookup_insert_eq. intros [= <-]. exists x.
      split; [apply elem_of_app; right; left|]. auto.
    + rewrite lookup_insert_ne by exact Hneq. intros Hl.
      destruct (IH Hl) as (t & Ht & H). exists t. split; [apply elem_of_app; left; exact Ht|exact H].
  - intros Hl. destruct (IH Hl) as (t & Ht & H).
    exists t. split; [apply elem_of_app; left; exact Ht|exact H].
Qed.

(** X14. The upload to the drive.  The handler sends a request exactly when
    the page is connected, some task is to be synchronised (a task with a
    project, selected when there is a selection) and a folder token is
    set.  The request then lists one project id per task to synchronise,
    in task order, none of them empty, with the trimmed folder token, and
    every publish date it carries belongs to one of these tasks; after
    the answer the page is in the status idle or error.  In every other
    case the handler only shows a toast. *)
Theorem handleSyncToDrive_request trim b state :
  let t := handleSyncToDrive trim b state in
  let sends :=
    Feishu.connected (Page.feishuConfig state)
    && negb (length (tasksToSync state) =? 0)%nat
    && string_truthy (Feishu.driveFolderToken (Page.feishuConfig state)) in
  (sends = false -> requests_of t = [] /\ dispatched (effects_of t) = [])
  /\ (sends = true ->
      exists params,
        requests_of t = [Service.SyncToDrive params]
        /\ Service.tableId params = Feishu.tableId (Page.feishuConfig state)
        /\ Service.projectIds params
           = (fun t => default "" (Task.projectId t)) <$> tasksToSync state
        /\ Service.projectIds params <> []
        /\ (forall t, t ∈ tasksToSync state ->
                      t ∈ Page.tasks state
                      /\ default "" (Task.projectId t) <> ""
                      /\ (Page.selectedRecordIds state <> [] ->
                          Task.id t ∈ Page.selectedRecordIds state))
        /\ (forall p d, Service.projectPublishDates params !! p = Some d ->
                        p ∈ Service.projectIds params /\ d <> "")
        /\ Service.folderToken params
           = trim (default "" (Feishu.driveFolderToken (Page.feishuConfig state)))
        /\ isOperating (Page.status (after state t)) = false).
Proof.
  intros t sends. subst t sends. unfold handleSyncToDrive.
  assert (Hempty : tasksToSync state <> [] ->
                   (length (filterTasksWithProject (Page.tasks state)) =? 0)%nat = false).
  { intros Hne. apply Nat.eqb_neq. intros Hlen. apply Hne.
    apply length_zero_iff_nil in Hlen. unfold tasksToSync. rewrite Hlen.
    destruct (0 <? _)%nat; reflexivity. }
  assert (Hall : Forall (fun t => string_truthy (Task.projectId t) = true)
                        (tasksToSync state)).
  { apply Forall_forall. intros t Ht. apply (tasksToSync_elem state t Ht). }
  split.
  - intros Hsends.
    destruct (Feishu.connected _); cbn [negb]; [|split; reflexivity].
    destruct (length (filterTasksWithProject _) =? 0)%nat; [split; reflexivity|].
    destruct (length (tasksToSync state) =? 0)%nat; [split; reflexivity|].
    cbn in Hsends. rewrite Hsends. split; reflexivity.
  - intros [[Hconnected Hsome%negb_true_iff]%andb_prop Htoken]%andb_prop.
    rewrite Hconnected, Hsome, Htoken. cbn [negb].
    assert (Hne : tasksToSync state <> []).
    { intros Hnil. rewrite Hnil in Hsome. discriminate. }
    rewrite (Hempty Hne).
    eexists. split.
    { destruct (Service.syncToDrive _ _); reflexivity. }
    cbn [Service.tableId Service.projectIds Service.projectPublishDates Service.folderToken].
    split; [reflexivity|]. split; [apply project_ids_all, Hall|].
    split.
    { rewrite (project_ids_all _ Hall). intros Hnil. apply fmap_nil_inv in Hnil.
      contradiction. }
    split.
    { intros t Ht. destruct (tasksToSync_elem state t Ht) as (Hin & Hp & Hsel).
      split; [exact Hin|]. split; [|exact Hsel].
      apply string_truthy_Some in Hp as (s & -> & Hs). exact Hs. }
    split.
    { intros p d Hd. apply publish_dates_lookup in Hd as (t & Ht & Hp & _ & Hne').
      split; [|exact Hne']. rewrite (project_ids_all _ Hall).
      apply list_elem_of_fmap. exists t. rewrite Hp. split; [reflexivity|exact Ht]. }
    split; [reflexivity|].
    destruct (Service.syncToDrive _ _); reflexivity.
Qed.

Lemma handleSyncToDrive_request_witness :
  let tasks := [with_project "project-A" (Some "2026-01-29") scenario_A; task_new;
                with_project "project-R" None task_ready] in
  let state := connected_page tasks ["recR"; "recN"] in
  exists params,
    requests_of (handleSyncToDrive (fun s => s) (backend_with_tasks tasks) state)
    = [Service.SyncToDrive params]
    /\ Service.projectIds params = ["project-R"].
Proof.
  intros tasks state.
  destruct (handleSyncToDrive_request (fun s => s) (backend_with_tasks tasks) state)
    as [_ Hsends].
  destruct (Hsends eq_refl) as (params & Hrequest & _ & Hids & _).
  exists params. split; [exact Hrequest|exact Hids].
Defined.

(** ** Connecting *)

(** X15. Connecting sends the credentials of the configuration, with every
    empty optional token left out.  When the backend accepts, the page is
    idle and connected, shows the table name and record count of the
    answer (a missing name as the unknown table, a missing count as 0) and
    takes the folder token of the answer only when it is not empty; the
    credentials are untouched.  When the connection fails the page is in
    the status error with the error text, and its configuration is
    exactly as before: a page that was connected stays marked as
    connected. *)
Theorem handleConnect_outcome b state :
  let c := Page.feishuConfig state in
  let t := handleConnect b state in
  let state' := after state t in
  requests_of t = [Service.ConnectFeishu (Service.connect_body c)]
  /\ Service.app_token (Service.connect_body c) <> Some ""
  /\ Service.tenant_access_token (Service.connect_body c) <> Some ""
  /\ Service.body_drive_folder_token (Service.connect_body c) <> Some ""
  /\ (forall data,
         Service.connectFeishu b c = Normal data ->
         Page.status state' = idle
         /\ Page.errorMessage state' = None
         /\ Feishu.connected (Page.feishuConfig state') = true
         /\ Feishu.tableName (Page.feishuConfig state')
            = Some (if string_truthy (Service.table_name data)
                    then default "" (Service.table_name data) else "未知表格")
         /\ Feishu.recordCount (Page.feishuConfig state')
            = Some (default 0 (Service.record_count data))
         /\ Feishu.driveFolderToken (Page.feishuConfig state')
            = (if string_truthy (Service.drive_folder_token data)
               then Service.drive_folder_token data else Feishu.driveFolderToken c)
         /\ Feishu.appId (Page.feishuConfig state') = Feishu.appId c
         /\ Feishu.appSecret (Page.feishuConfig state') = Feishu.appSecret c
         /\ Feishu.appToken (Page.feishuConfig state') = Feishu.appToken c
         /\ Feishu.tenantAccessToken (Page.feishuConfig state') = Feishu.tenantAccessToken c
         /\ Feishu.tableId (Page.feishuConfig state') = Feishu.tableId c)
  /\ (forall e,
         Service.connectFeishu b c = Throw e ->
         Page.status state' = error
         /\ Page.errorMessage state' = Some (message_of e)
         /\ Page.feishuConfig state' = c).
Proof.
  intros c t state'. subst c t state'. unfold handleConnect.
  assert (Hundef : forall o, Service.or_undefined o <> Some "").
  { intros [s|]; unfold Service.or_undefined; cbn; [|discriminate].
    destruct (String.eqb_spec s ""); cbn; [discriminate|congruence]. }
  split; [destruct (Service.connectFeishu _ _); reflexivity|].
  split; [apply Hundef|]. split; [apply Hundef|]. split; [apply Hundef|].
  split.
  - intros data ->. repeat split; reflexivity.
  - intros e ->. repeat split; reflexivity.
Qed.

Lemma handleConnect_outcome_witness :
  let state := connected_page [scenario_A] [] in
  Page.status (after state (handleConnect backend_not_connected state)) = error
  /\ Feishu.connected
       (Page.feishuConfig (after state (handleConnect backend_not_connected state)))
     = true.
Proof.
  intros state.
  destruct (handleConnect_outcome backend_not_connected state)
    as (_ & _ & _ & _ & _ & Hfails).
  destruct (Hfails (Error "凭证无效") eq_refl) as (Hstatus & _ & Hconfig).
  split; [exact Hstatus|]. rewrite Hconfig. reflexivity.
Defined.

(** ** Editing one prompt *)

Lemma failure_text_nonempty body : Service.failure_text body <> "".
Proof.
  unfold Service.failure_text.
  destruct (string_truthy (Service.detail body)) eqn:Hd.
  { apply string_truthy_Some in Hd as (s & -> & Hs). exact Hs. }
  destruct (string_truthy (Service.message body)) eqn:Hm.
  { apply string_truthy_Some in Hm as (s & -> & Hs). exact Hs. }
  discriminate.
Qed.


(** X16. The edit of one prompt never dispatches an action and sends at most
    one request: none when the task is unknown or has no project (the
    result then names the missing project), one otherwise.  The task list
    is reloaded exactly when the request was answered, also by an error
    response, which the service layer returns as a failed result with a
    text that is never empty; only a request that failed altogether skips
    the reload.  A result reports success only when the backend answered
    with success and did not merely accept the job; an accepted job is
    reported as submitted, not as a success. *)
Theorem handlePromptEdit_outcome b state taskId segmentIndex fields :
  let projectId := project_of (Page.tasks state) taskId in
  let params :=
    {| Service.edit_tableId := Feishu.tableId (Page.feishuConfig state);
       Service.edit_recordId := taskId;
       Service.edit_projectId := projectId;
       Service.edit_segmentIndex := segmentIndex;
       Service.edit_fields := fields |} in
  let r := handlePromptEdit b state taskId segmentIndex fields in
  dispatched (effects_of r.1) = []
  /\ (projectId = "" ->
      r.1 = []
      /\ PromptEdit.success r.2 = false
      /\ PromptEdit.error r.2 = Some "项目 ID 不存在，请先生成分镜")
  /\ (projectId <> "" ->
      requests_of r.1 = [Service.EditAndRegenerate params]
      /\ (LoadTasks ∈ effects_of r.1
          <-> exists res, Service.edit_and_regenerate b params = Normal res)
      /\ (forall body,
             Service.edit_and_regenerate b params = Normal (Service.NotOk body) ->
             PromptEdit.success r.2 = false
             /\ PromptEdit.error r.2 = Some (Service.failure_text body)
             /\ Service.failure_text body <> ""
             /\ toasts_of r.1 = [(Service.failure_text body, toast_error)])
      /\ (PromptEdit.success r.2 = true ->
          exists data,
            Service.edit_and_regenerate b params = Normal (Service.Ok data)
            /\ Service.edit_success data = true
            /\ default false (Service.accepted data) = false)
      /\ (forall data,
             Service.edit_and_regenerate b params = Normal (Service.Ok data) ->
             default false (Service.accepted data) = true ->
             PromptEdit.success r.2 = false
             /\ PromptEdit.submitted r.2 = Some true)).
Proof.
  intros projectId params r. subst r. unfold handlePromptEdit. fold projectId. fold params.
  destruct (String.eqb_spec projectId "") as [Hempty|Hproject].
  { split; [reflexivity|]. split; [intros _; repeat split; reflexivity|].
    intros H. destruct (H Hempty). }
  assert (Hnot : forall l, LoadTasks ∈ (l : list effect) -> l = [] -> False).
  { intros l Hin ->. inversion Hin. }
  unfold Service.editAndRegenerate.
  destruct (Service.edit_and_regenerate b params) as [[data|body]|e];
    cbn [mbind result_bind mret result_ret].
  - destruct (default false (Service.accepted data)) eqn:Haccepted; cbn [fst snd].
    + split; [reflexivity|]. split; [intros H; destruct (Hproject H)|]. intros _.
      split; [reflexivity|]. split.
      { split; [eauto|]. intros _. cbn. left. }
      split; [intros body [=]|]. split; [discriminate|].
      intros data' [= <-] _. split; reflexivity.
    + split; [destruct (Service.edit_success data); reflexivity|].
      split; [intros H; destruct (Hproject H)|]. intros _.
      split; [reflexivity|]. split.
      { split; [eauto|]. intros _. cbn. left. }
      split; [intros body [=]|]. split.
      { intros Hs. exists data. repeat split; assumption. }
      intros data' [= <-] Hacc. rewrite Hacc in Haccepted. discriminate.
  - cbn [Service.accepted default fst snd Service.edit_success Service.error].
    pose proof (failure_text_nonempty body) as Hne.
    assert (Htruthy : string_truthy (Some (Service.failure_text body)) = true).
    { cbn. destruct (String.eqb_spec (Service.failure_text body) ""); [contradiction|reflexivity]. }
    rewrite Htruthy.
    split; [reflexivity|]. split; [intros H; destruct (Hproject H)|]. intros _.
    split; [reflexivity|]. split.
    { split; [eauto|]. intros _. cbn. left. }
    split.
    { intros body' [= <-]. repeat split; try reflexivity. exact Hne. }
    split; [discriminate|]. intros data [=].
  - cbn [fst snd].
    split; [reflexivity|]. split; [intros H; destruct (Hproject H)|]. intros _.
    split; [reflexivity|]. split.
    { split; [intros Hin; inversion Hin|intros [res [=]]]. }
    split; [intros body [=]|]. split; [discriminate|]. intros data [=].
Qed.

Lemma handlePromptEdit_outcome_witness :
  let tasks := [with_project "project-A" None scenario_A] in
  let state := connected_page tasks [] in
  let r := handlePromptEdit (backend_with_tasks tasks) state "recA" 2
             (Edit.edited (make_edit "recA" 2 true)) in
  PromptEdit.error r.2 = Some "HTTP 502"
  /\ LoadTasks ∈ effects_of r.1.
Proof.
  intros tasks state r.
  destruct (handlePromptEdit_outcome (backend_with_tasks tasks) state "recA" 2
              (Edit.edited (make_edit "recA" 2 true)))
    as (_ & _ & Hsent).
  destruct Hsent as (_ & Hreload & Hfailed & _); [discriminate|].
  split.
  - destruct (Hfailed {| Service.detail := None; Service.message := None;
                         Service.http_status := 502 |} eq_refl) as (_ & Herror & _).
    exact Herror.
  - apply Hreload. eexists. reflexivity.
Defined.

(** ** Settling *)




(** * Properties of the table and the detail panel *)

Lemma parseStoryboardSegments_object props :
  parseStoryboardSegments (Some (Json (VObj props)))
  = if isArray (prop (VObj props) "storyboards")
    then items_of (prop (VObj props) "storyboards")
    else if isArray (prop (VObj props) "segments")
         then items_of (prop (VObj props) "segments")
         else [].
Proof.
  unfold parseStoryboardSegments. cbn -[truthy isArray prop].
  unfold get. cbn -[truthy isArray prop].
  rewrite ?truthy_and_isArray.
  destruct (isArray (prop (VObj props) "storyboards")); [reflexivity|].
  cbn -[truthy isArray prop]. rewrite ?truthy_and_isArray.
  destruct (isArray (prop (VObj props) "segments")); reflexivity.
Qed.

Lemma detail_storyboards_object props :
  detail_storyboards (Some (Json (VObj props)))
  = if isArray (prop (VObj props) "storyboards")
    then items_of (prop (VObj props) "storyboards")
    else [].
Proof.
  unfold detail_storyboards. cbn -[isArray prop].
  destruct (isArray (prop (VObj props) "storyboards")); reflexivity.
Qed.

Lemma edit_storyboards_object props :
  edit_storyboards (Some (Json (VObj props)))
  = or_else (prop (VObj props) "storyboards") (VArr []).
Proof. reflexivity. Qed.

Lemma isArray_items v : isArray v = true -> v = VArr (items_of v).
Proof. destruct v; cbn; intros [=]. reflexivity. Qed.

(** X18. The storyboard parsers.  The detail panel reads the storyboard text
    as the scheduling helper does, except for one shape: an object whose
    [storyboards] is no array and whose [segments] is one, for which the
    helper returns the segments and the panel nothing.  The single-edit
    modal of the page reads what the panel reads, except for an object
    whose [storyboards] is truthy and no array, which it takes as it
    is. *)
Theorem storyboard_parsers_agree storyboardJson :
  (detail_storyboards storyboardJson = parseStoryboardSegments storyboardJson
   \/ exists props segs,
        storyboardJson = Some (Json (VObj props))
        /\ isArray (prop (VObj props) "storyboards") = false
        /\ prop (VObj props) "segments" = VArr segs
        /\ parseStoryboardSegments storyboardJson = segs
        /\ detail_storyboards storyboardJson = [])
  /\ (edit_storyboards storyboardJson = VArr (detail_storyboards storyboardJson)
      \/ exists props v,
           storyboardJson = Some (Json (VObj props))
           /\ prop (VObj props) "storyboards" = v
           /\ truthy v = true
           /\ isArray v = false
           /\ edit_storyboards storyboardJson = v
           /\ detail_storyboards storyboardJson = []).
Proof.
  destruct storyboardJson as [[| |parsed]|]; try (split; left; reflexivity).
  destruct parsed as [| |flag|x|s|items|props]; try (split; left; reflexivity).
  - destruct flag; split; left; reflexivity.
  - split; left; unfold detail_storyboards, edit_storyboards, parseStoryboardSegments;
      cbn -[truthy]; destruct (truthy (VNum x)); reflexivity.
  - split; left; unfold detail_storyboards, edit_storyboards, parseStoryboardSegments;
      cbn -[truthy]; destruct (truthy (VStr s)); reflexivity.
  - rewrite parseStoryboardSegments_object, detail_storyboards_object,
      edit_storyboards_object.
    destruct (isArray (prop (VObj props) "storyboards")) eqn:Hsb.
    + split; [left; reflexivity|]. left.
      rewrite (isArray_items _ Hsb) at 1. reflexivity.
    + split.
      * destruct (isArray (prop (VObj props) "segments")) eqn:Hsg; [|left; reflexivity].
        right. exists props, (items_of (prop (VObj props) "segments")).
        split; [reflexivity|]. split; [exact Hsb|].
        split; [apply isArray_items, Hsg|]. split; reflexivity.
      * unfold or_else.
        destruct (truthy (prop (VObj props) "storyboards")) eqn:Htruthy; [|left; reflexivity].
        right. exists props, (prop (VObj props) "storyboards").
        split; [reflexivity|]. split; [reflexivity|]. split; [exact Htruthy|].
        split; [exact Hsb|]. split; reflexivity.
Qed.

Lemma storyboard_parsers_agree_witness :
  length (parseStoryboardSegments (Task.storyboardJson task_segments_shape)) = 1
  /\ length (pending_segments [task_segments_shape] []) = 1
  /\ detail_storyboards (Task.storyboardJson task_segments_shape) = []
  /\ edit_storyboards (Task.storyboardJson task_segments_shape) = VArr [].
Proof.
  destruct (storyboard_parsers_agree (Task.storyboardJson task_segments_shape))
    as [[Hsame|(props & segs & _ & _ & _ & _ & Hdetail)]
          [Hedit|(props' & v & Hprops & Hv & Htruthy & _)]].
  - discriminate Hsame.
  - discriminate Hsame.
  - split; [reflexivity|]. split; [reflexivity|].
    split; [exact Hdetail|]. rewrite Hedit, Hdetail. reflexivity.
  - injection Hprops as <-. subst v. discriminate Htruthy.
Defined.

(** ** Media addresses and table rows *)

Lemma prefix_http_not_slash url :
  String.prefix "http://" url || String.prefix "https://" url = true ->
  String.prefix "/" url = false.
Proof.
  destruct (String.prefix "/" url) eqn:Hslash; [|reflexivity].
  apply prefix_app in Hslash as [k ->].
  intros [Hh|Hh]%orb_prop; apply prefix_app in Hh as [k' Hk'];
    rewrite !string_app_cons in Hk'; discriminate Hk'.
Qed.

Lemma prefix_slash_app base url :
  base <> "" -> String.prefix "/" (base +:+ url) = String.prefix "/" base.
Proof.
  intros Hbase.
  destruct (String.prefix "/" base) eqn:Hslash.
  - apply prefix_app in Hslash as [k ->]. apply prefix_app.
    exists (k +:+ url). rewrite !string_app_cons. reflexivity.
  - destruct (String.prefix "/" (base +:+ url)) eqn:Happ; [|reflexivity].
    apply prefix_app in Happ as [k Hk]. rewrite <- Hslash. symmetry.
    destruct base as [|c base]; [contradiction|].
    rewrite !string_app_cons in Hk. injection Hk as -> _.
    apply prefix_app. exists base. reflexivity.
Qed.

(** X19. The two resolvers of media addresses agree when no cache busting is
    asked: the table and the detail panel show the same address for the
    same field, and none exactly when the field is empty or absent.  With
    cache busting the detail panel appends the time to the addresses that
    contain [.mp4], after [?] or, if the address has a query already,
    after [&], and changes no other address.  When the base address is
    not empty and does not start with a slash, a resolved address never
    starts with a slash, and resolving it again changes nothing. *)
Theorem resolveMediaUrl_agree API_BASE now url :
  table_resolveMediaUrl API_BASE url = detail_resolveMediaUrl API_BASE now url false
  /\ (table_resolveMediaUrl API_BASE url = None <-> string_truthy url = false)
  /\ (forall resolved,
         detail_resolveMediaUrl API_BASE now url false = Some resolved ->
         detail_resolveMediaUrl API_BASE now url true
         = Some (if includes ".mp4" resolved
                 then resolved +:+ (if includes "?" resolved then "&" else "?")
                      +:+ "_t=" +:+ pretty now
                 else resolved))
  /\ (API_BASE <> "" ->
      String.prefix "/" API_BASE = false ->
      forall resolved,
        table_resolveMediaUrl API_BASE url = Some resolved ->
        String.prefix "/" resolved = false
        /\ table_resolveMediaUrl API_BASE (Some resolved) = Some resolved).
Proof.
  unfold table_resolveMediaUrl, detail_resolveMediaUrl.
  destruct (string_truthy url) eqn:Htruthy; cbn [negb andb].
  2: { split; [reflexivity|]. split; [split; reflexivity|].
       split; [intros resolved [=]|]. intros _ _ resolved [=]. }
  apply string_truthy_Some in Htruthy as (u & -> & Hu). cbn [default from_option id].
  split; [|split; [|split]].
  - destruct (String.prefix "http://" u || String.prefix "https://" u) eqn:Hhttp.
    + rewrite (prefix_http_not_slash u Hhttp). reflexivity.
    + destruct (String.prefix "/" u); reflexivity.
  - split; [|discriminate].
    destruct (_ || _); [discriminate|]. destruct (String.prefix "/" u); discriminate.
  - intros resolved [= <-]. destruct (includes ".mp4" _); reflexivity.
  - intros Hbase Hslash resolved Hresolved.
    assert (Hcases : (resolved = u /\ String.prefix "/" u = false)
                     \/ resolved = API_BASE +:+ u).
    { destruct (_ || _) eqn:Hhttp.
      - injection Hresolved as <-. left. split; [reflexivity|].
        apply prefix_http_not_slash, Hhttp.
      - destruct (String.prefix "/" u) eqn:Hu'; injection Hresolved as <-; auto. }
    assert (Hfree : String.prefix "/" resolved = false).
    { destruct Hcases as [[-> H]| ->]; [exact H|].
      rewrite prefix_slash_app by exact Hbase. exact Hslash. }
    split; [exact Hfree|].
    assert (Hne : string_truthy (Some resolved) = true).
    { destruct Hcases as [[-> _]| ->]; cbn.
      - destruct (String.eqb_spec u ""); [contradiction|reflexivity].
      - destruct API_BASE; [contradiction|reflexivity]. }
    rewrite Hne. cbn [negb default from_option id]. rewrite Hfree.
    destruct (String.prefix "http://" resolved || String.prefix "https://" resolved);
      reflexivity.
Qed.

Lemma resolveMediaUrl_agree_witness :
  table_resolveMediaUrl "http://localhost:8000" (Some "/storage/recA/final.mp4")
  = Some "http://localhost:8000/storage/recA/final.mp4"
  /\ detail_resolveMediaUrl "http://localhost:8000" 1769644800000%N
       (Some "/storage/recA/final.mp4") true
     = Some "http://localhost:8000/storage/recA/final.mp4?_t=1769644800000".
Proof.
  destruct (resolveMediaUrl_agree "http://localhost:8000" 1769644800000%N
              (Some "/storage/recA/final.mp4")) as (_ & _ & Hbust & Hagain).
  split.
  - destruct (Hagain ltac:(discriminate) eq_refl
                "http://localhost:8000/storage/recA/final.mp4" eq_refl) as [_ H].
    reflexivity.
  - rewrite (Hbust "http://localhost:8000/storage/recA/final.mp4" eq_refl).
    vm_compute. reflexivity.
Defined.

(** X20. The rows of the table and the numbers of the statistics bar: with the
    filter [all] the table shows as many rows as the total, with the
    filter [completed] as many as the completed count, and the rows of
    the filters [failed] and [image_failed] together are as many as the
    failed count, so the filter [failed] alone may show fewer rows than
    the bar counts.  Under any other filter every row has the status of
    the filter. *)
Theorem filteredData_counts tasks :
  length (filteredData tasks "all") = Stats.total (calculateStats tasks)
  /\ length (filteredData tasks "completed") = Stats.completed (calculateStats tasks)
  /\ length (filteredData tasks "failed") + length (filteredData tasks "image_failed")
     = Stats.failed (calculateStats tasks)
  /\ forall statusFilter t,
       statusFilter <> "all" ->
       t ∈ filteredData tasks statusFilter ->
       t ∈ tasks /\ Task.status t = statusFilter.
Proof.
  split; [reflexivity|]. split; [reflexivity|]. split.
  - unfold filteredData, calculateStats, counts_failed. cbn.
    induction tasks as [|t tasks IH]; [reflexivity|]. cbn.
    destruct (String.eqb_spec (Task.status t) "failed") as [Hf|Hf];
      destruct (String.eqb_spec (Task.status t) "image_failed") as [Hi|Hi];
      try (rewrite Hf in Hi; discriminate); cbn; lia.
  - intros statusFilter t Hne. unfold filteredData.
    destruct (String.eqb_spec statusFilter "all"); [contradiction|].
    intros Hin. apply list_elem_of_In, filter_In in Hin as [Hin Hs].
    split; [apply list_elem_of_In, Hin|]. apply String.eqb_eq, Hs.
Qed.

Lemma filteredData_counts_witness :
  let tasks := [scenario_A; with_task_status "image_failed" None task_new;
                with_task_status "failed" (Some "provider timeout") task_ready] in
  length (filteredData tasks "failed") = 1
  /\ Stats.failed (calculateStats tasks) = 2.
Proof.
  intros tasks.
  destruct (filteredData_counts tasks) as (_ & _ & Hfailed & Hrows).
  split; [reflexivity|]. rewrite <- Hfailed. reflexivity.
Defined.

(** ** The frames of the reducer *)

Lemma merge_feishu_idempotent c p : merge_feishu (merge_feishu c p) p = merge_feishu c p.
Proof.
  destruct p as [a1 a2 a3 a4 a5 a6 a7 a8 a9]. unfold merge_feishu. cbn.
  destruct a1, a2, a3, a4, a5, a6, a7, a8, a9; reflexivity.
Qed.

Lemma merge_settings_idempotent s p :
  merge_settings (merge_settings s p) p = merge_settings s p.
Proof.
  destruct p as [a1 a2 a3]. unfold merge_settings. cbn.
  destruct a1, a2, a3; reflexivity.
Qed.

(** X22. The reducer keeps the two parts of the state apart and repeats
    harmlessly.  An action of the user interface leaves the status, the
    error message, the connection, the tasks and the current segment
    index as they are; every other action leaves the selection, the
    filter, the panels (the batch-edit modal included) and the settings as
    they are.  The tasks change only on [LOAD_TASKS_SUCCESS] and the
    current segment index only on [GENERATE_SEGMENT_START].  Applying any
    action twice gives the state that applying it once gives. *)
Theorem pageReducer_frames state action :
  (is_ui action = true ->
   operation_part (pageReducer state action) = operation_part state)
  /\ (is_ui action = false -> ui_part (pageReducer state action) = ui_part state)
  /\ (Page.tasks (pageReducer state action) <> Page.tasks state ->
      exists payload, action = LOAD_TASKS_SUCCESS payload)
  /\ (Page.currentSegmentIndex (pageReducer state action) <> Page.currentSegmentIndex state ->
      exists payload, action = GENERATE_SEGMENT_START payload)
  /\ pageReducer (pageReducer state action) action = pageReducer state action.
Proof.
  split; [|split; [|split; [|split]]].
  - destruct action; try discriminate; reflexivity.
  - destruct action; try discriminate; reflexivity.
  - destruct action; cbn; try (intros H; destruct (H eq_refl)). eauto.
  - destruct action; cbn; try (intros H; destruct (H eq_refl)). eauto.
  - destruct action; try reflexivity.
    + cbn. unfold with_feishuConfig, connected_config. cbn.
      destruct (string_truthy driveFolderToken); reflexivity.
    + cbn. unfold with_feishuConfig. cbn. rewrite merge_feishu_idempotent. reflexivity.
    + cbn. unfold with_ui. cbn. rewrite merge_settings_idempotent. reflexivity.
Qed.

Lemma pageReducer_frames_witness :
  Page.showBatchEditModal
    (foldl pageReducer (pageReducer INITIAL_STATE (SET_SHOW_BATCH_EDIT_MODAL true))
       [GENERATE_SEGMENT_START 2])
  = true.
Proof.
  destruct (pageReducer_frames (pageReducer INITIAL_STATE (SET_SHOW_BATCH_EDIT_MODAL true))
              (GENERATE_SEGMENT_START 2)) as (_ & Hui & _).
  specialize (Hui eq_refl). cbn [foldl].
  change (Page.showBatchEditModal ?s) with (ui_part s).1.1.2.
  rewrite Hui. reflexivity.
Defined.
